(** * PA02 network I/O: message codec, aligned buffers, statistics and the
      MSG_ZEROCOPY sender, embedded from the C sources.

    - [Codec]          MT25048_Part_A_common.c: msg_alloc, msg_serialize,
                       msg_deserialize.
    - [AlignedBuffer]  the posix_memalign prologue of the A2/A3 workers.
    - [Stats]          stats_init, stats_update, stats_print,
                       calculate_throughput_gbps.
    - [ZeroCopy]       MT25048_Part_A3_{Server,Client}.c:
                       check_zerocopy_support, handle_zerocopy_completions,
                       the send loop and the shutdown drain loop.
    - [Release]        MT25048_Part_A_common.c: msg_free.
    - [Args]           parse_int_arg, parse_string_arg and the argument
                       loops of the [main] functions.
    - [OneCopy]        MT25048_Part_A2_Server.c: client_handler.
    - [TwoCopy]        MT25048_Part_A1_Client.c: sender_thread.
    - [Receiver]       MT25048_Part_A1_Server.c, MT25048_Part_A3_Server.c:
                       client_handler.
    - [Listener]       MT25048_Part_A1_Server.c: main.
    - [Spawner]        MT25048_Part_A3_Client.c: main.

    Integers are [Z] with the C wrap-around written out (size_t is 64 bit,
    int and uint32_t are 32 bit, as on the x86-64 Linux target of the
    Makefile); doubles are binary64 primitive floats; memory regions are
    lists of bytes whose length is the extent of the object. *)

From Stdlib Require Import ZArith List Lia Bool String Floats.
From Stdlib Require Import Ascii Permutation DecimalN Sorted.
From coqutil Require Import Byte Word.LittleEndianList.
Import ListNotations.
Local Open Scope list_scope.
Local Open Scope Z_scope.

(* ===================================================================== *)
(** ** C integer types *)
(* ===================================================================== *)

Module CTypes.

Definition SIZE_MAX : Z := 2 ^ 64 - 1.
Definition INT_MAX : Z := 2 ^ 31 - 1.
Definition INT_MIN : Z := - 2 ^ 31.

(** [sizeof(size_t)] on the LP64 target. *)
Definition sizeof_size_t : Z := 8.

(** Arithmetic on [size_t] is modulo 2^64. *)
Definition size_t_wrap (z : Z) : Z := z mod 2 ^ 64.

(** Arithmetic on [uint32_t] / [unsigned int] is modulo 2^32. *)
Definition uint32_wrap (z : Z) : Z := z mod 2 ^ 32.

(** Conversion of an integer value to [int]: the value is reduced modulo
    2^32 into [INT_MIN, INT_MAX] (what GCC defines for the
    implementation-defined out-of-range case). *)
Definition to_int (z : Z) : Z :=
  let w := z mod 2 ^ 32 in
  if w <? 2 ^ 31 then w else w - 2 ^ 32.

Definition is_size_t (z : Z) : Prop := 0 <= z <= SIZE_MAX.
Definition is_int (z : Z) : Prop := INT_MIN <= z <= INT_MAX.

End CTypes.
Import CTypes.

(* ===================================================================== *)
(** ** Defined and undefined behaviour, raw memory *)
(* ===================================================================== *)

(** A C computation either has a defined result or runs into undefined
    behaviour (an access outside the object it was given). *)
Inductive outcome (A : Type) : Type :=
| Defined (a : A)
| Undefined.
Arguments Defined {A} a.
Arguments Undefined {A}.

Definition bind {A B : Type} (c : outcome A) (k : A -> outcome B) : outcome B :=
  match c with
  | Defined a => k a
  | Undefined => Undefined
  end.

Notation "x <- c ;; k" := (bind c (fun x => k))
  (at level 61, c at next level, right associativity).

Definition zlen {A : Type} (l : list A) : Z := Z.of_nat (List.length l).

(** Read [n] bytes at offset [off] of the object [src]. *)
Definition mem_read (src : list byte) (off n : Z) : outcome (list byte) :=
  if (0 <=? off) && (0 <=? n) && (off + n <=? zlen src)
  then Defined (firstn (Z.to_nat n) (skipn (Z.to_nat off) src))
  else Undefined.

(** Overwrite the bytes at offset [off] of the object [dst] with [data]. *)
Definition mem_write (dst : list byte) (off : Z) (data : list byte)
  : outcome (list byte) :=
  if (0 <=? off) && (off + zlen data <=? zlen dst)
  then Defined (firstn (Z.to_nat off) dst ++ data
                  ++ skipn (Z.to_nat (off + zlen data)) dst)
  else Undefined.

(** [memcpy(dst + doff, src + soff, n)]. *)
Definition memcpy (dst : list byte) (doff : Z) (src : list byte) (soff n : Z)
  : outcome (list byte) :=
  data <- mem_read src soff n ;;
  mem_write dst doff data.

(** What the library functions leave behind: lines on stderr and the calls
    to the allocator. *)
Inductive event : Type :=
| Stderr (line : string)
| Malloc (size : Z) (ok : bool)
| Free (slot : nat)          (* free(msg->field[slot]) *)
| FreeMessage.               (* free(msg) *)

(** The allocator as the environment drives it: the [k]-th request of a run,
    for [size] bytes, fails ([None]) or succeeds with a block whose
    indeterminate content is filled with the given byte. *)
Definition allocator : Type := nat -> Z -> option byte.

Definition fresh_block (junk : byte) (size : Z) : list byte :=
  repeat junk (Z.to_nat size).

(* ===================================================================== *)
(** ** Message codec (MT25048_Part_A_common.c) *)
(* ===================================================================== *)

Module Codec.

Definition NUM_FIELDS : Z := 8.

(** [message_t]: the array of [NUM_FIELDS] field pointers and the size of
    each field.  A pointer to live storage is [Some block]; a null,
    indeterminate or dangling pointer is [None]. *)
Record message_t : Type := mk_message {
  field : list (option (list byte));
  field_size : Z
}.

Definition set_field (msg : message_t) (i : nat) (p : option (list byte))
  : message_t :=
  {| field := firstn i (field msg) ++ p :: skipn (S i) (field msg);
     field_size := field_size msg |}.

Definition set_field_size (msg : message_t) (n : Z) : message_t :=
  {| field := field msg; field_size := n |}.

(** Dereferencing [msg->field[i]]. *)
Definition field_block (msg : message_t) (i : nat) : outcome (list byte) :=
  match nth_error (field msg) i with
  | Some (Some blk) => Defined blk
  | _ => Undefined
  end.

(** The indices of [for (int i = 0; i < NUM_FIELDS; i++)]. *)
Definition field_indices : list nat := seq 0 (Z.to_nat NUM_FIELDS).

(** [sizeof(size_t) + (NUM_FIELDS * field_size)], computed in [size_t]. *)
Definition total_size (fsz : Z) : Z :=
  size_t_wrap (sizeof_size_t + size_t_wrap (NUM_FIELDS * fsz)).

(** The text of ["Field%d_Data_%zu"]. *)
Definition decimal (n : Z) : string :=
  DecimalString.NilZero.string_of_uint (N.to_uint (Z.to_N n)).

Definition field_pattern (i : nat) (fsz : Z) : list byte :=
  list_byte_of_string
    ("Field" ++ decimal (Z.of_nat i) ++ "_Data_" ++ decimal fsz)%string.

(** [snprintf(blk, size, "%s", text)]: at most [size - 1] characters and
    a terminating NUL; nothing at all when [size] is 0. *)
Definition snprintf (blk : list byte) (size : Z) (text : list byte)
  : list byte :=
  if size =? 0 then blk
  else
    let body := firstn (Z.to_nat (size - 1)) text in
    body ++ Byte.x00 :: skipn (S (List.length body)) blk.

(** The loop of [msg_alloc]; request 0 was the [message_t] itself, field
    [i] is request [S i]. *)
Fixpoint alloc_fields (alloc : allocator) (fsz : Z) (idx : list nat)
    (acc : list (option (list byte))) (log : list event)
  : option message_t * list event :=
  match idx with
  | [] => (Some {| field := acc; field_size := fsz |}, log)
  | i :: rest =>
      match alloc (S i) fsz with
      | None =>
          (None,
           log ++ [Malloc fsz false; Stderr "malloc field failed"]
               ++ map Free (seq 0 i) ++ [FreeMessage])
      | Some junk =>
          let blk := snprintf (fresh_block junk fsz) fsz (field_pattern i fsz) in
          alloc_fields alloc fsz rest (acc ++ [Some blk])
                       (log ++ [Malloc fsz true])
      end
  end.

(** [sizeof(message_t)]: eight pointers and a [size_t]. *)
Definition sizeof_message_t : Z := 72.

(** [msg_alloc]: [None] is the NULL result. *)
Definition msg_alloc (alloc : allocator) (fsz : Z)
  : option message_t * list event :=
  match alloc 0%nat sizeof_message_t with
  | None => (None, [Malloc sizeof_message_t false;
                    Stderr "malloc message_t failed"])
  | Some _ =>
      alloc_fields alloc fsz field_indices []
                   [Malloc sizeof_message_t true]
  end.

(** The field loop of [msg_serialize]. *)
Fixpoint serialize_fields (msg : message_t) (idx : list nat)
    (buffer : list byte) (offset : Z) : outcome (list byte) :=
  match idx with
  | [] => Defined buffer
  | i :: rest =>
      blk <- field_block msg i ;;
      buffer' <- memcpy buffer offset blk 0 (field_size msg) ;;
      serialize_fields msg rest buffer'
                       (size_t_wrap (offset + field_size msg))
  end.

(** [msg_serialize]: the [int] result, the buffer afterwards and what was
    printed. *)
Definition msg_serialize (msg : message_t) (buffer : list byte)
    (buffer_size : Z) : outcome (Z * list byte * list event) :=
  let total := total_size (field_size msg) in
  if buffer_size <? total then
    Defined (-1, buffer, [Stderr "Buffer too small for serialization"])
  else
    buffer1 <- mem_write buffer 0
                 (le_split (Z.to_nat sizeof_size_t) (field_size msg)) ;;
    buffer2 <- serialize_fields msg field_indices buffer1 sizeof_size_t ;;
    Defined (to_int total, buffer2, []).

(** The field loop of [msg_deserialize]; field [i] is request [i]. *)
Fixpoint deserialize_fields (alloc : allocator) (buffer : list byte)
    (fsz : Z) (idx : list nat) (msg : message_t) (offset : Z)
    (log : list event) : outcome (Z * message_t * list event) :=
  match idx with
  | [] => Defined (to_int (total_size fsz), msg, log)
  | i :: rest =>
      match alloc i fsz with
      | None =>
          Defined (-1,
                   fold_left (fun m j => set_field m j None) (seq 0 i)
                             (set_field msg i None),
                   log ++ [Malloc fsz false;
                           Stderr "malloc field failed in deserialize"]
                       ++ map Free (seq 0 i))
      | Some _ =>
          data <- mem_read buffer offset fsz ;;
          deserialize_fields alloc buffer fsz rest
                             (set_field msg i (Some data))
                             (size_t_wrap (offset + fsz))
                             (log ++ [Malloc fsz true])
      end
  end.

(** [msg_deserialize]: [msg] is what the caller's struct held before the
    call; the result carries the [int] result, the struct afterwards and
    the events. *)
Definition msg_deserialize (alloc : allocator) (msg : message_t)
    (buffer : list byte) (buffer_size : Z)
  : outcome (Z * message_t * list event) :=
  if buffer_size <? sizeof_size_t then
    Defined (-1, msg, [Stderr "Buffer too small for deserialization"])
  else
    raw <- mem_read buffer 0 sizeof_size_t ;;
    let fsz := le_combine raw in
    if buffer_size <? total_size fsz then
      Defined (-1, msg, [Stderr "Buffer incomplete for deserialization"])
    else
      deserialize_fields alloc buffer fsz field_indices
                         (set_field_size msg fsz) sizeof_size_t [].

(** The field size a buffer declares in its first [sizeof(size_t)]
    bytes (little-endian, as [memcpy] of a [size_t] lays it out on the
    target). *)
Definition declared_field_size (buffer : list byte) : Z :=
  le_combine (firstn (Z.to_nat sizeof_size_t) buffer).

(** A message as [msg_alloc] builds it: eight live fields of exactly
    [field_size] bytes.  The struct and its fields are disjoint objects
    of one 64-bit address space, so together they do not exceed it. *)
Definition well_formed (msg : message_t) : Prop :=
  0 <= field_size msg /\
  sizeof_message_t + NUM_FIELDS * field_size msg <= SIZE_MAX /\
  exists blocks,
    field msg = map Some blocks /\
    List.length blocks = Z.to_nat NUM_FIELDS /\
    Forall (fun blk => zlen blk = field_size msg) blocks.

(** The frame: prefix, then the fields back to back. *)
Definition frame_of (msg : message_t) : list byte :=
  le_split (Z.to_nat sizeof_size_t) (field_size msg)
    ++ List.concat (map (fun p => match p with Some b => b | None => [] end)
                   (field msg)).

End Codec.

(* ===================================================================== *)
(** ** Page-aligned transmission buffers (prologue of the A2/A3 workers) *)
(* ===================================================================== *)

Module AlignedBuffer.

Definition PAGE_SIZE : Z := 4096.

(** [size_t buffer_size = sizeof(size_t) + msg_size;] *)
Definition buffer_size (msg_size : Z) : Z :=
  size_t_wrap (sizeof_size_t + msg_size).

(** [((buffer_size + PAGE_SIZE - 1) / PAGE_SIZE) * PAGE_SIZE], every step
    in [size_t]. *)
Definition aligned_size (buffer_size : Z) : Z :=
  size_t_wrap
    (size_t_wrap (size_t_wrap (buffer_size + PAGE_SIZE) - 1) / PAGE_SIZE
     * PAGE_SIZE).

(** The region a successful [posix_memalign] hands to the worker. *)
Record region : Type := mk_region { base : Z; extent : Z }.

(** [posix_memalign(&aligned_buffer, PAGE_SIZE, aligned_size)] as the
    worker calls it; the C library is the parameter [posix_memalign],
    which gets the alignment and the size and yields the address or
    fails.  [None] is the worker's "posix_memalign failed" exit. *)
Definition allocate (posix_memalign : Z -> Z -> option Z) (msg_size : Z)
  : option region :=
  let size := aligned_size (buffer_size msg_size) in
  match posix_memalign PAGE_SIZE size with
  | None => None
  | Some p => Some {| base := p; extent := size |}
  end.

(** The contract POSIX gives for [posix_memalign]: the address returned
    is a multiple of the alignment asked for. *)
Definition posix_contract (posix_memalign : Z -> Z -> option Z) : Prop :=
  forall alignment size p,
    posix_memalign alignment size = Some p -> p mod alignment = 0.

(** A bump allocator over the break [brk]: one instance of the contract. *)
Definition bump_memalign (brk : Z) (alignment size : Z) : option Z :=
  if 0 <? alignment
  then Some ((brk + alignment - 1) / alignment * alignment)
  else None.

End AlignedBuffer.

(* ===================================================================== *)
(** ** Statistics (MT25048_Part_A_common.c) *)
(* ===================================================================== *)

Module Stats.

(** [stats_t] without its mutex. *)
Record stats_t : Type := mk_stats {
  total_bytes : Z;
  total_messages : Z;
  total_latency_us : float;
  start_time_sec : float;
  end_time_sec : float
}.

(** Conversion of a [size_t] value to [double]: round to nearest, ties to
    even. *)
Definition double_of_size_t (z : Z) : float :=
  SF2Prim (binary_normalize prec emax z 0 false).

(** [stats_init]; [now] is what [get_timestamp_sec()] returns. *)
Definition stats_init (now : float) : stats_t :=
  {| total_bytes := 0; total_messages := 0; total_latency_us := 0%float;
     start_time_sec := now; end_time_sec := 0%float |}.

(** [stats_update]. *)
Definition stats_update (stats : stats_t) (bytes : Z) (latency_us : float)
  : stats_t :=
  {| total_bytes := size_t_wrap (total_bytes stats + bytes);
     total_messages := size_t_wrap (total_messages stats + 1);
     total_latency_us := (total_latency_us stats + latency_us)%float;
     start_time_sec := start_time_sec stats;
     end_time_sec := end_time_sec stats |}.

(** [calculate_throughput_gbps]. *)
Definition calculate_throughput_gbps (bytes_transferred : Z)
    (duration_sec : float) : float :=
  if (duration_sec <=? 0)%float then 0%float
  else
    let bits := (double_of_size_t bytes_transferred * 8)%float in
    (bits / (duration_sec * 1000000000))%float.

(** The figures [stats_print] puts on stdout. *)
Record report : Type := mk_report {
  duration_sec : float;
  printed_bytes : Z;
  printed_messages : Z;
  throughput_gbps : float;
  avg_latency_us : float;
  messages_per_sec : float
}.

(** [stats_print]; [now] is what [get_timestamp_sec()] returns inside. *)
Definition stats_print (stats : stats_t) (now : float) : stats_t * report :=
  let stats' :=
    {| total_bytes := total_bytes stats;
       total_messages := total_messages stats;
       total_latency_us := total_latency_us stats;
       start_time_sec := start_time_sec stats;
       end_time_sec := now |} in
  let duration := (end_time_sec stats' - start_time_sec stats')%float in
  let throughput := calculate_throughput_gbps (total_bytes stats') duration in
  let avg_latency :=
    if 0 <? total_messages stats'
    then (total_latency_us stats'
          / double_of_size_t (total_messages stats'))%float
    else 0%float in
  (stats',
   {| duration_sec := duration;
      printed_bytes := total_bytes stats';
      printed_messages := total_messages stats';
      throughput_gbps := throughput;
      avg_latency_us := avg_latency;
      messages_per_sec :=
        (double_of_size_t (total_messages stats') / duration)%float |}).

(** The fold of a worker's local totals into the global ones (end of
    [sender_thread], under the lock). *)
Definition stats_merge (global local_stats : stats_t) : stats_t :=
  {| total_bytes := size_t_wrap (total_bytes global + total_bytes local_stats);
     total_messages :=
       size_t_wrap (total_messages global + total_messages local_stats);
     total_latency_us :=
       (total_latency_us global + total_latency_us local_stats)%float;
     start_time_sec := start_time_sec global;
     end_time_sec := end_time_sec global |}.

End Stats.

(* ===================================================================== *)
(** ** The MSG_ZEROCOPY sender (MT25048_Part_A3_Server.c, _Client.c) *)
(* ===================================================================== *)

Module ZeroCopy.

Import Codec.

(** Linux constants the source takes from the system headers. *)
Definition EINTR : Z := 4.
Definition EAGAIN : Z := 11.
Definition EWOULDBLOCK : Z := 11.
Definition ENOPROTOOPT : Z := 92.
Definition ENOBUFS : Z := 105.
Definition SOL_IP : Z := 0.
Definition IP_RECVERR : Z := 11.
Definition SO_EE_ORIGIN_ZEROCOPY : Z := 5.
Definition MSG_ZEROCOPY : Z := 67108864.

(** One control message of the error queue, as the handler reads it:
    the header and the [sock_extended_err] behind [CMSG_DATA]. *)
Record cmsg : Type := mk_cmsg {
  cmsg_level : Z;
  cmsg_type : Z;
  ee_origin : Z;
  ee_info : Z;   (* uint32_t: first notification id *)
  ee_data : Z;   (* uint32_t: last notification id *)
  ee_code : Z
}.

(** What the kernel answers. *)
Inductive setsockopt_result : Type :=
| SetsockoptOk
| SetsockoptError (errno : Z).

Inductive recvmsg_result : Type :=
| RecvmsgError (errno : Z)
| RecvmsgOk (control : list cmsg).

Inductive sendmsg_result : Type :=
| SendmsgError (errno : Z)
| SendmsgOk (sent : Z).

(** Everything the worker prints. *)
Inductive line : Type :=
| Client_connected
| Connecting
| Perror_socket
| Invalid_host_address
| Perror_connect
| Connected_to_server
| Zerocopy_not_supported        (* the two stderr lines of the probe *)
| Perror_setsockopt
| Warning_regular_sendmsg
| Zerocopy_enabled
| Perror_posix_memalign
| Perror_recvmsg
| Perror_sendmsg
| Partial_sendmsg (sent size : Z)
| Draining (send_count : Z)
| All_completions_received (completion_count : Z)
| Statistics (r : Stats.report)
| Disconnected.

(** What the worker does to the outside. *)
Inductive action : Type :=
| Socket
| Connect
| Setsockopt_nodelay
| Setsockopt_zerocopy
| Sendmsg (flags : Z) (frame : list byte)
| Recvmsg_errqueue
| Usleep (microseconds : Z)
| Print (l : line)
| Library (e : event)
| Close.

(** [check_zerocopy_support]: the result and what it did. *)
Definition check_zerocopy_support (r : setsockopt_result)
  : Z * list action :=
  match r with
  | SetsockoptError errno =>
      if errno =? ENOPROTOOPT
      then (0, [Setsockopt_zerocopy; Print Zerocopy_not_supported])
      else (-1, [Setsockopt_zerocopy; Print Perror_setsockopt])
  | SetsockoptOk => (1, [Setsockopt_zerocopy])
  end.

(** [*completed_count += (hi - lo + 1);] with [uint32_t lo, hi] and
    [int *completed_count]: the sum is taken in [unsigned int] and
    converted back to [int]. *)
Definition add_completion (completed_count lo hi : Z) : Z :=
  to_int (uint32_wrap (uint32_wrap completed_count
                       + uint32_wrap (uint32_wrap (hi - lo) + 1))).

(** The body of the loop over the control messages. *)
Definition account (completed_count : Z) (cm : cmsg) : Z :=
  if (cmsg_level cm =? SOL_IP) && (cmsg_type cm =? IP_RECVERR)
  then
    if ee_origin cm =? SO_EE_ORIGIN_ZEROCOPY
    then add_completion completed_count (ee_info cm) (ee_data cm)
    else completed_count
  else completed_count.

(** A completion notification for the ids [lo] to [hi] as the kernel
    queues it on a TCP/IPv4 socket. *)
Definition notification (lo hi : Z) : cmsg :=
  {| cmsg_level := SOL_IP; cmsg_type := IP_RECVERR;
     ee_origin := SO_EE_ORIGIN_ZEROCOPY;
     ee_info := lo; ee_data := hi; ee_code := 0 |}.


(** [handle_zerocopy_completions]: [r] is the answer to its one
    [recvmsg(sock_fd, &msg, MSG_ERRQUEUE | MSG_DONTWAIT)]; the result,
    [*completed_count] afterwards and what it did. *)
Definition handle_zerocopy_completions (r : recvmsg_result)
    (completed_count : Z) : Z * Z * list action :=
  match r with
  | RecvmsgError errno =>
      if (errno =? EAGAIN) || (errno =? EWOULDBLOCK)
      then (0, completed_count, [Recvmsg_errqueue])
      else (-1, completed_count, [Recvmsg_errqueue; Print Perror_recvmsg])
  | RecvmsgOk control =>
      (1, fold_left account control completed_count, [Recvmsg_errqueue])
  end.

(** The locals of the worker that the loops change.  [polls] counts the
    reads of the error queue, to address the environment. *)
Record sender_state : Type := mk_state {
  send_count : Z;
  completion_count : Z;
  stats : Stats.stats_t;
  polls : nat
}.

(** One turn of the send loop as the environment answers it: the two
    readings of [get_timestamp_us()] and the result of [sendmsg]. *)
Record attempt : Type := mk_attempt {
  send_start : float;
  answer : sendmsg_result;
  send_end : float
}.

Definition poll (errqueue : nat -> recvmsg_result) (st : sender_state)
  : Z * sender_state * list action :=
  let '(ret, count, acts) :=
    handle_zerocopy_completions (errqueue (polls st)) (completion_count st) in
  (ret,
   {| send_count := send_count st; completion_count := count;
      stats := stats st; polls := S (polls st) |},
   acts).

(** The state after [k] reads of the error queue. *)
Fixpoint after_polls (errqueue : nat -> recvmsg_result) (k : nat)
    (st : sender_state) : sender_state :=
  match k with
  | O => st
  | S k' => after_polls errqueue k' (snd (fst (poll errqueue st)))
  end.

Definition retryable (errno : Z) : bool :=
  (errno =? EINTR) || (errno =? EAGAIN) || (errno =? ENOBUFS).

(** [int flags = zerocopy_enabled ? MSG_ZEROCOPY : 0;] *)
Definition send_flags (zerocopy_enabled : Z) : Z :=
  if zerocopy_enabled =? 0 then 0 else MSG_ZEROCOPY.

(** The send loop.  [attempts] holds the turns for which the condition
    [get_timestamp_sec() < end_time && !shutdown_flag] held; the loop is
    left when they are used up or at a [break].  The [iovec] is set
    before the loop and never written again: every turn hands the same
    [frame] (the first [serialized_size] bytes of the aligned buffer) to
    [sendmsg].  [send_count] is an [int] in the source; [send_count++] is
    the successor taken here as long as the count stays below [INT_MAX],
    that is in every run of fewer than 2^31 full sends, and the
    properties that speak of the count are stated for such runs. *)
Fixpoint send_loop (zerocopy_enabled : Z) (frame : list byte)
    (serialized_size : Z) (errqueue : nat -> recvmsg_result)
    (attempts : list attempt) (st : sender_state)
  : sender_state * list action :=
  match attempts with
  | [] => (st, [])
  | a :: rest =>
      let flags := send_flags zerocopy_enabled in
      match answer a with
      | SendmsgError errno =>
          if retryable errno then
            let '(_, st1, acts) := poll errqueue st in
            let '(st2, trace) :=
              send_loop zerocopy_enabled frame serialized_size errqueue
                        rest st1 in
            (st2, Sendmsg flags frame :: acts ++ trace)
          else (st, [Sendmsg flags frame; Print Perror_sendmsg])
      | SendmsgOk sent =>
          if sent =? serialized_size then
            let st1 :=
              {| send_count := send_count st + 1;
                 completion_count := completion_count st;
                 stats := Stats.stats_update (stats st) serialized_size
                            (send_end a - send_start a)%float;
                 polls := polls st |} in
            let '(st2, acts) :=
              if Z.rem (send_count st1) 100 =? 0
              then let '(_, st2, acts) := poll errqueue st1 in (st2, acts)
              else (st1, []) in
            let '(st3, trace) :=
              send_loop zerocopy_enabled frame serialized_size errqueue
                        rest st2 in
            (st3, Sendmsg flags frame :: acts ++ trace)
          else
            (st, [Sendmsg flags frame;
                  Print (Partial_sendmsg sent serialized_size)])
      end
  end.

(** [while (completion_count < send_count) { if (handle(...) == 0)
    usleep(1000); }].  The source puts no bound on the turns; [fuel]
    bounds them here and [None] says the loop was still turning when the
    fuel ran out. *)
Fixpoint drain_loop (fuel : nat) (errqueue : nat -> recvmsg_result)
    (st : sender_state) : option (sender_state * list action) :=
  if completion_count st <? send_count st then
    match fuel with
    | O => None
    | S fuel' =>
        let '(ret, st1, acts) := poll errqueue st in
        let nap := if ret =? 0 then [Usleep 1000] else [] in
        match drain_loop fuel' errqueue st1 with
        | Some (st2, trace) => Some (st2, acts ++ nap ++ trace)
        | None => None
        end
    end
  else Some (st, []).

(** [if (zerocopy_enabled) { printf; while ...; printf }]. *)
Definition drain (fuel : nat) (zerocopy_enabled : Z)
    (errqueue : nat -> recvmsg_result) (st : sender_state)
  : option (sender_state * list action) :=
  if zerocopy_enabled =? 0 then Some (st, [])
  else
    match drain_loop fuel errqueue st with
    | Some (st', trace) =>
        Some (st',
              Print (Draining (send_count st)) :: trace
                ++ [Print (All_completions_received (completion_count st'))])
    | None => None
    end.

(** What the environment supplies to one worker. *)
Record environment : Type := mk_env {
  env_socket : bool;               (* socket() gave a descriptor *)
  env_inet_pton : bool;            (* inet_pton() > 0 *)
  env_connect : bool;              (* connect() >= 0 *)
  env_setsockopt : setsockopt_result;
  env_memalign : Z -> Z -> option Z;
  env_junk : byte;                 (* content of the fresh aligned buffer *)
  env_alloc : allocator;
  env_stats_start : float;         (* get_timestamp_sec() in stats_init *)
  env_attempts : list attempt;
  env_errqueue : nat -> recvmsg_result;
  env_stats_end : float            (* get_timestamp_sec() in stats_print *)
}.

(** The prologue shared by the workers: aligned buffer, message, frame.
    [None] is an early [return NULL]. *)
Definition prepare_frame (env : environment) (msg_size : Z)
  : outcome (option (list byte * Z) * list action) :=
  match AlignedBuffer.allocate (env_memalign env) msg_size with
  | None => Defined (None, [Print Perror_posix_memalign; Close])
  | Some r =>
      let aligned_buffer := fresh_block (env_junk env) (AlignedBuffer.extent r) in
      let '(m, log) := msg_alloc (env_alloc env) (msg_size / NUM_FIELDS) in
      match m with
      | None => Defined (None, map Library log ++ [Close])
      | Some msg =>
          res <- msg_serialize msg aligned_buffer (AlignedBuffer.extent r) ;;
          let '(serialized_size, buffer, log') := res in
          if serialized_size <? 0
          then Defined (None, map Library (log ++ log') ++ [Close])
          else Defined (Some (firstn (Z.to_nat serialized_size) buffer,
                              serialized_size),
                        map Library log)
      end
  end.

(** [client_handler] of the sending server (the worker of an accepted
    connection).  [Defined None] says the drain loop outlived [fuel]. *)
Definition client_handler (fuel : nat) (env : environment) (msg_size : Z)
  : outcome (option (list action)) :=
  let '(zerocopy_enabled, probe0) := check_zerocopy_support (env_setsockopt env) in
  let probe := Print Client_connected :: probe0 in
  if zerocopy_enabled <? 0 then Defined (Some (probe ++ [Close]))
  else
    let banner :=
      if zerocopy_enabled =? 0 then [Print Warning_regular_sendmsg]
      else [Print Zerocopy_enabled] in
    prepared <- prepare_frame env msg_size ;;
    match prepared with
    | (None, acts) => Defined (Some (probe ++ banner ++ acts))
    | (Some (frame, serialized_size), acts) =>
        let st0 :=
          {| send_count := 0; completion_count := 0;
             stats := Stats.stats_init (env_stats_start env);
             polls := 0%nat |} in
        let '(st1, sent) :=
          send_loop zerocopy_enabled frame serialized_size
                    (env_errqueue env) (env_attempts env) st0 in
        match drain fuel zerocopy_enabled (env_errqueue env) st1 with
        | None => Defined None
        | Some (st2, drained) =>
            let '(_, r) := Stats.stats_print (stats st2) (env_stats_end env) in
            Defined (Some (probe ++ banner ++ acts ++ sent ++ drained
                             ++ [Print (Statistics r); Close;
                                 Print Disconnected]))
        end
    end.

(** [sender_thread] of the sending client.  [global] is
    [*args->global_stats] before the worker folds its totals in; the
    result carries it afterwards.  [Defined None] says the drain loop
    outlived [fuel]. *)
Definition sender_thread (fuel : nat) (env : environment) (msg_size : Z)
    (global : Stats.stats_t)
  : outcome (option (list action * Stats.stats_t)) :=
  if negb (env_socket env)
  then Defined (Some ([Print Connecting; Socket; Print Perror_socket], global))
  else
    let '(zerocopy_enabled, probe0) := check_zerocopy_support (env_setsockopt env) in
    let probe := Print Connecting :: Socket :: probe0 in
    if zerocopy_enabled <? 0 then Defined (Some (probe ++ [Close], global))
    else
      let banner :=
        if zerocopy_enabled =? 0 then [Print Warning_regular_sendmsg]
        else [Print Zerocopy_enabled] in
      if negb (env_inet_pton env)
      then Defined (Some (probe ++ banner
                            ++ [Print Invalid_host_address; Close], global))
      else if negb (env_connect env)
      then Defined (Some (probe ++ banner
                            ++ [Connect; Print Perror_connect; Close], global))
      else
        let connected :=
          [Connect; Setsockopt_nodelay; Print Connected_to_server] in
        prepared <- prepare_frame env msg_size ;;
        match prepared with
        | (None, acts) =>
            Defined (Some (probe ++ banner ++ connected ++ acts, global))
        | (Some (frame, serialized_size), acts) =>
            let st0 :=
              {| send_count := 0; completion_count := 0;
                 stats := Stats.stats_init (env_stats_start env);
                 polls := 0%nat |} in
            let '(st1, sent) :=
              send_loop zerocopy_enabled frame serialized_size
                        (env_errqueue env) (env_attempts env) st0 in
            match drain fuel zerocopy_enabled (env_errqueue env) st1 with
            | None => Defined None
            | Some (st2, drained) =>
                let '(_, r) :=
                  Stats.stats_print (stats st2) (env_stats_end env) in
                Defined (Some (probe ++ banner ++ connected ++ acts ++ sent
                                 ++ drained
                                 ++ [Print (Statistics r); Close;
                                     Print Disconnected],
                               Stats.stats_merge global (stats st2)))
            end
        end.

(** Predicates on what a worker did. *)

Definition is_sendmsg (a : action) : bool :=
  match a with
  | Sendmsg _ _ => true
  | _ => false
  end.

(** What the drain loop may do: read the error queue, sleep one
    millisecond, report a failed read. *)
Definition quiet (a : action) : Prop :=
  a = Recvmsg_errqueue \/ a = Usleep 1000 \/ a = Print Perror_recvmsg.

(** A [sendmsg] with these flags and this frame, or anything that is
    neither a sleep nor one of the two lines of the drain block. *)
Definition sends_only (flags : Z) (frame : list byte) (a : action) : Prop :=
  match a with
  | Sendmsg f fr => f = flags /\ fr = frame
  | Usleep _ => False
  | Print (Draining _) => False
  | Print (All_completions_received _) => False
  | _ => True
  end.


End ZeroCopy.

(* ===================================================================== *)
(** ** Sample inputs *)
(* ===================================================================== *)

Module Samples.

Import Codec.

(** An allocator that grants every request. *)
Definition always : allocator := fun _ _ => Some Byte.x00.

(** An allocator that refuses what a 47-bit user address space cannot
    hold. *)
Definition refuses_huge : allocator :=
  fun _ size => if size <? 2 ^ 47 then Some Byte.x00 else None.

(** What [msg_alloc(2)] builds: eight fields holding ['F'] and NUL. *)
Definition m2 : message_t :=
  {| field := repeat (Some [Byte.x46; Byte.x00]) 8; field_size := 2 |}.

(** A message of eight fields of 2^28 - 1 bytes (what [--msgsize=2147483647]
    makes [msg_alloc] build, up to the content), whose frame has 2^31
    bytes, and a buffer of that capacity. *)
Definition huge_field_size : Z := 2 ^ 28 - 1.

Definition huge_field : list byte :=
  repeat Byte.x00 (Z.to_nat huge_field_size).

Definition huge_message : message_t :=
  {| field := repeat (Some huge_field) 8; field_size := huge_field_size |}.

Definition huge_buffer : list byte := repeat Byte.xff (Z.to_nat (2 ^ 31)).

(** A caller's [message_t] before [msg_deserialize] fills it. *)
Definition blank : message_t :=
  {| field := repeat None 8; field_size := 0 |}.

(** Eight bytes: a bare prefix that declares fields of 2^61 bytes. *)
Definition wrapping_prefix : list byte := le_split 8 (2 ^ 61).

(** Ten bytes whose prefix declares fields of 4 bytes (a frame of 40). *)
Definition short_frame : list byte :=
  le_split 8 4 ++ [Byte.x01; Byte.x02].

Import ZeroCopy.

(** An error queue on which nothing ever arrives. *)
Definition silent : nat -> recvmsg_result :=
  fun _ => RecvmsgError EAGAIN.


(** The locals of a worker after [sends] sends and [done] completions. *)
Definition progress (sends done : Z) : sender_state :=
  {| send_count := sends; completion_count := done;
     stats := Stats.stats_init 0%float; polls := 0%nat |}.

(** One turn of the send loop with the given answer of [sendmsg]. *)
Definition turn (r : sendmsg_result) : attempt :=
  {| send_start := 0%float; answer := r; send_end := 1%float |}.

(** A worker's environment: [probe] answers the SO_ZEROCOPY request,
    [turns] are the answers of [sendmsg], [queue] is the error queue. *)
Definition world (probe : setsockopt_result) (turns : list sendmsg_result)
    (queue : nat -> recvmsg_result) : environment :=
  {| env_socket := true; env_inet_pton := true; env_connect := true;
     env_setsockopt := probe;
     env_memalign := AlignedBuffer.bump_memalign 12345;
     env_junk := Byte.x00;
     env_alloc := always;
     env_stats_start := 0%float;
     env_attempts := map turn turns;
     env_errqueue := queue;
     env_stats_end := 2%float |}.

End Samples.

(* ===================================================================== *)
(** ** Releasing a message (MT25048_Part_A_common.c: msg_free) *)
(* ===================================================================== *)

Module Release.

Import Codec.

(** [msg_free]: [None] is the NULL argument; the events are the calls
    [free(msg->field[i])] for every slot and [free(msg)]. *)
Definition msg_free (msg : option message_t) : list event :=
  match msg with
  | None => []
  | Some _ => map Free field_indices ++ [FreeMessage]
  end.

(** A block obtained from the allocator, a block handed back to it. *)
Definition is_grant (e : event) : bool :=
  match e with
  | Malloc _ true => true
  | _ => false
  end.

Definition is_release (e : event) : bool :=
  match e with
  | Free _ => true
  | FreeMessage => true
  | _ => false
  end.

Definition is_refusal (e : event) : bool :=
  match e with
  | Malloc _ false => true
  | _ => false
  end.

Definition granted (log : list event) : nat :=
  List.length (filter is_grant log).

Definition released (log : list event) : nat :=
  List.length (filter is_release log).

Definition refused (log : list event) : nat :=
  List.length (filter is_refusal log).

(** The field slots whose block a log frees, in the order of the calls. *)
Fixpoint freed_slots (log : list event) : list nat :=
  match log with
  | [] => []
  | Free i :: rest => i :: freed_slots rest
  | _ :: rest => freed_slots rest
  end.

(** The [n] consecutive blocks of [size] bytes at the start of [bytes]. *)
Fixpoint blocks_of (n size : nat) (bytes : list byte) : list (list byte) :=
  match n with
  | O => []
  | S n' => firstn size bytes :: blocks_of n' size (skipn size bytes)
  end.

(** The message whose frame starts a buffer: the declared field size and
    the eight blocks behind the prefix. *)
Definition message_of (buffer : list byte) : message_t :=
  {| field :=
       map Some
           (blocks_of (Z.to_nat NUM_FIELDS)
                      (Z.to_nat (declared_field_size buffer))
                      (skipn (Z.to_nat sizeof_size_t) buffer));
     field_size := declared_field_size buffer |}.

End Release.

(* ===================================================================== *)
(** ** Command-line arguments (parse_int_arg, parse_string_arg and the
       loops of the [main] functions) *)
(* ===================================================================== *)

Module Args.

Definition code (c : ascii) : Z := Z.of_nat (nat_of_ascii c).

(** [isspace] and [isdigit] of the C locale. *)
Definition isspace (c : ascii) : bool :=
  (code c =? 32) || ((9 <=? code c) && (code c <=? 13)).

Definition isdigit (c : ascii) : bool :=
  (48 <=? code c) && (code c <=? 57).

Fixpoint skip_spaces (s : string) : string :=
  match s with
  | String c rest => if isspace c then skip_spaces rest else s
  | EmptyString => s
  end.

(** The value of the leading decimal digits of [s], continuing [acc]. *)
Fixpoint digits (s : string) (acc : Z) : Z :=
  match s with
  | String c rest =>
      if isdigit c then digits rest (10 * acc + (code c - 48)) else acc
  | EmptyString => acc
  end.

(** [atoi] as the C library specifies it: white space, an optional sign,
    decimal digits; 0 when there are no digits; undefined behaviour when
    the value is not an [int]. *)
Definition atoi (s : string) : outcome Z :=
  let s1 := skip_spaces s in
  let '(negative, s2) :=
    match s1 with
    | String c rest =>
        if (code c =? 45) then (true, rest)
        else if (code c =? 43) then (false, rest)
        else (false, s1)
    | EmptyString => (false, s1)
    end in
  let v := digits s2 0 in
  let v := if negative then - v else v in
  if (INT_MIN <=? v) && (v <=? INT_MAX) then Defined v else Undefined.

(** [arg + n] for [n <= strlen(arg)]. *)
Fixpoint advance (n : nat) (s : string) : string :=
  match n, s with
  | S n', String _ rest => advance n' rest
  | _, _ => s
  end.

(** [strncmp(arg, prefix, strlen(prefix)) == 0]: the comparison stops at
    the first difference, the terminating NUL of a shorter [arg]
    included. *)
Definition starts_with (prefix arg : string) : bool := String.prefix prefix arg.

(** [parse_int_arg]. *)
Definition parse_int_arg (arg prefix : string) (default_value : Z)
  : outcome Z :=
  if starts_with prefix arg
  then atoi (advance (String.length prefix) arg)
  else Defined default_value.

(** [parse_string_arg]. *)
Definition parse_string_arg (arg prefix default_value : string) : string :=
  if starts_with prefix arg
  then advance (String.length prefix) arg
  else default_value.

(** The settings of a server: [int port], [size_t msg_size] (here
    [msgsize], after its option),
    [int duration]. *)
Record server_config : Type := mk_server_config {
  port : Z;
  msgsize : Z;
  duration : Z
}.

Definition DEFAULT_MSGSIZE : Z := 1024.
Definition DEFAULT_DURATION : Z := 10.
Definition DEFAULT_THREADS : Z := 1.
Definition DEFAULT_HOST : string := "127.0.0.1".

Definition server_defaults (default_port : Z) : server_config :=
  {| port := default_port; msgsize := DEFAULT_MSGSIZE;
     duration := DEFAULT_DURATION |}.

(** One turn of [for (int i = 1; i < argc; i++)] in a server's [main];
    the message size goes through [(int)msg_size] and back through
    [(size_t)]. *)
Definition server_arg (cfg : server_config) (arg : string)
  : outcome server_config :=
  p <- parse_int_arg arg "--port=" (port cfg) ;;
  m <- parse_int_arg arg "--msgsize=" (to_int (msgsize cfg)) ;;
  d <- parse_int_arg arg "--duration=" (duration cfg) ;;
  Defined {| port := p; msgsize := size_t_wrap m; duration := d |}.

(** The whole loop; [argv] holds [argv[1]] to [argv[argc - 1]]. *)
Fixpoint server_args (cfg : server_config) (argv : list string)
  : outcome server_config :=
  match argv with
  | [] => Defined cfg
  | arg :: rest => cfg' <- server_arg cfg arg ;; server_args cfg' rest
  end.

(** The settings of a client. *)
Record client_config : Type := mk_client_config {
  host : string;
  client_port : Z;
  client_msg_size : Z;
  client_duration : Z;
  num_threads : Z
}.

Definition client_defaults (default_port : Z) : client_config :=
  {| host := DEFAULT_HOST; client_port := default_port;
     client_msg_size := DEFAULT_MSGSIZE;
     client_duration := DEFAULT_DURATION;
     num_threads := DEFAULT_THREADS |}.

Definition client_arg (cfg : client_config) (arg : string)
  : outcome client_config :=
  let h := parse_string_arg arg "--host=" (host cfg) in
  p <- parse_int_arg arg "--port=" (client_port cfg) ;;
  m <- parse_int_arg arg "--msgsize=" (to_int (client_msg_size cfg)) ;;
  d <- parse_int_arg arg "--duration=" (client_duration cfg) ;;
  t <- parse_int_arg arg "--threads=" (num_threads cfg) ;;
  Defined {| host := h; client_port := p; client_msg_size := size_t_wrap m;
             client_duration := d; num_threads := t |}.

Fixpoint client_args (cfg : client_config) (argv : list string)
  : outcome client_config :=
  match argv with
  | [] => Defined cfg
  | arg :: rest => cfg' <- client_arg cfg arg ;; client_args cfg' rest
  end.

(** An argument one of the servers' three prefixes starts. *)
Definition server_option (arg : string) : bool :=
  starts_with "--port=" arg || starts_with "--msgsize=" arg
  || starts_with "--duration=" arg.

(** An argument one of the clients' five prefixes starts. *)
Definition client_option (arg : string) : bool :=
  starts_with "--host=" arg || starts_with "--port=" arg
  || starts_with "--msgsize=" arg || starts_with "--duration=" arg
  || starts_with "--threads=" arg.

(** A message size an [int] converts to: at most [INT_MAX], or within
    2^31 of the top of [size_t]. *)
Definition int_sized (m : Z) : Prop :=
  0 <= m <= INT_MAX \/ 2 ^ 64 - 2 ^ 31 <= m <= SIZE_MAX.

(** What starts a value that [atoi] reads as 0: the end of the string or
    a character that is neither white space, nor a sign, nor a digit. *)
Definition without_number (s : string) : bool :=
  match s with
  | EmptyString => true
  | String c _ =>
      negb (isspace c) && negb (isdigit c)
      && negb (code c =? 45) && negb (code c =? 43)
  end.

(** What ends the digits of a number: the end of the string or a
    character that is not a digit. *)
Definition ends_number (s : string) : bool :=
  match s with
  | EmptyString => true
  | String c _ => negb (isdigit c)
  end.

End Args.

(* ===================================================================== *)
(** ** What the zero-copy workers do, counted *)
(* ===================================================================== *)

Module Tally.

Import ZeroCopy.



(** A turn of the send loop in which [sendmsg] took the whole frame. *)
Definition succeeded (size : Z) (a : attempt) : bool :=
  match answer a with
  | SendmsgOk sent => sent =? size
  | SendmsgError _ => false
  end.

(** A turn in which [sendmsg] failed with EINTR, EAGAIN or ENOBUFS. *)
Definition held_back (a : attempt) : bool :=
  match answer a with
  | SendmsgOk _ => false
  | SendmsgError errno => retryable errno
  end.

Definition is_recvmsg (a : action) : bool :=
  match a with
  | Recvmsg_errqueue => true
  | _ => false
  end.

Definition is_close (a : action) : bool :=
  match a with
  | Close => true
  | _ => false
  end.

Definition is_statistics (a : action) : bool :=
  match a with
  | Print (Statistics _) => true
  | _ => false
  end.

(** What only the epilogue of a worker does: printing its statistics,
    closing the socket, saying goodbye. *)
Definition is_epilogue (a : action) : bool :=
  match a with
  | Close => true
  | Print (Statistics _) => true
  | Print Disconnected => true
  | _ => false
  end.

(** What one turn of the drain loop does on the answer [r] of the error
    queue: the read; then a sleep of one millisecond when the read found
    nothing (the handler returned 0), the report of the error when the
    read failed otherwise, and nothing more when it brought control
    messages. *)
Definition drain_turn (r : recvmsg_result) : list action :=
  match r with
  | RecvmsgError errno =>
      if (errno =? EAGAIN) || (errno =? EWOULDBLOCK)
      then [Recvmsg_errqueue; Usleep 1000]
      else [Recvmsg_errqueue; Print Perror_recvmsg]
  | RecvmsgOk _ => [Recvmsg_errqueue]
  end.



End Tally.

(* ===================================================================== *)
(** ** The one-copy sender (MT25048_Part_A2_Server.c: client_handler) *)
(* ===================================================================== *)

Module OneCopy.

Import Codec Release.

(** Everything the worker prints. *)
Inductive oc_line : Type :=
| Client_connected
| Perror_posix_memalign
| Allocated_aligned_buffer (aligned_size base : Z)
| Failed_to_allocate_message
| Serialization_failed
| Perror_sendmsg
| Partial_sendmsg (sent size : Z)
| Statistics (r : Stats.report)
| Client_disconnected.

(** What the worker does to the outside. *)
Inductive oc_action : Type :=
| Posix_memalign (size : Z) (ok : bool)
| Sendmsg (flags : Z) (frame : list byte)
| Print (l : oc_line)
| Library (e : event)
| Free_aligned_buffer
| Close
| Free_args.

(** The send loop: [sendmsg(client_fd, &msghdr, 0)] on one [iovec] that
    is set before the loop.  [attempts] holds the turns for which
    [get_timestamp_sec() < end_time && !shutdown_flag] held. *)
Fixpoint sendmsg_loop (frame : list byte) (serialized_size : Z)
    (attempts : list ZeroCopy.attempt) (stats : Stats.stats_t)
  : Stats.stats_t * list oc_action :=
  match attempts with
  | [] => (stats, [])
  | a :: rest =>
      match ZeroCopy.answer a with
      | ZeroCopy.SendmsgError errno =>
          if (errno =? ZeroCopy.EINTR) || (errno =? ZeroCopy.EAGAIN) then
            let '(stats', trace) :=
              sendmsg_loop frame serialized_size rest stats in
            (stats', Sendmsg 0 frame :: trace)
          else (stats, [Sendmsg 0 frame; Print Perror_sendmsg])
      | ZeroCopy.SendmsgOk sent =>
          if sent =? serialized_size then
            let '(stats', trace) :=
              sendmsg_loop frame serialized_size rest
                        (Stats.stats_update stats serialized_size
                           (ZeroCopy.send_end a - ZeroCopy.send_start a)%float) in
            (stats', Sendmsg 0 frame :: trace)
          else
            (stats, [Sendmsg 0 frame;
                     Print (Partial_sendmsg sent serialized_size)])
      end
  end.

(** [client_handler] of the one-copy server (MT25048_Part_A2_Server.c). *)
Definition one_copy_sender (env : ZeroCopy.environment) (msg_size : Z)
  : outcome (list oc_action) :=
  let size := AlignedBuffer.aligned_size (AlignedBuffer.buffer_size msg_size) in
  match AlignedBuffer.allocate (ZeroCopy.env_memalign env) msg_size with
  | None =>
      Defined [Print Client_connected; Posix_memalign size false;
               Print Perror_posix_memalign; Close; Free_args]
  | Some r =>
      let aligned_buffer :=
        fresh_block (ZeroCopy.env_junk env) (AlignedBuffer.extent r) in
      let start :=
        [Print Client_connected; Posix_memalign size true;
         Print (Allocated_aligned_buffer (AlignedBuffer.extent r)
                                         (AlignedBuffer.base r))] in
      let '(m, log) :=
        msg_alloc (ZeroCopy.env_alloc env) (msg_size / NUM_FIELDS) in
      match m with
      | None =>
          Defined (start ++ map Library log
                     ++ [Print Failed_to_allocate_message;
                         Free_aligned_buffer; Close; Free_args])
      | Some msg =>
          res <- msg_serialize msg aligned_buffer (AlignedBuffer.extent r) ;;
          let '(serialized_size, buffer, log') := res in
          if serialized_size <? 0 then
            Defined (start ++ map Library (log ++ log')
                       ++ [Print Serialization_failed]
                       ++ map Library (msg_free (Some msg))
                       ++ [Free_aligned_buffer; Close; Free_args])
          else
            let frame := firstn (Z.to_nat serialized_size) buffer in
            let '(stats, sent) :=
              sendmsg_loop frame serialized_size (ZeroCopy.env_attempts env)
                        (Stats.stats_init (ZeroCopy.env_stats_start env)) in
            let '(_, r) :=
              Stats.stats_print stats (ZeroCopy.env_stats_end env) in
            Defined (start ++ map Library (log ++ log') ++ sent
                       ++ [Print (Statistics r)]
                       ++ map Library (msg_free (Some msg))
                       ++ [Free_aligned_buffer; Close; Free_args;
                           Print Client_disconnected])
      end
  end.

(** The [sendmsg] calls of a trace: flags and frame, in order. *)
Fixpoint sendmsg_calls (trace : list oc_action) : list (Z * list byte) :=
  match trace with
  | [] => []
  | Sendmsg flags frame :: rest => (flags, frame) :: sendmsg_calls rest
  | _ :: rest => sendmsg_calls rest
  end.

(** Blocks the worker obtained, blocks it gave back. *)
Definition acquires (a : oc_action) : bool :=
  match a with
  | Posix_memalign _ true => true
  | Library e => is_grant e
  | _ => false
  end.

Definition gives_back (a : oc_action) : bool :=
  match a with
  | Free_aligned_buffer => true
  | Library e => is_release e
  | _ => false
  end.

Definition closes_socket (a : oc_action) : bool :=
  match a with
  | Close => true
  | _ => false
  end.

Definition frees_args (a : oc_action) : bool :=
  match a with
  | Free_args => true
  | _ => false
  end.

(** The [sendmsg] calls of a zero-copy worker's trace. *)
Fixpoint zero_copy_sendmsg_calls (trace : list ZeroCopy.action)
  : list (Z * list byte) :=
  match trace with
  | [] => []
  | ZeroCopy.Sendmsg flags frame :: rest =>
      (flags, frame) :: zero_copy_sendmsg_calls rest
  | _ :: rest => zero_copy_sendmsg_calls rest
  end.

End OneCopy.

(* ===================================================================== *)
(** ** The two-copy sender (MT25048_Part_A1_Client.c: sender_thread) *)
(* ===================================================================== *)

Module TwoCopy.

Import Codec Release.

Definition SEND_BUFFER_SIZE : Z := 256 * 1024.

(** Everything the worker prints. *)
Inductive tc_line : Type :=
| Connecting
| Perror_socket
| Invalid_host_address
| Perror_connect
| Connected_to_server
| Failed_to_allocate_message
| Perror_malloc_send_buffer
| Serialization_failed
| Perror_send
| Partial_send (sent size : Z)
| Statistics (r : Stats.report)
| Disconnected.

(** What the worker does to the outside. *)
Inductive tc_action : Type :=
| Socket
| Setsockopt_sndbuf (size : Z)
| Connect
| Setsockopt_nodelay
| Malloc_buffer (size : Z) (ok : bool)
| Send (frame : list byte)     (* send(sock_fd, send_buffer, serialized_size, 0) *)
| Print (l : tc_line)
| Library (e : event)
| Free_buffer
| Close.

(** The send loop: [send(sock_fd, send_buffer, serialized_size, 0)];
    [attempts] holds the turns for which
    [get_timestamp_sec() < end_time && !shutdown_flag] held. *)
Fixpoint send_loop (frame : list byte) (serialized_size : Z)
    (attempts : list ZeroCopy.attempt) (stats : Stats.stats_t)
  : Stats.stats_t * list tc_action :=
  match attempts with
  | [] => (stats, [])
  | a :: rest =>
      match ZeroCopy.answer a with
      | ZeroCopy.SendmsgError errno =>
          if (errno =? ZeroCopy.EINTR) || (errno =? ZeroCopy.EAGAIN) then
            let '(stats', trace) :=
              send_loop frame serialized_size rest stats in
            (stats', Send frame :: trace)
          else (stats, [Send frame; Print Perror_send])
      | ZeroCopy.SendmsgOk sent =>
          if sent =? serialized_size then
            let '(stats', trace) :=
              send_loop frame serialized_size rest
                        (Stats.stats_update stats serialized_size
                           (ZeroCopy.send_end a - ZeroCopy.send_start a)%float) in
            (stats', Send frame :: trace)
          else
            (stats, [Send frame; Print (Partial_send sent serialized_size)])
      end
  end.

(** [sender_thread] of the two-copy client.  The message is allocated
    first (requests 0 to 8 of the allocator), the send buffer of
    [sizeof(size_t) + msg_size] bytes is request 9.  [global] is
    [*args->global_stats] before the worker folds its totals in; the
    result carries it afterwards. *)
Definition two_copy_sender (env : ZeroCopy.environment) (msg_size : Z)
    (global : Stats.stats_t)
  : outcome (list tc_action * Stats.stats_t) :=
  if negb (ZeroCopy.env_socket env)
  then Defined ([Print Connecting; Socket; Print Perror_socket], global)
  else
    let opened :=
      [Print Connecting; Socket; Setsockopt_sndbuf SEND_BUFFER_SIZE] in
    if negb (ZeroCopy.env_inet_pton env)
    then Defined (opened ++ [Print Invalid_host_address; Close], global)
    else if negb (ZeroCopy.env_connect env)
    then Defined (opened ++ [Connect; Print Perror_connect; Close], global)
    else
      let connected :=
        opened ++ [Connect; Setsockopt_nodelay; Print Connected_to_server] in
      let '(m, log) :=
        msg_alloc (ZeroCopy.env_alloc env) (msg_size / NUM_FIELDS) in
      match m with
      | None =>
          Defined (connected ++ map Library log
                     ++ [Print Failed_to_allocate_message; Close], global)
      | Some msg =>
          let buffer_size := AlignedBuffer.buffer_size msg_size in
          match ZeroCopy.env_alloc env 9%nat buffer_size with
          | None =>
              Defined (connected ++ map Library log
                         ++ [Malloc_buffer buffer_size false;
                             Print Perror_malloc_send_buffer]
                         ++ map Library (msg_free (Some msg))
                         ++ [Close], global)
          | Some junk =>
              let send_buffer := fresh_block junk buffer_size in
              res <- msg_serialize msg send_buffer buffer_size ;;
              let '(serialized_size, buffer, log') := res in
              if serialized_size <? 0 then
                Defined (connected ++ map Library log
                           ++ [Malloc_buffer buffer_size true]
                           ++ map Library log'
                           ++ [Print Serialization_failed; Free_buffer]
                           ++ map Library (msg_free (Some msg))
                           ++ [Close], global)
              else
                let frame := firstn (Z.to_nat serialized_size) buffer in
                let '(stats, sent) :=
                  send_loop frame serialized_size (ZeroCopy.env_attempts env)
                            (Stats.stats_init (ZeroCopy.env_stats_start env)) in
                let '(_, r) :=
                  Stats.stats_print stats (ZeroCopy.env_stats_end env) in
                Defined (connected ++ map Library log
                           ++ [Malloc_buffer buffer_size true]
                           ++ sent
                           ++ [Print (Statistics r); Free_buffer]
                           ++ map Library (msg_free (Some msg))
                           ++ [Close; Print Disconnected],
                         Stats.stats_merge global stats)
          end
      end.


End TwoCopy.


(* ===================================================================== *)
(** ** The receivers (MT25048_Part_A1_Server.c, MT25048_Part_A3_Server.c:
       client_handler) *)
(* ===================================================================== *)

Module Receiver.

(** What [recv] answers: -1 with an [errno], or the number of bytes it
    put into the buffer (0 when the peer has closed). *)
Inductive recv_result : Type :=
| RecvError (errno : Z)
| RecvOk (received : Z).

(** One turn of the receive loop: the two readings of
    [get_timestamp_us()] and the answer of [recv]. *)
Record reception : Type := mk_reception {
  recv_start : float;
  recv_answer : recv_result;
  recv_end : float
}.

Inductive rx_line : Type :=
| Client_connected
| Perror_malloc_recv_buffer
| Perror_posix_memalign
| Perror_recv
| Client_closed_connection
| Statistics (r : Stats.report)
| Client_disconnected.

Inductive rx_action : Type :=
| Malloc_buffer (size : Z) (ok : bool)
| Posix_memalign (size : Z) (ok : bool)
| Recv (capacity : Z)
| Print (l : rx_line)
| Free_buffer
| Close
| Free_args.

(** The receive loop; [turns] holds the turns for which
    [get_timestamp_sec() < end_time && !shutdown_flag] held. *)
Fixpoint recv_loop (capacity : Z) (turns : list reception)
    (stats : Stats.stats_t) : Stats.stats_t * list rx_action :=
  match turns with
  | [] => (stats, [])
  | t :: rest =>
      match recv_answer t with
      | RecvError errno =>
          if (errno =? ZeroCopy.EINTR) || (errno =? ZeroCopy.EAGAIN) then
            let '(stats', trace) := recv_loop capacity rest stats in
            (stats', Recv capacity :: trace)
          else (stats, [Recv capacity; Print Perror_recv])
      | RecvOk received =>
          if received =? 0 then
            (stats, [Recv capacity; Print Client_closed_connection])
          else
            let '(stats', trace) :=
              recv_loop capacity rest
                        (Stats.stats_update stats received
                           (recv_end t - recv_start t)%float) in
            (stats', Recv capacity :: trace)
      end
  end.

(** What the environment supplies to one receiving worker. *)
Record rx_environment : Type := mk_rx_env {
  rx_malloc : Z -> bool;              (* malloc(size) != NULL *)
  rx_memalign : Z -> Z -> option Z;
  rx_stats_start : float;
  rx_turns : list reception;
  rx_stats_end : float
}.

(** [client_handler] of the two-copy server: a [malloc]ed buffer of
    [sizeof(size_t) + msg_size] bytes. *)
Definition two_copy_receiver (env : rx_environment) (msg_size : Z) : list rx_action :=
  let buffer_size := AlignedBuffer.buffer_size msg_size in
  if rx_malloc env buffer_size then
    let '(stats, received) :=
      recv_loop buffer_size (rx_turns env)
                (Stats.stats_init (rx_stats_start env)) in
    let '(_, r) := Stats.stats_print stats (rx_stats_end env) in
    [Print Client_connected; Malloc_buffer buffer_size true]
      ++ received
      ++ [Print (Statistics r); Free_buffer; Close; Free_args;
          Print Client_disconnected]
  else
    [Print Client_connected; Malloc_buffer buffer_size false;
     Print Perror_malloc_recv_buffer; Close; Free_args].

(** [client_handler] of the zero-copy server: a page-aligned buffer of
    [aligned_size] bytes. *)
Definition zero_copy_receiver (env : rx_environment) (msg_size : Z) : list rx_action :=
  let size := AlignedBuffer.aligned_size (AlignedBuffer.buffer_size msg_size) in
  match AlignedBuffer.allocate (rx_memalign env) msg_size with
  | None =>
      [Print Client_connected; Posix_memalign size false;
       Print Perror_posix_memalign; Close; Free_args]
  | Some r =>
      let '(stats, received) :=
        recv_loop (AlignedBuffer.extent r) (rx_turns env)
                  (Stats.stats_init (rx_stats_start env)) in
      let '(_, rep) := Stats.stats_print stats (rx_stats_end env) in
      [Print Client_connected; Posix_memalign size true]
        ++ received
        ++ [Print (Statistics rep); Free_buffer; Close; Free_args;
            Print Client_disconnected]
  end.

(** A turn that brought data, a turn that was interrupted, a turn that
    ends the loop. *)
Definition delivers (t : reception) : bool :=
  match recv_answer t with
  | RecvOk received => negb (received =? 0)
  | RecvError _ => false
  end.

Definition interrupted (t : reception) : bool :=
  match recv_answer t with
  | RecvOk _ => false
  | RecvError errno => (errno =? ZeroCopy.EINTR) || (errno =? ZeroCopy.EAGAIN)
  end.

Definition ends (t : reception) : bool :=
  negb (delivers t) && negb (interrupted t).

(** The byte counts of the turns that brought data. *)
Definition delivered (turns : list reception) : list Z :=
  flat_map (fun t => match recv_answer t with
                     | RecvOk received =>
                         if received =? 0 then [] else [received]
                     | RecvError _ => []
                     end) turns.

Definition is_recv (a : rx_action) : bool :=
  match a with
  | Recv _ => true
  | _ => false
  end.

Definition obtains_buffer (a : rx_action) : bool :=
  match a with
  | Malloc_buffer _ true => true
  | Posix_memalign _ true => true
  | _ => false
  end.

Definition frees_buffer (a : rx_action) : bool :=
  match a with
  | Free_buffer => true
  | _ => false
  end.

Definition closes_connection (a : rx_action) : bool :=
  match a with
  | Close => true
  | _ => false
  end.

Definition releases_args (a : rx_action) : bool :=
  match a with
  | Free_args => true
  | _ => false
  end.

End Receiver.

(* ===================================================================== *)
(** ** The accepting [main] of a server (MT25048_Part_A1_Server.c) *)
(* ===================================================================== *)

Module Listener.

Definition DEFAULT_PORT : Z := 9000.
Definition BACKLOG : Z := 100.
Definition RECV_BUFFER_SIZE : Z := 256 * 1024.

(** What one turn of the accept loop meets: [accept] fails, or it gives
    a descriptor, and then [malloc] of the thread arguments and
    [pthread_create] succeed or not. *)
Inductive accept_result : Type :=
| AcceptError (errno : Z)
| AcceptOk (client_fd : Z) (args_ok thread_ok : bool).

Record srv_environment : Type := mk_srv_env {
  srv_socket : bool;     (* socket() >= 0 *)
  srv_bind : bool;       (* bind() >= 0 *)
  srv_listen : bool;     (* listen() >= 0 *)
  srv_accepts : list accept_result
}.

Inductive srv_line : Type :=
| Banner (port msg_size duration : Z)
| Perror_socket
| Perror_bind
| Perror_listen
| Listening (port : Z)
| Perror_accept
| Accepted_connection
| Perror_malloc_args
| Perror_pthread_create
| Shutting_down.

(** The thread arguments a worker is started with. *)
Record client_thread_args_t : Type := mk_args {
  client_fd : Z;
  msg_size : Z;
  duration_sec : Z;
  thread_id : Z
}.

Inductive srv_action : Type :=
| Print (l : srv_line)
| Setup_signal_handlers
| Socket
| Setsockopt_reuseaddr
| Setsockopt_reuseport
| Setsockopt_rcvbuf (size : Z)
| Bind (sin_port : Z)
| Listen (backlog : Z)
| Accept
| Setsockopt_nodelay (fd : Z)
| Malloc_args (ok : bool)
| Pthread_create (args : client_thread_args_t) (ok : bool)
| Pthread_detach
| Free_args
| Close_client (fd : Z)
| Close_server.

(** [htons(port)]: the [int] is converted to the 16 bits of the port. *)
Definition htons_arg (port : Z) : Z := port mod 2 ^ 16.

(** The accept loop; [accepts] holds the turns for which [!shutdown_flag]
    held, [thread_counter] is the counter before the turn.  The counter
    is an [int]; [thread_counter++] is its successor as long as it stays
    below [INT_MAX], which is what the properties of the loop assume. *)
Fixpoint accept_loop (cfg : Args.server_config)
    (accepts : list accept_result) (thread_counter : Z) : list srv_action :=
  match accepts with
  | [] => []
  | AcceptError errno :: rest =>
      if errno =? ZeroCopy.EINTR
      then Accept :: accept_loop cfg rest thread_counter
      else Accept :: Print Perror_accept :: accept_loop cfg rest thread_counter
  | AcceptOk fd args_ok thread_ok :: rest =>
      let opened :=
        [Accept; Setsockopt_nodelay fd; Print Accepted_connection] in
      if args_ok then
        let args :=
          {| client_fd := fd; msg_size := Args.msgsize cfg;
             duration_sec := Args.duration cfg;
             thread_id := thread_counter |} in
        if thread_ok then
          opened ++ [Malloc_args true; Pthread_create args true;
                     Pthread_detach]
            ++ accept_loop cfg rest (thread_counter + 1)
        else
          opened ++ [Malloc_args true; Pthread_create args false;
                     Print Perror_pthread_create; Free_args; Close_client fd]
            ++ accept_loop cfg rest (thread_counter + 1)
      else
        opened ++ [Malloc_args false; Print Perror_malloc_args;
                   Close_client fd]
          ++ accept_loop cfg rest thread_counter
  end.

(** [main] behind the argument loop: the exit status and what it did. *)
Definition serve (cfg : Args.server_config) (env : srv_environment)
  : Z * list srv_action :=
  let opening :=
    [Print (Banner (Args.port cfg) (Args.msgsize cfg) (Args.duration cfg));
     Setup_signal_handlers; Socket] in
  if negb (srv_socket env) then (1, opening ++ [Print Perror_socket])
  else
    let options :=
      [Setsockopt_reuseaddr; Setsockopt_reuseport;
       Setsockopt_rcvbuf RECV_BUFFER_SIZE;
       Bind (htons_arg (Args.port cfg))] in
    if negb (srv_bind env)
    then (1, opening ++ options ++ [Print Perror_bind; Close_server])
    else if negb (srv_listen env)
    then (1, opening ++ options
               ++ [Listen BACKLOG; Print Perror_listen; Close_server])
    else
      (0, opening ++ options
            ++ [Listen BACKLOG; Print (Listening (Args.port cfg))]
            ++ accept_loop cfg (srv_accepts env) 0
            ++ [Print Shutting_down; Close_server]).

(** [main]: the argument loop, then the server. *)
Definition main (argv : list string) (env : srv_environment)
  : outcome (Z * list srv_action) :=
  cfg <- Args.server_args (Args.server_defaults DEFAULT_PORT) argv ;;
  Defined (serve cfg env).

(** The descriptors [accept] handed out. *)
Fixpoint accepted (accepts : list accept_result) : list Z :=
  match accepts with
  | [] => []
  | AcceptOk fd _ _ :: rest => fd :: accepted rest
  | AcceptError _ :: rest => accepted rest
  end.

(** The thread arguments of the workers that were started. *)
Fixpoint started (trace : list srv_action) : list client_thread_args_t :=
  match trace with
  | [] => []
  | Pthread_create args true :: rest => args :: started rest
  | _ :: rest => started rest
  end.

(** The client descriptors [main] closed itself. *)
Fixpoint closed (trace : list srv_action) : list Z :=
  match trace with
  | [] => []
  | Close_client fd :: rest => fd :: closed rest
  | _ :: rest => closed rest
  end.

Definition is_accept (a : srv_action) : bool :=
  match a with
  | Accept => true
  | _ => false
  end.

Definition is_close_server (a : srv_action) : bool :=
  match a with
  | Close_server => true
  | _ => false
  end.

Definition is_socket (a : srv_action) : bool :=
  match a with
  | Socket => true
  | _ => false
  end.

End Listener.

(* ===================================================================== *)
(** ** The [main] of a client (MT25048_Part_A3_Client.c) behind its
       argument loop: the threads it creates and joins *)
(* ===================================================================== *)

Module Spawner.

(** [sizeof(pthread_t)] and [sizeof(client_thread_args_t)] on the
    target. *)
Definition sizeof_pthread_t : Z := 8.
Definition sizeof_client_thread_args_t : Z := 40.

(** [num_threads * sizeof(...)]: the [int] is converted to [size_t] and
    the product is taken in [size_t]. *)
Definition array_size (num_threads element : Z) : Z :=
  size_t_wrap (size_t_wrap num_threads * element).

Record cli_environment : Type := mk_cli_env {
  cli_malloc : nat -> Z -> bool;       (* the k-th malloc(size) != NULL *)
  cli_create : nat -> bool;            (* the i-th pthread_create is 0 *)
  cli_stats_start : float;
  cli_merged : list Stats.stats_t;     (* the totals the workers folded
                                          into the global statistics, in
                                          the order they took the lock *)
  cli_stats_end : float
}.

Inductive cli_action : Type :=
| Print_banner (cfg : Args.client_config)
| Setup_signal_handlers
| Malloc_threads (size : Z) (ok : bool)
| Malloc_thread_args (size : Z) (ok : bool)
| Perror_malloc
| Pthread_create (thread_id : Z) (ok : bool)
| Perror_pthread_create
| Pthread_join (index : Z)
| Print_statistics (r : Stats.report)
| Free_threads
| Free_thread_args
| Print_finished.

(** [for (int i = 0; i < num_threads; i++)] with its [break]: [todo]
    turns are left, [i] is the index; the result is [num_threads]
    afterwards. *)
Fixpoint spawn_loop (create : nat -> bool) (todo : nat) (i : nat)
  : nat * list cli_action :=
  match todo with
  | O => (i, [])
  | S todo' =>
      if create i then
        let '(n, trace) := spawn_loop create todo' (S i) in
        (n, Pthread_create (Z.of_nat i) true :: trace)
      else (i, [Pthread_create (Z.of_nat i) false; Perror_pthread_create])
  end.

(** [main] behind the argument loop: exit status and what it did. *)
Definition run (cfg : Args.client_config) (env : cli_environment)
  : Z * list cli_action :=
  let n := Args.num_threads cfg in
  let threads_size := array_size n sizeof_pthread_t in
  let args_size := array_size n sizeof_client_thread_args_t in
  let threads_ok := cli_malloc env 0%nat threads_size in
  let args_ok := cli_malloc env 1%nat args_size in
  let opening :=
    [Print_banner cfg; Setup_signal_handlers;
     Malloc_threads threads_size threads_ok;
     Malloc_thread_args args_size args_ok] in
  if negb threads_ok || negb args_ok then (1, opening ++ [Perror_malloc])
  else
    let '(created, spawned) := spawn_loop (cli_create env) (Z.to_nat n) 0 in
    let global :=
      fold_left Stats.stats_merge (cli_merged env)
                (Stats.stats_init (cli_stats_start env)) in
    let '(_, r) := Stats.stats_print global (cli_stats_end env) in
    (0, opening ++ spawned
          ++ map (fun i => Pthread_join (Z.of_nat i)) (seq 0 created)
          ++ [Print_statistics r; Free_threads; Free_thread_args;
              Print_finished]).

(** The threads a trace creates, the threads it joins. *)
Fixpoint created_threads (trace : list cli_action) : list Z :=
  match trace with
  | [] => []
  | Pthread_create i true :: rest => i :: created_threads rest
  | _ :: rest => created_threads rest
  end.

Fixpoint joined_threads (trace : list cli_action) : list Z :=
  match trace with
  | [] => []
  | Pthread_join i :: rest => i :: joined_threads rest
  | _ :: rest => joined_threads rest
  end.

End Spawner.

(* ===================================================================== *)
(** ** More sample inputs *)
(* ===================================================================== *)

Module Scenarios.

Import Codec ZeroCopy.

(** An allocator whose blocks come with 0xAA in every byte. *)
Definition dirty : allocator := fun _ _ => Some Byte.xaa.

(** An allocator that grants two requests of a run and refuses the
    third. *)
Definition third_refused : allocator :=
  fun k _ => if (k <? 2)%nat then Some Byte.x00 else None.

(** The frame of [Samples.m2] with one more byte behind it. *)
Definition m2_buffer : list byte := frame_of Samples.m2 ++ [Byte.xff].


(** An error queue whose first read finds nothing and whose second
    confirms the id 0. *)
Definition late_confirmation : nat -> recvmsg_result :=
  fun k => match k with
           | S O => RecvmsgOk [notification 0 0]
           | _ => RecvmsgError EAGAIN
           end.

(** The locals of a worker at the start of its send loop. *)
Definition fresh : sender_state :=
  {| send_count := 0; completion_count := 0;
     stats := Stats.stats_init 0%float; polls := 0%nat |}.

(** Three turns of a send loop: a send, a refusal with EAGAIN, a send. *)
Definition three_turns : list attempt :=
  map Samples.turn [SendmsgOk 24; SendmsgError EAGAIN; SendmsgOk 24].

(** A worker's environment whose allocator refuses what a 47-bit address
    space cannot hold. *)
Definition bounded_world : environment :=
  {| env_socket := true; env_inet_pton := true; env_connect := true;
     env_setsockopt := SetsockoptOk;
     env_memalign := AlignedBuffer.bump_memalign 12345;
     env_junk := Byte.x00;
     env_alloc := Samples.refuses_huge;
     env_stats_start := 0%float;
     env_attempts := [];
     env_errqueue := Samples.silent;
     env_stats_end := 2%float |}.

(** Statistics with the given totals. *)
Definition totals (bytes messages : Z) : Stats.stats_t :=
  {| Stats.total_bytes := bytes; Stats.total_messages := messages;
     Stats.total_latency_us := 0%float; Stats.start_time_sec := 0%float;
     Stats.end_time_sec := 0%float |}.

(** Turns of a receive loop: 100 bytes, an interruption, 24 bytes. *)
Definition receptions : list Receiver.reception :=
  map (fun r => {| Receiver.recv_start := 0%float; Receiver.recv_answer := r;
                   Receiver.recv_end := 1%float |})
      [Receiver.RecvOk 100; Receiver.RecvError EINTR; Receiver.RecvOk 24].

(** A listening server that meets one client and starts its worker. *)
Definition one_client : Listener.srv_environment :=
  {| Listener.srv_socket := true; Listener.srv_bind := true;
     Listener.srv_listen := true;
     Listener.srv_accepts := [Listener.AcceptOk 5 true true] |}.

(** What five turns of an accept loop meet: a client, an interruption,
    a client whose thread does not start, a client for whose arguments
    there is no memory, a client. *)
Definition five_turns : list Listener.accept_result :=
  [Listener.AcceptOk 5 true true; Listener.AcceptError EINTR;
   Listener.AcceptOk 6 true false; Listener.AcceptOk 7 false true;
   Listener.AcceptOk 8 true true].

(** A client whose [malloc] refuses what a 47-bit address space cannot
    hold and whose threads all start. *)
Definition willing : Spawner.cli_environment :=
  {| Spawner.cli_malloc := fun _ size => size <? 2 ^ 47;
     Spawner.cli_create := fun _ => true;
     Spawner.cli_stats_start := 0%float;
     Spawner.cli_merged := [];
     Spawner.cli_stats_end := 1%float |}.

End Scenarios.

(* ===================================================================== *)
(** * Properties *)
(* ===================================================================== *)

(** A boolean comparison of integers that the context decides. *)
Ltac leb_true := symmetry; apply Z.leb_le; lia.

(** A [Forall] over an explicit list whose members satisfy the predicate
    by computation. *)
Ltac forall_trivial := repeat (constructor; [exact I |]); constructor.

Module CTypesFacts.

(** Values in range are not touched by the wrap-around. *)
Lemma size_t_wrap_small z : 0 <= z <= SIZE_MAX -> size_t_wrap z = z.
Proof. unfold size_t_wrap, SIZE_MAX. intros. apply Z.mod_small. lia. Qed.

Lemma to_int_small z : 0 <= z <= INT_MAX -> to_int z = z.
Proof.
  unfold to_int, INT_MAX. intros. rewrite Z.mod_small by lia.
  destruct (z <? 2 ^ 31) eqn:E; [reflexivity | apply Z.ltb_ge in E; lia].
Qed.



End CTypesFacts.

Module MemoryFacts.

Lemma zlen_app {A} (l1 l2 : list A) : zlen (l1 ++ l2) = zlen l1 + zlen l2.
Proof. unfold zlen. rewrite length_app. lia. Qed.

Lemma zlen_nonneg {A} (l : list A) : 0 <= zlen l.
Proof. unfold zlen. lia. Qed.

Lemma mem_read_middle pre data post :
  mem_read (pre ++ data ++ post) (zlen pre) (zlen data) = Defined data.
Proof.
  unfold mem_read.
  pose proof (zlen_nonneg pre). pose proof (zlen_nonneg data). pose proof (zlen_nonneg post).
  rewrite !zlen_app.
  replace (0 <=? zlen pre) with true by leb_true.
  replace (0 <=? zlen data) with true by leb_true.
  replace (zlen pre + zlen data <=? zlen pre + (zlen data + zlen post)) with true
    by leb_true.
  cbn [andb]. f_equal. unfold zlen. rewrite !Nat2Z.id.
  rewrite skipn_app, skipn_all, Nat.sub_diag. cbn [skipn app].
  rewrite firstn_app, firstn_all, Nat.sub_diag. cbn [firstn]. apply app_nil_r.
Qed.

Lemma mem_write_middle pre old post data :
  zlen old = zlen data ->
  mem_write (pre ++ old ++ post) (zlen pre) data = Defined (pre ++ data ++ post).
Proof.
  intros Hlen. unfold mem_write.
  pose proof (zlen_nonneg pre). pose proof (zlen_nonneg data). pose proof (zlen_nonneg post).
  rewrite !zlen_app, Hlen.
  replace (0 <=? zlen pre) with true by leb_true.
  replace (zlen pre + zlen data <=? zlen pre + (zlen data + zlen post)) with true
    by leb_true.
  cbn [andb]. f_equal.
  assert (Hn : Z.to_nat (zlen pre + zlen data) = (List.length pre + List.length old)%nat).
  { rewrite <- Hlen. unfold zlen. lia. }
  rewrite Hn. unfold zlen. rewrite Nat2Z.id.
  rewrite firstn_app, firstn_all, Nat.sub_diag. cbn [firstn]. rewrite app_nil_r.
  f_equal. f_equal.
  rewrite skipn_app. rewrite skipn_all2 by lia.
  replace (List.length pre + List.length old - List.length pre)%nat with (List.length old) by lia.
  rewrite skipn_app, skipn_all, Nat.sub_diag. reflexivity.
Qed.

End MemoryFacts.

Module CodecFacts.

Import Codec CTypesFacts MemoryFacts.

Lemma total_size_exact fsz :
  0 <= fsz -> sizeof_size_t + NUM_FIELDS * fsz <= SIZE_MAX ->
  total_size fsz = sizeof_size_t + NUM_FIELDS * fsz.
Proof.
  unfold total_size, sizeof_size_t, NUM_FIELDS. intros.
  rewrite (size_t_wrap_small (8 * fsz)) by lia.
  apply size_t_wrap_small. lia.
Qed.

Lemma prefix_length fsz : zlen (le_split (Z.to_nat sizeof_size_t) fsz) = sizeof_size_t.
Proof. unfold zlen. rewrite length_le_split. reflexivity. Qed.

Lemma prefix_roundtrip fsz :
  is_size_t fsz -> le_combine (le_split (Z.to_nat sizeof_size_t) fsz) = fsz.
Proof.
  unfold is_size_t, SIZE_MAX. intros. rewrite le_combine_split.
  apply Z.mod_small. change (2 ^ (Z.of_nat (Z.to_nat sizeof_size_t) * 8)) with (2 ^ 64). lia.
Qed.

Lemma zlen_concat_uniform (blocks : list (list byte)) n :
  Forall (fun blk => zlen blk = n) blocks ->
  zlen (List.concat blocks) = Z.of_nat (List.length blocks) * n.
Proof.
  induction 1 as [| b bs Hb _ IH]; [reflexivity |].
  cbn [List.concat List.length]. rewrite zlen_app, IH, Hb. lia.
Qed.

(** The field loop copies the blocks behind what is already written. *)
Lemma serialize_fields_spec msg :
  forall idx blocks pre rest,
    Forall2 (fun i blk => nth_error (field msg) i = Some (Some blk)
                          /\ zlen blk = field_size msg) idx blocks ->
    zlen pre + zlen (List.concat blocks) <= SIZE_MAX ->
    zlen (List.concat blocks) <= zlen rest ->
    serialize_fields msg idx (pre ++ rest) (zlen pre)
    = Defined (pre ++ List.concat blocks
                 ++ skipn (List.length (List.concat blocks)) rest).
Proof.
  induction idx as [| i idx IH]; intros blocks pre rest HF Hmax Hfit;
    inversion HF as [| i' blk idx' blocks' [Hnth Hlen] HF']; subst.
  - reflexivity.
  - cbn [serialize_fields List.concat] in *.
    rewrite zlen_app in Hmax, Hfit.
    pose proof (zlen_nonneg pre). pose proof (zlen_nonneg blk).
    pose proof (zlen_nonneg (List.concat blocks')).
    unfold field_block. rewrite Hnth. cbn [bind].
    unfold memcpy. rewrite <- Hlen.
    change (mem_read blk 0 (zlen blk)) with (mem_read ([] ++ blk) (zlen (@nil byte)) (zlen blk)).
    rewrite <- (app_nil_r blk) at 1. rewrite mem_read_middle. cbn [bind].
    rewrite <- (firstn_skipn (List.length blk) rest) at 1.
    rewrite mem_write_middle.
    2:{ unfold zlen. rewrite length_firstn. unfold zlen in Hfit. lia. }
    cbn [bind].
    rewrite size_t_wrap_small by (unfold SIZE_MAX in *; lia).
    rewrite <- zlen_app. rewrite app_assoc.
    rewrite IH with (blocks := blocks').
    + rewrite <- !app_assoc, skipn_skipn, length_app.
      rewrite (Nat.add_comm (List.length (List.concat blocks'))). reflexivity.
    + assumption.
    + rewrite zlen_app. lia.
    + unfold zlen in *. rewrite length_skipn. lia.
Qed.

Lemma serialize_fields_at msg idx blocks pre rest offset :
  Forall2 (fun i blk => nth_error (field msg) i = Some (Some blk)
                        /\ zlen blk = field_size msg) idx blocks ->
  offset = zlen pre ->
  zlen pre + zlen (List.concat blocks) <= SIZE_MAX ->
  zlen (List.concat blocks) <= zlen rest ->
  serialize_fields msg idx (pre ++ rest) offset
  = Defined (pre ++ List.concat blocks
               ++ skipn (List.length (List.concat blocks)) rest).
Proof. intros ? ->. apply serialize_fields_spec; assumption. Qed.

Lemma set_field_length msg i p :
  (i < List.length (field msg))%nat ->
  List.length (field (set_field msg i p)) = List.length (field msg).
Proof.
  intros. cbn [set_field field]. rewrite length_app, length_firstn. cbn [List.length].
  rewrite length_skipn. lia.
Qed.

Lemma set_field_firstn msg i p :
  (i < List.length (field msg))%nat ->
  firstn (S i) (field (set_field msg i p)) = firstn i (field msg) ++ [p].
Proof.
  intros. cbn [set_field field].
  rewrite firstn_app, length_firstn, Nat.min_l by lia.
  rewrite firstn_firstn, Nat.min_r by lia.
  replace (S i - i)%nat with 1%nat by lia. reflexivity.
Qed.

Lemma set_field_skipn msg i p n :
  (i < n)%nat -> (i < List.length (field msg))%nat ->
  skipn n (field (set_field msg i p)) = skipn n (field msg).
Proof.
  intros. cbn [set_field field].
  rewrite skipn_app, length_firstn, Nat.min_l by lia.
  rewrite skipn_all2 by (rewrite length_firstn; lia). cbn [app].
  destruct (n - i)%nat as [| d] eqn:E; [lia |].
  rewrite skipn_cons, skipn_skipn. f_equal. lia.
Qed.

(** The field loop of the reader hands out the blocks that lie behind what
    it has read so far. *)
Lemma deserialize_fields_spec alloc fsz rest :
  0 <= fsz ->
  forall blocks k msg pre log,
    Forall (fun blk => zlen blk = fsz) blocks ->
    (forall i, (k <= i < k + List.length blocks)%nat -> alloc i fsz <> None) ->
    (k + List.length blocks <= List.length (field msg))%nat ->
    zlen pre + zlen (List.concat blocks) <= SIZE_MAX ->
    deserialize_fields alloc (pre ++ List.concat blocks ++ rest) fsz
                       (seq k (List.length blocks)) msg (zlen pre) log
    = Defined (to_int (total_size fsz),
               {| field := firstn k (field msg) ++ map Some blocks
                             ++ skipn (k + List.length blocks) (field msg);
                  field_size := field_size msg |},
               log ++ repeat (Malloc fsz true) (List.length blocks)).
Proof.
  intros Hfsz. induction blocks as [| blk blocks IH];
    intros k msg pre log Hall Halloc Hslots Hmax.
  - cbn [List.length seq deserialize_fields map repeat app].
    rewrite Nat.add_0_r, firstn_skipn, app_nil_r. destruct msg; reflexivity.
  - inversion Hall as [| ? ? Hblk Hall']; subst.
    cbn [List.length seq deserialize_fields List.concat] in *.
    rewrite zlen_app in Hmax.
    pose proof (zlen_nonneg pre). pose proof (zlen_nonneg (List.concat blocks)).
    destruct (alloc k (zlen blk)) as [junk |] eqn:Ea.
    2:{ exfalso. apply (Halloc k); [lia | exact Ea]. }
    rewrite <- (app_assoc blk). rewrite mem_read_middle. cbn [bind].
    rewrite size_t_wrap_small by (unfold SIZE_MAX in *; lia).
    rewrite <- zlen_app, (app_assoc pre blk).
    rewrite IH.
    + rewrite set_field_firstn by lia.
      rewrite set_field_skipn by lia.
      cbn [field_size set_field map repeat].
      rewrite <- !app_assoc. cbn [app].
      replace (S k + List.length blocks)%nat with (k + S (List.length blocks))%nat by lia.
      reflexivity.
    + assumption.
    + intros i Hi. apply Halloc. lia.
    + rewrite set_field_length by lia. lia.
    + rewrite zlen_app. lia.
Qed.

Lemma deserialize_fields_at alloc fsz rest blocks k msg pre offset log :
  0 <= fsz ->
  offset = zlen pre ->
  Forall (fun blk => zlen blk = fsz) blocks ->
  (forall i, (k <= i < k + List.length blocks)%nat -> alloc i fsz <> None) ->
  (k + List.length blocks <= List.length (field msg))%nat ->
  zlen pre + zlen (List.concat blocks) <= SIZE_MAX ->
  deserialize_fields alloc (pre ++ List.concat blocks ++ rest) fsz
                     (seq k (List.length blocks)) msg offset log
  = Defined (to_int (total_size fsz),
             {| field := firstn k (field msg) ++ map Some blocks
                           ++ skipn (k + List.length blocks) (field msg);
                field_size := field_size msg |},
             log ++ repeat (Malloc fsz true) (List.length blocks)).
Proof. intros ? ->. apply deserialize_fields_spec; assumption. Qed.

Lemma well_formed_frame msg :
  well_formed msg ->
  exists blocks,
    field msg = map Some blocks /\
    List.length blocks = Z.to_nat NUM_FIELDS /\
    Forall (fun blk => zlen blk = field_size msg) blocks /\
    frame_of msg = le_split (Z.to_nat sizeof_size_t) (field_size msg)
                     ++ List.concat blocks /\
    zlen (List.concat blocks) = NUM_FIELDS * field_size msg.
Proof.
  intros (Hpos & Hfit & blocks & Hf & Hlen & Hall).
  exists blocks. repeat split; try assumption.
  - unfold frame_of. rewrite Hf, map_map, map_id. reflexivity.
  - rewrite (zlen_concat_uniform _ _ Hall), Hlen. reflexivity.
Qed.

Lemma field_indices_blocks msg blocks :
  field msg = map Some blocks ->
  List.length blocks = Z.to_nat NUM_FIELDS ->
  Forall (fun blk => zlen blk = field_size msg) blocks ->
  Forall2 (fun i blk => nth_error (field msg) i = Some (Some blk)
                        /\ zlen blk = field_size msg) field_indices blocks.
Proof.
  intros Hf Hlen Hall. unfold field_indices. rewrite <- Hlen, Hf.
  clear Hf Hlen.
  assert (G : forall pre,
             Forall2 (fun i blk => nth_error (map Some (pre ++ blocks)) i = Some (Some blk)
                                   /\ zlen blk = field_size msg)
                     (seq (List.length pre) (List.length blocks)) blocks).
  { induction Hall as [| blk blocks Hblk Hall IH]; intros pre; [constructor |].
    cbn [List.length seq]. constructor.
    - split; [| exact Hblk].
      rewrite nth_error_map, nth_error_app2, Nat.sub_diag by lia. reflexivity.
    - specialize (IH (pre ++ [blk])).
      rewrite length_app, Nat.add_1_r, <- app_assoc in IH. exact IH. }
  exact (G []).
Qed.

Lemma msg_serialize_ok msg buffer buffer_size :
  well_formed msg ->
  sizeof_size_t + NUM_FIELDS * field_size msg <= buffer_size ->
  buffer_size <= zlen buffer ->
  msg_serialize msg buffer buffer_size
  = Defined (to_int (sizeof_size_t + NUM_FIELDS * field_size msg),
             frame_of msg
               ++ skipn (Z.to_nat (sizeof_size_t + NUM_FIELDS * field_size msg)) buffer,
             []).
Proof.
  intros Hwf Hcap Hreal.
  destruct (well_formed_frame msg Hwf) as (blocks & Hf & Hlen & Hall & Hframe & Hsum).
  destruct Hwf as (Hpos & Hfit & _).
  assert (Hs : sizeof_size_t = 8) by reflexivity.
  assert (Hn : NUM_FIELDS = 8) by reflexivity.
  assert (Hm : sizeof_message_t = 72) by reflexivity.
  unfold msg_serialize.
  rewrite total_size_exact by lia.
  destruct (buffer_size <? _) eqn:E; [apply Z.ltb_lt in E; lia | clear E].
  set (prefix := le_split (Z.to_nat sizeof_size_t) (field_size msg)).
  assert (Hp : zlen prefix = sizeof_size_t) by apply prefix_length.
  rewrite <- (firstn_skipn (Z.to_nat sizeof_size_t) buffer) at 1.
  change (mem_write (?a ++ ?b) 0 prefix)
    with (mem_write ([] ++ a ++ b) (zlen (@nil byte)) prefix).
  rewrite mem_write_middle.
  2:{ rewrite Hp. unfold zlen in *. rewrite length_firstn. lia. }
  cbn [bind app].
  rewrite serialize_fields_at with (blocks := blocks).
  - cbn [bind]. rewrite Hframe. fold prefix. rewrite <- app_assoc, skipn_skipn.
    replace (List.length (List.concat blocks) + Z.to_nat sizeof_size_t)%nat
      with (Z.to_nat (sizeof_size_t + NUM_FIELDS * field_size msg))
      by (unfold zlen in Hsum; lia).
    reflexivity.
  - apply field_indices_blocks; assumption.
  - symmetry. exact Hp.
  - rewrite Hp, Hsum. unfold SIZE_MAX in *. lia.
  - rewrite Hsum. unfold zlen in *. rewrite length_skipn. lia.
Qed.

Lemma msg_serialize_small msg buffer buffer_size :
  well_formed msg ->
  buffer_size < sizeof_size_t + NUM_FIELDS * field_size msg ->
  msg_serialize msg buffer buffer_size
  = Defined (-1, buffer, [Stderr "Buffer too small for serialization"]).
Proof.
  intros (Hpos & Hfit & _) Hcap. unfold msg_serialize.
  unfold sizeof_message_t in Hfit.
  rewrite total_size_exact by (unfold sizeof_size_t, NUM_FIELDS in *; lia).
  destruct (buffer_size <? _) eqn:E; [reflexivity | apply Z.ltb_ge in E; lia].
Qed.

Lemma frame_of_length msg :
  well_formed msg -> zlen (frame_of msg) = sizeof_size_t + NUM_FIELDS * field_size msg.
Proof.
  intros Hwf. destruct (well_formed_frame msg Hwf) as (blocks & _ & _ & _ & Hframe & Hsum).
  rewrite Hframe, zlen_app, prefix_length, Hsum. reflexivity.
Qed.

Lemma msg_deserialize_ok alloc msg out tail buffer_size :
  well_formed msg ->
  sizeof_size_t + NUM_FIELDS * field_size msg <= buffer_size ->
  List.length (field out) = Z.to_nat NUM_FIELDS ->
  (forall i, (i < Z.to_nat NUM_FIELDS)%nat -> alloc i (field_size msg) <> None) ->
  msg_deserialize alloc out (frame_of msg ++ tail) buffer_size
  = Defined (to_int (sizeof_size_t + NUM_FIELDS * field_size msg), msg,
             repeat (Malloc (field_size msg) true) (Z.to_nat NUM_FIELDS)).
Proof.
  intros Hwf Hcap Hslots Halloc.
  destruct (well_formed_frame msg Hwf) as (blocks & Hf & Hlen & Hall & Hframe & Hsum).
  destruct Hwf as (Hpos & Hfit & _).
  assert (Hs : sizeof_size_t = 8) by reflexivity.
  assert (Hn : NUM_FIELDS = 8) by reflexivity.
  assert (Hm : sizeof_message_t = 72) by reflexivity.
  unfold msg_deserialize.
  destruct (buffer_size <? sizeof_size_t) eqn:E; [apply Z.ltb_lt in E; lia | clear E].
  rewrite Hframe.
  set (prefix := le_split (Z.to_nat sizeof_size_t) (field_size msg)).
  assert (Hp : zlen prefix = sizeof_size_t) by apply prefix_length.
  assert (Hrt : le_combine prefix = field_size msg)
    by (apply prefix_roundtrip; unfold is_size_t; lia).
  rewrite <- app_assoc.
  change (mem_read (prefix ++ ?r) 0 sizeof_size_t)
    with (mem_read ([] ++ prefix ++ r) (zlen (@nil byte)) sizeof_size_t).
  rewrite <- Hp at 1. rewrite mem_read_middle. cbn [bind app].
  rewrite Hrt, total_size_exact by lia.
  destruct (buffer_size <? _) eqn:E; [apply Z.ltb_lt in E; lia | clear E].
  unfold field_indices. rewrite <- Hlen.
  rewrite deserialize_fields_at.
  - cbn [firstn app field set_field_size field_size].
    rewrite skipn_all2 by lia. rewrite app_nil_r, <- Hf.
    rewrite total_size_exact by lia. destruct msg; reflexivity.
  - exact Hpos.
  - symmetry; exact Hp.
  - exact Hall.
  - intros i Hi. apply Halloc. lia.
  - cbn [field set_field_size]. lia.
  - rewrite Hp, Hsum. unfold SIZE_MAX in *. lia.
Qed.

Lemma snprintf_length junk fsz text :
  0 <= fsz -> zlen (snprintf (fresh_block junk fsz) fsz text) = fsz.
Proof.
  intros Hpos. unfold snprintf, fresh_block.
  destruct (fsz =? 0) eqn:E.
  - apply Z.eqb_eq in E. subst. reflexivity.
  - apply Z.eqb_neq in E. unfold zlen.
    rewrite length_app. cbn [List.length].
    rewrite length_skipn, repeat_length, length_firstn. lia.
Qed.

Lemma alloc_fields_spec alloc fsz :
  0 <= fsz ->
  forall idx acc log,
    (forall i, In i idx -> alloc (S i) fsz <> None) ->
    exists blocks,
      alloc_fields alloc fsz idx acc log
      = (Some {| field := acc ++ map Some blocks; field_size := fsz |},
         log ++ repeat (Malloc fsz true) (List.length idx)) /\
      List.length blocks = List.length idx /\
      Forall (fun blk => zlen blk = fsz) blocks.
Proof.
  intros Hpos. induction idx as [| i idx IH]; intros acc log Halloc.
  - exists []. cbn. rewrite !app_nil_r. repeat split. constructor.
  - cbn [alloc_fields].
    destruct (alloc (S i) fsz) as [junk |] eqn:Ea.
    2:{ exfalso. apply (Halloc i); [left; reflexivity | exact Ea]. }
    destruct (IH (acc ++ [Some (snprintf (fresh_block junk fsz) fsz (field_pattern i fsz))])
                 (log ++ [Malloc fsz true])) as (blocks & Heq & Hlen & Hall).
    { intros j Hj. apply Halloc. right. exact Hj. }
    exists (snprintf (fresh_block junk fsz) fsz (field_pattern i fsz) :: blocks).
    split; [| split].
    + rewrite Heq. cbn [map List.length repeat]. rewrite <- !app_assoc. reflexivity.
    + cbn [List.length]. f_equal. exact Hlen.
    + constructor; [apply snprintf_length; exact Hpos | exact Hall].
Qed.

Lemma msg_alloc_ok alloc fsz :
  0 <= fsz ->
  sizeof_message_t + NUM_FIELDS * fsz <= SIZE_MAX ->
  (forall k n, (k <= Z.to_nat NUM_FIELDS)%nat -> alloc k n <> None) ->
  exists msg,
    msg_alloc alloc fsz
    = (Some msg, Malloc sizeof_message_t true
                   :: repeat (Malloc fsz true) (Z.to_nat NUM_FIELDS)) /\
    field_size msg = fsz /\ well_formed msg.
Proof.
  intros Hpos Hfit Halloc. unfold msg_alloc.
  destruct (alloc 0%nat sizeof_message_t) eqn:E0.
  2:{ exfalso. apply (Halloc 0%nat sizeof_message_t); [lia | exact E0]. }
  destruct (alloc_fields_spec alloc fsz Hpos field_indices []
              [Malloc sizeof_message_t true]) as (blocks & Heq & Hlen & Hall).
  { intros i Hi. apply Halloc. unfold field_indices in Hi.
    apply in_seq in Hi. lia. }
  eexists. split; [| split].
  - rewrite Heq. unfold field_indices. rewrite length_seq. reflexivity.
  - reflexivity.
  - unfold well_formed. cbn [field field_size app]. repeat split; try assumption.
    exists blocks. repeat split; try assumption;
      rewrite Hlen; unfold field_indices; apply length_seq.
Qed.


Lemma m2_well_formed : well_formed Samples.m2.
Proof.
  unfold well_formed. split; [vm_compute; discriminate |].
  split; [vm_compute; discriminate |].
  exists (repeat [Byte.x46; Byte.x00] 8).
  split; [reflexivity | split; [reflexivity | repeat constructor]].
Qed.

Example m2_from_msg_alloc : fst (msg_alloc Samples.always 2) = Some Samples.m2.
Proof. reflexivity. Qed.

(** All or nothing: [msg_serialize] lays the length prefix and then the
    eight fields back to back at the start of the buffer, leaves the rest
    of the buffer as it was, and returns the frame size
    [sizeof(size_t) + 8 * field_size] converted to its [int] result, which
    is the frame size itself whenever that is at most [INT_MAX]; when the
    capacity is below the frame size it returns -1 and the buffer is byte
    for byte what it was. *)
Theorem msg_serialize_all_or_nothing msg buffer buffer_size :
  well_formed msg ->
  buffer_size <= zlen buffer ->
  let frame := sizeof_size_t + NUM_FIELDS * field_size msg in
  (frame <= buffer_size ->
     msg_serialize msg buffer buffer_size
     = Defined (to_int frame,
                frame_of msg ++ skipn (Z.to_nat frame) buffer, [])
     /\ zlen (frame_of msg) = frame
     /\ (frame <= INT_MAX -> to_int frame = frame))
  /\ (buffer_size < frame ->
     msg_serialize msg buffer buffer_size
     = Defined (-1, buffer, [Stderr "Buffer too small for serialization"])).
Proof.
  intros Hwf Hreal frame. split.
  - intros Hcap. split; [| split].
    + apply msg_serialize_ok; assumption.
    + apply frame_of_length; exact Hwf.
    + intros Hint. apply to_int_small. destruct Hwf as (Hpos & _).
      subst frame. unfold sizeof_size_t, NUM_FIELDS in *. lia.
  - intros Hcap. apply msg_serialize_small; assumption.
Qed.

Example msg_serialize_all_or_nothing_example :
  msg_serialize Samples.m2 (repeat Byte.xff 30) 30
  = Defined (24, frame_of Samples.m2 ++ repeat Byte.xff 6, [])
  /\ msg_serialize Samples.m2 (repeat Byte.xff 23) 23
     = Defined (-1, repeat Byte.xff 23,
                [Stderr "Buffer too small for serialization"]).
Proof.
  split.
  - refine (proj1 (proj1 (msg_serialize_all_or_nothing Samples.m2
                            (repeat Byte.xff 30) 30 m2_well_formed _) _)).
    + vm_compute. discriminate.
    + vm_compute. discriminate.
  - refine (proj2 (msg_serialize_all_or_nothing Samples.m2
                     (repeat Byte.xff 23) 23 m2_well_formed _) _).
    + vm_compute. discriminate.
    + vm_compute. reflexivity.
Defined.

Lemma huge_message_well_formed : well_formed Samples.huge_message.
Proof.
  unfold well_formed, Samples.huge_message. cbn [field field_size].
  split; [unfold Samples.huge_field_size; lia |].
  split;
    [unfold Samples.huge_field_size, sizeof_message_t, NUM_FIELDS, SIZE_MAX;
     lia |].
  exists (repeat Samples.huge_field 8).
  split; [symmetry; apply map_repeat |].
  split; [apply repeat_length |].
  apply Forall_forall. intros blk Hin. apply repeat_spec in Hin. subst blk.
  unfold zlen, Samples.huge_field. rewrite repeat_length. apply Z2Nat.id.
  unfold Samples.huge_field_size. lia.
Qed.

Lemma huge_buffer_length : zlen Samples.huge_buffer = 2 ^ 31.
Proof.
  unfold zlen, Samples.huge_buffer. rewrite repeat_length.
  apply Z2Nat.id. lia.
Qed.

(** C7 fails where the frame size exceeds [INT_MAX]: for eight fields of
    2^28 - 1 bytes and a buffer of 2^31 bytes the whole frame of 2^31
    bytes is written, and the call returns [INT_MIN], which is not the
    frame size and which the workers ([serialized_size < 0]) take for a
    failure. *)
Theorem msg_serialize_huge :
  msg_serialize Samples.huge_message Samples.huge_buffer (2 ^ 31)
  = Defined (INT_MIN,
             frame_of Samples.huge_message
               ++ skipn (Z.to_nat (2 ^ 31)) Samples.huge_buffer, [])
  /\ zlen (frame_of Samples.huge_message) = 2 ^ 31
  /\ INT_MIN <> 2 ^ 31
  /\ INT_MIN < 0.
Proof.
  pose proof huge_message_well_formed as Hwf.
  assert (Hframe : sizeof_size_t + NUM_FIELDS * field_size Samples.huge_message
                   = 2 ^ 31) by reflexivity.
  split; [| split; [| split]].
  - rewrite (msg_serialize_ok Samples.huge_message Samples.huge_buffer
               (2 ^ 31) Hwf).
    + rewrite Hframe. reflexivity.
    + rewrite Hframe. lia.
    + rewrite huge_buffer_length. lia.
  - rewrite (frame_of_length Samples.huge_message Hwf). exact Hframe.
  - discriminate.
  - reflexivity.
Qed.

(** C5: a message of eight fields of [field_size] bytes each, serialized
    into a buffer that has room for the frame and then deserialized from
    that buffer (the allocator granting the eight field blocks), comes back
    as the same message: same [field_size], same bytes in every field.
    Both calls return the frame size through their [int] result. *)
Theorem msg_roundtrip alloc msg out buffer buffer_size :
  well_formed msg ->
  sizeof_size_t + NUM_FIELDS * field_size msg <= buffer_size <= zlen buffer ->
  List.length (field out) = Z.to_nat NUM_FIELDS ->
  (forall i, (i < Z.to_nat NUM_FIELDS)%nat -> alloc i (field_size msg) <> None) ->
  let frame := sizeof_size_t + NUM_FIELDS * field_size msg in
  exists ret wire,
    msg_serialize msg buffer buffer_size = Defined (ret, wire, [])
    /\ msg_deserialize alloc out wire buffer_size
       = Defined (ret, msg,
                  repeat (Malloc (field_size msg) true) (Z.to_nat NUM_FIELDS))
    /\ ret = to_int frame
    /\ (frame <= INT_MAX -> ret = frame).
Proof.
  intros Hwf [Hcap Hreal] Hslots Halloc frame.
  exists (to_int frame), (frame_of msg ++ skipn (Z.to_nat frame) buffer).
  split; [| split; [| split]].
  - apply msg_serialize_ok; assumption.
  - apply msg_deserialize_ok; assumption.
  - reflexivity.
  - intros Hint. apply to_int_small. destruct Hwf as (Hpos & _).
    subst frame. unfold sizeof_size_t, NUM_FIELDS in *. lia.
Qed.

Lemma msg_roundtrip_witness :
  exists ret wire,
    msg_serialize Samples.m2 (repeat Byte.xff 30) 30 = Defined (ret, wire, [])
    /\ msg_deserialize Samples.always Samples.blank wire 30
       = Defined (ret, Samples.m2, repeat (Malloc 2 true) 8)
    /\ ret = 24.
Proof.
  destruct (msg_roundtrip Samples.always Samples.m2 Samples.blank
              (repeat Byte.xff 30) 30 m2_well_formed)
    as (ret & wire & Hs & Hd & Hret & _).
  - vm_compute. split; discriminate.
  - reflexivity.
  - intros i _. discriminate.
  - exists ret, wire. split; [exact Hs | split; [exact Hd | exact Hret]].
Defined.

(** Truncation as the function sees it: a buffer shorter than the length
    prefix, or shorter than [total_size] of the field size its prefix
    declares, is refused: the result is -1, the one line printed names the
    shortfall, the allocator is never called and the caller's message is
    left exactly as it was. *)
Theorem msg_deserialize_truncated alloc out buffer buffer_size :
  buffer_size <= zlen buffer ->
  buffer_size < sizeof_size_t
  \/ buffer_size < total_size (declared_field_size buffer) ->
  msg_deserialize alloc out buffer buffer_size
  = Defined (-1, out,
             [Stderr (if buffer_size <? sizeof_size_t
                      then "Buffer too small for deserialization"
                      else "Buffer incomplete for deserialization")]).
Proof.
  intros Hreal Hshort. unfold msg_deserialize.
  destruct (buffer_size <? sizeof_size_t) eqn:E; [reflexivity |].
  apply Z.ltb_ge in E.
  destruct Hshort as [Hshort | Hshort]; [lia |].
  unfold mem_read. change (0 <=? 0) with true.
  change (0 <=? sizeof_size_t) with true. cbn [andb].
  replace (0 + sizeof_size_t <=? zlen buffer) with true
    by leb_true.
  cbn [bind]. change (Z.to_nat 0) with 0%nat. cbn [skipn].
  fold (declared_field_size buffer).
  apply Z.ltb_lt in Hshort. rewrite Hshort. reflexivity.
Qed.

Example msg_deserialize_truncated_example :
  msg_deserialize Samples.always Samples.blank Samples.short_frame 10
  = Defined (-1, Samples.blank,
             [Stderr "Buffer incomplete for deserialization"])
  /\ msg_deserialize Samples.always Samples.blank [Byte.x04; Byte.x00] 2
     = Defined (-1, Samples.blank,
                [Stderr "Buffer too small for deserialization"]).
Proof.
  split.
  - refine (msg_deserialize_truncated Samples.always Samples.blank
              Samples.short_frame 10 _ _).
    + vm_compute. discriminate.
    + right. vm_compute. reflexivity.
  - refine (msg_deserialize_truncated Samples.always Samples.blank
              [Byte.x04; Byte.x00] 2 _ _).
    + vm_compute. discriminate.
    + left. vm_compute. reflexivity.
Defined.

(** Where the declared frame size does not wrap around, it is the plain
    sum, so the refusal covers every buffer shorter than
    [8 + 8 * declared_field_size]. *)
Corollary msg_deserialize_truncated_plain alloc out buffer buffer_size :
  sizeof_size_t <= buffer_size <= zlen buffer ->
  sizeof_size_t + NUM_FIELDS * declared_field_size buffer <= SIZE_MAX ->
  buffer_size < sizeof_size_t + NUM_FIELDS * declared_field_size buffer ->
  msg_deserialize alloc out buffer buffer_size
  = Defined (-1, out, [Stderr "Buffer incomplete for deserialization"]).
Proof.
  intros [Hmin Hreal] Hfit Hshort.
  assert (Hpos : 0 <= declared_field_size buffer).
  { unfold declared_field_size.
    pose proof (le_combine_bound (firstn (Z.to_nat sizeof_size_t) buffer)). lia. }
  rewrite msg_deserialize_truncated.
  - destruct (buffer_size <? sizeof_size_t) eqn:E;
      [apply Z.ltb_lt in E; lia | reflexivity].
  - exact Hreal.
  - right. rewrite total_size_exact; assumption.
Qed.

(** C6 fails where the declared frame size wraps around: the eight bytes
    of a bare prefix declaring fields of 2^61 bytes are far shorter than
    the frame they declare, yet [total_size] is 8 and both size checks
    pass.  The call writes [field_size] and [field[0]] of the caller's
    message and asks the allocator for 2^61 bytes; refused, it reports the
    failed allocation (not the truncation) and returns -1; granted, it
    copies from behind the end of the buffer. *)
Theorem msg_deserialize_wrapped_prefix :
  zlen Samples.wrapping_prefix = 8
  /\ declared_field_size Samples.wrapping_prefix = 2 ^ 61
  /\ total_size (2 ^ 61) = 8
  /\ msg_deserialize Samples.refuses_huge Samples.blank
                     Samples.wrapping_prefix 8
     = Defined (-1, {| field := repeat None 8; field_size := 2 ^ 61 |},
                [Malloc (2 ^ 61) false;
                 Stderr "malloc field failed in deserialize"])
  /\ msg_deserialize Samples.always Samples.blank Samples.wrapping_prefix 8
     = Undefined.
Proof. repeat split. Qed.

End CodecFacts.

Module AlignedBufferFacts.

Import AlignedBuffer.

(** Where [buffer_size + PAGE_SIZE - 1] does not leave [size_t], the
    rounding is the plain round-up to the page. *)
Lemma aligned_size_exact b :
  0 <= b -> b + PAGE_SIZE - 1 <= SIZE_MAX ->
  aligned_size b = (b + PAGE_SIZE - 1) / PAGE_SIZE * PAGE_SIZE.
Proof.
  intros Hpos Hfit. unfold aligned_size, size_t_wrap, PAGE_SIZE, SIZE_MAX in *.
  rewrite Zminus_mod_idemp_l.
  replace (b + 4096 - 1) with (b + 4095) by lia.
  rewrite (Z.mod_small (b + 4095)) by lia.
  pose proof (Z.mul_div_le (b + 4095) 4096 ltac:(lia)) as Hle.
  assert (0 <= (b + 4095) / 4096) by (apply Z.div_pos; lia).
  apply Z.mod_small. lia.
Qed.

Lemma round_up_least b n :
  0 <= b -> n mod PAGE_SIZE = 0 -> b <= n ->
  (b + PAGE_SIZE - 1) / PAGE_SIZE * PAGE_SIZE <= n.
Proof.
  unfold PAGE_SIZE. intros Hpos Hn Hle.
  apply Z.mod_divide in Hn; [| lia]. destruct Hn as [k ->].
  apply Z.mul_le_mono_nonneg_r; [lia |].
  apply Z.lt_succ_r. apply Z.div_lt_upper_bound; lia.
Qed.

Lemma round_up_covers b :
  0 <= b -> b <= (b + PAGE_SIZE - 1) / PAGE_SIZE * PAGE_SIZE.
Proof.
  unfold PAGE_SIZE. intros Hpos.
  pose proof (Z.div_mod (b + 4096 - 1) 4096 ltac:(lia)).
  pose proof (Z.mod_pos_bound (b + 4096 - 1) 4096 ltac:(lia)). lia.
Qed.

Lemma bump_memalign_contract brk : posix_contract (bump_memalign brk).
Proof.
  intros alignment size p. unfold bump_memalign.
  destruct (0 <? alignment) eqn:E; [| discriminate].
  intros [= <-]. apply Z.mod_mul. apply Z.ltb_lt in E. lia.
Qed.

Section Allocation.

(** The C library behind the workers, with the contract POSIX gives it. *)
Variable posix_memalign : Z -> Z -> option Z.
Hypothesis contract : posix_contract posix_memalign.

(** Rounding within [size_t]: for a message size [msg_size] with
    [sizeof(size_t) + msg_size + 4095] still a [size_t], a successful
    aligned allocation of the workers
    yields a region whose base address is a multiple of the page size 4096
    (the contract of [posix_memalign], which is asked for that alignment)
    and whose length [((min_size + 4095) / 4096) * 4096] is the smallest
    multiple of 4096 that is at least [min_size = sizeof(size_t) +
    msg_size]. *)
Theorem allocate_page_aligned msg_size r :
  0 <= msg_size ->
  sizeof_size_t + msg_size + PAGE_SIZE - 1 <= SIZE_MAX ->
  allocate posix_memalign msg_size = Some r ->
  let min_size := sizeof_size_t + msg_size in
  base r mod PAGE_SIZE = 0
  /\ extent r = (min_size + PAGE_SIZE - 1) / PAGE_SIZE * PAGE_SIZE
  /\ extent r mod PAGE_SIZE = 0
  /\ min_size <= extent r
  /\ (forall n, n mod PAGE_SIZE = 0 -> min_size <= n -> extent r <= n).
Proof.
  intros Hpos Hfit Halloc min_size. unfold allocate in Halloc.
  assert (Hb : buffer_size msg_size = min_size).
  { unfold buffer_size, size_t_wrap. apply Z.mod_small.
    unfold sizeof_size_t, PAGE_SIZE, SIZE_MAX in *. subst min_size. lia. }
  rewrite Hb in Halloc.
  assert (Hmin : 0 <= min_size) by (subst min_size; unfold sizeof_size_t; lia).
  rewrite aligned_size_exact in Halloc by (subst min_size; lia).
  destruct (posix_memalign PAGE_SIZE _) as [p |] eqn:Ep; [| discriminate].
  injection Halloc as <-. cbn [base extent].
  split; [exact (contract _ _ _ Ep) |].
  split; [reflexivity |].
  split; [apply Z.mod_mul; unfold PAGE_SIZE; lia |].
  split; [apply round_up_covers; exact Hmin |].
  intros n Hn Hle. apply round_up_least; assumption.
Qed.

End Allocation.

(** C8 fails at the top of [size_t]: for [msg_size = 2^64 - 9] (what
    [--msgsize=-9] becomes) the minimum size is [2^64 - 1], the sum
    [buffer_size + PAGE_SIZE - 1] wraps, the rounded size is 0 and the
    allocation succeeds with a region of length 0, which is below the
    minimum size. *)
Theorem aligned_allocation_wraps :
  buffer_size (2 ^ 64 - 9) = 2 ^ 64 - 1
  /\ aligned_size (2 ^ 64 - 1) = 0
  /\ allocate (bump_memalign 12345) (2 ^ 64 - 9)
     = Some {| base := 16384; extent := 0 |}
  /\ 0 < 2 ^ 64 - 1.
Proof. repeat split. Qed.

Example allocate_page_aligned_example :
  allocate (bump_memalign 12345) 1024
  = Some {| base := 16384; extent := 4096 |}
  /\ 16384 mod PAGE_SIZE = 0 /\ 4096 mod PAGE_SIZE = 0
  /\ sizeof_size_t + 1024 <= 4096.
Proof.
  assert (H : allocate (bump_memalign 12345) 1024
              = Some {| base := 16384; extent := 4096 |}) by reflexivity.
  split; [exact H |].
  destruct (allocate_page_aligned (bump_memalign 12345)
              (bump_memalign_contract 12345) 1024
              {| base := 16384; extent := 4096 |})
    as (Hbase & _ & Hext & Hmin & _).
  - lia.
  - vm_compute. discriminate.
  - exact H.
  - split; [exact Hbase | split; [exact Hext | exact Hmin]].
Defined.

End AlignedBufferFacts.

Module StatsFacts.

Import Stats.

(** C9: every call of [stats_print] stamps the clock reading it is given
    as the end time and derives the duration as end time minus start time,
    the throughput from [total_bytes] over that duration, and the average
    latency as [total_latency_us / total_messages] (0 without messages);
    a second call derives its duration from its own reading, and the
    accumulated totals and the start time are what they were. *)
Theorem stats_print_restamps stats now1 now2 :
  let '(stats1, r1) := stats_print stats now1 in
  let '(stats2, r2) := stats_print stats1 now2 in
  end_time_sec stats1 = now1 /\ end_time_sec stats2 = now2
  /\ duration_sec r1 = (now1 - start_time_sec stats)%float
  /\ duration_sec r2 = (now2 - start_time_sec stats)%float
  /\ throughput_gbps r1
     = (if (duration_sec r1 <=? 0)%float then 0%float
        else (double_of_size_t (total_bytes stats) * 8
              / (duration_sec r1 * 1000000000))%float)
  /\ throughput_gbps r2
     = (if (duration_sec r2 <=? 0)%float then 0%float
        else (double_of_size_t (total_bytes stats) * 8
              / (duration_sec r2 * 1000000000))%float)
  /\ avg_latency_us r1
     = (if 0 <? total_messages stats
        then (total_latency_us stats / double_of_size_t (total_messages stats))%float
        else 0%float)
  /\ avg_latency_us r2 = avg_latency_us r1
  /\ total_bytes stats2 = total_bytes stats
  /\ total_messages stats2 = total_messages stats
  /\ total_latency_us stats2 = total_latency_us stats
  /\ start_time_sec stats2 = start_time_sec stats.
Proof.
  cbn. repeat split; reflexivity.
Qed.

Example stats_print_twice :
  let stats := stats_update (stats_update (stats_init 10%float) 1032 3%float)
                            1032 5%float in
  let '(stats1, r1) := stats_print stats 12%float in
  let '(stats2, r2) := stats_print stats1 14.5%float in
  duration_sec r1 = 2%float /\ duration_sec r2 = 4.5%float
  /\ avg_latency_us r1 = 4%float /\ avg_latency_us r2 = 4%float
  /\ total_bytes stats2 = 2064 /\ total_messages stats2 = 2
  /\ PrimFloat.eqb (duration_sec r1) (duration_sec r2) = false.
Proof. vm_compute. repeat split; reflexivity. Qed.

Example stats_print_no_messages :
  avg_latency_us (snd (stats_print (stats_init 1%float) 3%float)) = 0%float.
Proof. reflexivity. Qed.

End StatsFacts.

Module ZeroCopyFacts.

Import ZeroCopy CTypesFacts.








(** *** The drain loop *)

Lemma poll_send_count errqueue st :
  send_count (snd (fst (poll errqueue st))) = send_count st.
Proof.
  unfold poll. destruct (handle_zerocopy_completions _ _) as [[ret c] acts].
  reflexivity.
Qed.

Lemma poll_stats errqueue st :
  stats (snd (fst (poll errqueue st))) = stats st.
Proof.
  unfold poll. destruct (handle_zerocopy_completions _ _) as [[ret c] acts].
  reflexivity.
Qed.

Lemma poll_quiet errqueue st : Forall quiet (snd (poll errqueue st)).
Proof.
  unfold poll, handle_zerocopy_completions.
  destruct (errqueue (polls st)) as [errno | control].
  - destruct ((errno =? EAGAIN) || (errno =? EWOULDBLOCK)); cbn [snd];
      repeat (constructor; [unfold quiet; auto |]); constructor.
  - cbn [snd]. repeat (constructor; [unfold quiet; auto |]); constructor.
Qed.

Lemma drain_loop_done fuel errqueue st :
  (completion_count st <? send_count st) = false ->
  drain_loop fuel errqueue st = Some (st, []).
Proof. intros E. destruct fuel; cbn [drain_loop]; rewrite E; reflexivity. Qed.

Lemma drain_loop_result fuel errqueue :
  forall st st' trace,
    drain_loop fuel errqueue st = Some (st', trace) ->
    send_count st' <= completion_count st'
    /\ send_count st' = send_count st
    /\ stats st' = stats st
    /\ Forall quiet trace.
Proof.
  induction fuel as [| fuel IH]; intros st st' trace H;
    destruct (completion_count st <? send_count st) eqn:E.
  - cbn [drain_loop] in H. rewrite E in H. discriminate.
  - rewrite drain_loop_done in H by exact E. injection H as <- <-.
    apply Z.ltb_ge in E. repeat split; auto.
  - cbn [drain_loop] in H. rewrite E in H.
    pose proof (poll_send_count errqueue st) as Hs.
    pose proof (poll_stats errqueue st) as Ht.
    pose proof (poll_quiet errqueue st) as Hq.
    destruct (poll errqueue st) as [[ret st1] acts]. cbn [fst snd] in *.
    destruct (drain_loop fuel errqueue st1) as [[st2 tr] |] eqn:Ed; [| discriminate].
    injection H as <- <-.
    destruct (IH _ _ _ Ed) as (H1 & H2 & H3 & H4).
    split; [exact H1 | split; [congruence | split; [congruence |]]].
    apply Forall_app; split; [exact Hq |].
    apply Forall_app; split; [| exact H4].
    destruct (ret =? 0);
      [constructor; [unfold quiet; auto | constructor] | constructor].
  - rewrite drain_loop_done in H by exact E. injection H as <- <-.
    apply Z.ltb_ge in E. repeat split; auto.
Qed.

Lemma drain_loop_ends_then_reached fuel errqueue :
  forall st, drain_loop fuel errqueue st <> None ->
             exists k, send_count st <= completion_count (after_polls errqueue k st).
Proof.
  induction fuel as [| fuel IH]; intros st H;
    destruct (completion_count st <? send_count st) eqn:E;
    try (exists 0%nat; apply Z.ltb_ge in E; exact E).
  - exfalso. apply H. cbn [drain_loop]. rewrite E. reflexivity.
  - cbn [drain_loop] in H. rewrite E in H.
    pose proof (poll_send_count errqueue st) as Hs.
    destruct (poll errqueue st) as [[ret st1] acts] eqn:Ep. cbn [fst snd] in *.
    destruct (drain_loop fuel errqueue st1) as [[st2 tr] |] eqn:Ed;
      [| exfalso; apply H; reflexivity].
    destruct (IH st1) as [k Hk]; [rewrite Ed; discriminate |].
    exists (S k). cbn [after_polls]. rewrite Ep. cbn [fst snd]. lia.
Qed.

Lemma drain_loop_reached_then_ends errqueue :
  forall k st,
    send_count st <= completion_count (after_polls errqueue k st) ->
    drain_loop k errqueue st <> None.
Proof.
  induction k as [| k IH]; intros st Hk;
    destruct (completion_count st <? send_count st) eqn:E;
    try (rewrite drain_loop_done by exact E; discriminate).
  - cbn [after_polls] in Hk. apply Z.ltb_lt in E. lia.
  - cbn [drain_loop after_polls] in *. rewrite E.
    pose proof (poll_send_count errqueue st) as Hs.
    destruct (poll errqueue st) as [[ret st1] acts] eqn:Ep. cbn [fst snd] in *.
    specialize (IH st1). rewrite Hs in IH. specialize (IH Hk).
    destruct (drain_loop k errqueue st1) as [[st2 tr] |]; [discriminate | congruence].
Qed.

Lemma drain_loop_silent fuel :
  forall st, completion_count st < send_count st ->
             drain_loop fuel Samples.silent st = None.
Proof.
  induction fuel as [| fuel IH]; intros st Hlt; cbn [drain_loop];
    apply Z.ltb_lt in Hlt; rewrite Hlt; [reflexivity |].
  unfold poll, Samples.silent. cbn.
  rewrite IH; [reflexivity |]. cbn. apply Z.ltb_lt. exact Hlt.
Qed.

(** C2 as stated fails: with one send outstanding and an error queue on
    which nothing arrives, the drain loop is still turning after any
    number of turns, and so the worker never reaches its close. *)
Lemma drain_never_ends_on_silent_queue :
  (forall fuel,
     drain_loop fuel Samples.silent (Samples.progress 1 0) = None)
  /\ (forall fuel,
        client_handler fuel
          (Samples.world SetsockoptOk [SendmsgOk 24] Samples.silent) 16
        = Defined None).
Proof.
  split; intros fuel.
  - apply drain_loop_silent. cbn. lia.
  - unfold client_handler.
    replace (prepare_frame (Samples.world SetsockoptOk [SendmsgOk 24] Samples.silent) 16)
      with (Defined (Some (Codec.frame_of Samples.m2, 24),
                     map Library (Malloc 72 true :: repeat (Malloc 2 true) 8)))
      by (vm_compute; reflexivity).
    cbn -[drain]. unfold drain. cbn -[drain_loop].
    rewrite drain_loop_silent; [reflexivity |]. cbn. lia.
Qed.

(** *** The send loop *)

Lemma send_loop_head zerocopy_enabled frame size errqueue attempts st :
  attempts <> [] ->
  exists tail,
    snd (send_loop zerocopy_enabled frame size errqueue attempts st)
    = Sendmsg (send_flags zerocopy_enabled) frame :: tail.
Proof.
  destruct attempts as [| a rest]; [congruence | intros _].
  cbn [send_loop].
  destruct (answer a) as [errno | sent].
  - destruct (retryable errno).
    + destruct (poll errqueue st) as [[ret st1] acts].
      destruct (send_loop _ _ _ _ rest st1) as [st2 trace].
      eexists; reflexivity.
    + eexists; reflexivity.
  - destruct (sent =? size).
    + match goal with
      | |- context [if ?c then _ else _] => destruct c
      end.
      * destruct (poll errqueue _) as [[ret st2] acts].
        destruct (send_loop _ _ _ _ rest st2) as [st3 trace].
        eexists; reflexivity.
      * destruct (send_loop _ _ _ _ rest _) as [st3 trace].
        eexists; reflexivity.
    + eexists; reflexivity.
Qed.

Lemma poll_sends_only flags frame errqueue st :
  Forall (sends_only flags frame) (snd (poll errqueue st)).
Proof.
  unfold poll, handle_zerocopy_completions.
  destruct (errqueue (polls st)) as [errno | control].
  - destruct ((errno =? EAGAIN) || (errno =? EWOULDBLOCK)); cbn [snd];
      forall_trivial.
  - cbn [snd]. forall_trivial.
Qed.

Lemma send_loop_sends_only zerocopy_enabled frame size errqueue attempts :
  forall st,
    Forall (sends_only (send_flags zerocopy_enabled) frame)
           (snd (send_loop zerocopy_enabled frame size errqueue attempts st)).
Proof.
  induction attempts as [| a rest IH]; intros st; cbn [send_loop];
    [constructor |].
  destruct (answer a) as [errno | sent].
  - destruct (retryable errno).
    + pose proof (poll_sends_only (send_flags zerocopy_enabled) frame errqueue st) as Hp.
      destruct (poll errqueue st) as [[ret st1] acts].
      specialize (IH st1).
      destruct (send_loop _ _ _ _ rest st1) as [st2 trace].
      cbn [snd] in *. constructor; [split; reflexivity |].
      apply Forall_app; split; assumption.
    + cbn [snd]. constructor; [split; reflexivity |].
      constructor; [exact I | constructor].
  - destruct (sent =? size).
    + match goal with
      | |- context [if ?c then _ else _] => destruct c
      end.
      * match goal with
        | |- context [poll errqueue ?s] =>
            pose proof (poll_sends_only (send_flags zerocopy_enabled) frame errqueue s) as Hp;
            destruct (poll errqueue s) as [[ret st2] acts]
        end.
        specialize (IH st2).
        destruct (send_loop _ _ _ _ rest st2) as [st3 trace].
        cbn [snd] in *. constructor; [split; reflexivity |].
        apply Forall_app; split; assumption.
      * match goal with
        | |- context [send_loop _ _ _ _ rest ?s] => specialize (IH s);
            destruct (send_loop zerocopy_enabled frame size errqueue rest s) as [st3 trace]
        end.
        cbn [snd app] in *. constructor; [split; reflexivity | exact IH].
    + cbn [snd]. constructor; [split; reflexivity |].
      constructor; [exact I | constructor].
Qed.

(** C3 as stated fails: a [sendmsg] that is interrupted (EINTR) in the
    last turn the loop condition admits (the deadline has passed, or the
    signal that interrupted it has set the shutdown flag) is followed by
    the read of the error queue and by no further [sendmsg]: the worker
    goes on to its drain block and closes. *)
Lemma interrupted_send_is_not_retried :
  send_loop 1 [Byte.x01] 1 Samples.silent
            [Samples.turn (SendmsgError EINTR)] (Samples.progress 0 0)
  = ({| send_count := 0; completion_count := 0;
        stats := Stats.stats_init 0%float; polls := 1%nat |},
     [Sendmsg MSG_ZEROCOPY [Byte.x01]; Recvmsg_errqueue])
  /\ (exists trace,
        client_handler 0
          (Samples.world SetsockoptOk [SendmsgError EINTR] Samples.silent) 16
        = Defined (Some trace)
        /\ List.length (filter is_sendmsg trace) = 1%nat
        /\ In Close trace).
Proof.
  split; [reflexivity |].
  eexists. split; [vm_compute; reflexivity |].
  split; [reflexivity |].
  vm_compute. tauto.
Qed.

(** C3, amended: a [sendmsg] that fails with EINTR, EAGAIN or ENOBUFS makes
    the sender read the error queue for completions and go back to the
    loop condition: when the loop takes another turn, that turn hands the
    same frame with the same flags to [sendmsg], and when it does not, the
    loop ends there; every [sendmsg] of the loop carries that one frame
    whole, and the failed turn leaves the send count and the statistics
    as they were. *)
Theorem retry_after_backpressure
    zerocopy_enabled frame size errqueue errno a rest st :
  answer a = SendmsgError errno ->
  errno = EINTR \/ errno = EAGAIN \/ errno = ENOBUFS ->
  let st1 := snd (fst (poll errqueue st)) in
  let acts := snd (poll errqueue st) in
  let later := send_loop zerocopy_enabled frame size errqueue rest st1 in
  send_loop zerocopy_enabled frame size errqueue (a :: rest) st
  = (fst later,
     Sendmsg (send_flags zerocopy_enabled) frame :: acts ++ snd later)
  /\ (exists more, acts = Recvmsg_errqueue :: more)
  /\ send_count st1 = send_count st
  /\ stats st1 = stats st
  /\ (rest <> [] ->
      exists tail,
        snd later = Sendmsg (send_flags zerocopy_enabled) frame :: tail)
  /\ (rest = [] -> later = (st1, []))
  /\ Forall (fun act => forall f fr, act = Sendmsg f fr -> fr = frame)
            (snd (send_loop zerocopy_enabled frame size errqueue (a :: rest) st)).
Proof.
  intros Ha Herrno st1 acts later.
  assert (Hr : retryable errno = true).
  { unfold retryable. destruct Herrno as [-> | [-> | ->]]; reflexivity. }
  split; [| split; [| split; [| split; [| split; [| split]]]]].
  - cbn [send_loop]. rewrite Ha, Hr.
    subst st1 acts later.
    destruct (poll errqueue st) as [[ret s1] ac]. cbn [fst snd].
    destruct (send_loop _ _ _ _ rest s1) as [s2 tr]. reflexivity.
  - subst acts. unfold poll, handle_zerocopy_completions.
    destruct (errqueue (polls st)) as [e | control].
    + destruct ((e =? EAGAIN) || (e =? EWOULDBLOCK)); eexists; reflexivity.
    + eexists; reflexivity.
  - apply poll_send_count.
  - apply poll_stats.
  - intros Hrest. apply send_loop_head. exact Hrest.
  - intros ->. reflexivity.
  - eapply Forall_impl; [| apply send_loop_sends_only].
    intros act Hact f fr ->. destruct Hact as [_ Hfr]. exact Hfr.
Qed.

Lemma retry_after_backpressure_witness :
  send_loop 1 [Byte.x01] 1 Samples.silent
            [Samples.turn (SendmsgError ENOBUFS); Samples.turn (SendmsgOk 1)]
            (Samples.progress 0 0)
  = ({| send_count := 1; completion_count := 0;
        stats := Stats.stats_update (Stats.stats_init 0%float) 1 1%float;
        polls := 1%nat |},
     [Sendmsg MSG_ZEROCOPY [Byte.x01]; Recvmsg_errqueue;
      Sendmsg MSG_ZEROCOPY [Byte.x01]]).
Proof.
  rewrite (proj1 (retry_after_backpressure 1 [Byte.x01] 1 Samples.silent ENOBUFS
                    (Samples.turn (SendmsgError ENOBUFS))
                    [Samples.turn (SendmsgOk 1)] (Samples.progress 0 0)
                    eq_refl (or_intror (or_intror eq_refl)))).
  reflexivity.
Defined.


(** *** The workers *)







Lemma prepare_frame_closes env msg_size acts :
  prepare_frame env msg_size = Defined (None, acts) -> In Close acts.
Proof.
  unfold prepare_frame.
  destruct (AlignedBuffer.allocate _ _) as [region |].
  2:{ intros [= <-]. right. left. reflexivity. }
  destruct (Codec.msg_alloc _ _) as [[msg |] log].
  2:{ intros [= <-]. apply in_or_app. right. left. reflexivity. }
  destruct (Codec.msg_serialize _ _ _) as [[[sz buf] log'] |]; cbn [bind];
    [| discriminate].
  destruct (sz <? 0); [| discriminate].
  intros [= <-]. apply in_or_app. right. left. reflexivity.
Qed.

(** A worker that returns has closed its socket. *)
Lemma client_handler_closes fuel env msg_size trace :
  client_handler fuel env msg_size = Defined (Some trace) -> In Close trace.
Proof.
  unfold client_handler.
  destruct (check_zerocopy_support (env_setsockopt env)) as [enabled probe].
  destruct (enabled <? 0).
  { intros [= <-]. right. apply in_or_app. right. left. reflexivity. }
  destruct (prepare_frame env msg_size) as [[[[frame size] |] acts] |] eqn:Ep;
    cbn [bind]; [| | discriminate].
  - destruct (send_loop _ _ _ _ _ _) as [st1 sent].
    destruct (drain _ _ _ _) as [[st2 drained] |]; [| discriminate].
    destruct (Stats.stats_print _ _) as [s r]. intros [= <-].
    right. do 5 (apply in_or_app; right). right. left. reflexivity.
  - intros [= <-]. right. do 2 (apply in_or_app; right).
    exact (prepare_frame_closes _ _ _ Ep).
Qed.

(** *** The frame on the wire *)

Lemma fresh_block_length junk n : 0 <= n -> zlen (fresh_block junk n) = n.
Proof. intros. unfold zlen, fresh_block. rewrite repeat_length. lia. Qed.

(** With room in memory and a frame size that fits an [int], the prologue
    hands the send loop exactly the frame of the message it allocated. *)
Lemma prepare_frame_ok env msg_size :
  0 <= msg_size ->
  sizeof_size_t + Codec.NUM_FIELDS * (msg_size / Codec.NUM_FIELDS) <= INT_MAX ->
  (forall k n, (k <= Z.to_nat Codec.NUM_FIELDS)%nat -> env_alloc env k n <> None) ->
  (forall n, env_memalign env AlignedBuffer.PAGE_SIZE n <> None) ->
  exists msg,
    fst (Codec.msg_alloc (env_alloc env) (msg_size / Codec.NUM_FIELDS)) = Some msg
    /\ Codec.field_size msg = msg_size / Codec.NUM_FIELDS
    /\ zlen (Codec.frame_of msg)
       = sizeof_size_t + Codec.NUM_FIELDS * (msg_size / Codec.NUM_FIELDS)
    /\ prepare_frame env msg_size
       = Defined (Some (Codec.frame_of msg, zlen (Codec.frame_of msg)),
                  map Library
                      (snd (Codec.msg_alloc (env_alloc env)
                                            (msg_size / Codec.NUM_FIELDS)))).
Proof.
  intros Hpos Hint Halloc Hmem.
  assert (Hn : Codec.NUM_FIELDS = 8) by reflexivity.
  assert (Hs : sizeof_size_t = 8) by reflexivity.
  assert (Hm : Codec.sizeof_message_t = 72) by reflexivity.
  assert (Hp : AlignedBuffer.PAGE_SIZE = 4096) by reflexivity.
  assert (Hi : INT_MAX = 2 ^ 31 - 1) by reflexivity.
  assert (Hx : SIZE_MAX = 2 ^ 64 - 1) by reflexivity.
  set (fsz := msg_size / Codec.NUM_FIELDS) in *.
  assert (Hdiv : msg_size = Codec.NUM_FIELDS * fsz + msg_size mod Codec.NUM_FIELDS)
    by (apply Z.div_mod; lia).
  assert (Hrem : 0 <= msg_size mod Codec.NUM_FIELDS < Codec.NUM_FIELDS)
    by (apply Z.mod_pos_bound; lia).
  assert (Hfsz : 0 <= fsz) by (apply Z.div_pos; lia).
  destruct (CodecFacts.msg_alloc_ok (env_alloc env) fsz Hfsz) as (msg & Heq & Hsize & Hwf);
    [lia | exact Halloc |].
  pose proof (CodecFacts.frame_of_length msg Hwf) as Hlen. rewrite Hsize in Hlen.
  exists msg. rewrite Heq. cbn [fst snd].
  split; [reflexivity | split; [exact Hsize | split; [exact Hlen |]]].
  unfold prepare_frame, AlignedBuffer.allocate. fold fsz.
  assert (Hb : AlignedBuffer.buffer_size msg_size = sizeof_size_t + msg_size).
  { unfold AlignedBuffer.buffer_size. apply CTypesFacts.size_t_wrap_small. lia. }
  rewrite Hb, AlignedBufferFacts.aligned_size_exact by lia.
  set (size := (sizeof_size_t + msg_size + AlignedBuffer.PAGE_SIZE - 1)
               / AlignedBuffer.PAGE_SIZE * AlignedBuffer.PAGE_SIZE).
  assert (Hcover : sizeof_size_t + msg_size <= size)
    by (apply AlignedBufferFacts.round_up_covers; lia).
  destruct (env_memalign env AlignedBuffer.PAGE_SIZE size) as [p |] eqn:Ep;
    [| exfalso; exact (Hmem size Ep)].
  cbn [AlignedBuffer.extent]. rewrite Heq.
  rewrite CodecFacts.msg_serialize_ok;
    [| exact Hwf | rewrite Hsize; lia | rewrite fresh_block_length; lia].
  cbn [bind]. rewrite Hsize.
  rewrite CTypesFacts.to_int_small by lia.
  destruct (_ <? 0) eqn:E; [apply Z.ltb_lt in E; lia | clear E].
  rewrite <- Hlen at 1. unfold zlen at 1. rewrite Nat2Z.id.
  rewrite firstn_app, firstn_all, Nat.sub_diag. cbn [firstn].
  rewrite app_nil_r, Hlen. reflexivity.
Qed.

(** The frame a worker puts on the wire has the size the integer division
    leaves: every [sendmsg] of [client_handler] carries the frame of the
    allocated message, [sizeof(size_t) + 8 * (msg_size / 8)] bytes long. *)
Lemma client_handler_transmits_floor_frame fuel env msg_size trace :
  0 <= msg_size ->
  sizeof_size_t + Codec.NUM_FIELDS * (msg_size / Codec.NUM_FIELDS) <= INT_MAX ->
  (forall k n, (k <= Z.to_nat Codec.NUM_FIELDS)%nat -> env_alloc env k n <> None) ->
  (forall n, env_memalign env AlignedBuffer.PAGE_SIZE n <> None) ->
  client_handler fuel env msg_size = Defined (Some trace) ->
  Forall (fun act =>
            forall flags frame,
              act = Sendmsg flags frame ->
              zlen frame
              = sizeof_size_t + Codec.NUM_FIELDS * (msg_size / Codec.NUM_FIELDS))
         trace.
Proof.
  intros Hpos Hint Halloc Hmem.
  destruct (prepare_frame_ok env msg_size Hpos Hint Halloc Hmem)
    as (msg & _ & _ & Hlen & Hprep).
  unfold client_handler.
  destruct (check_zerocopy_support (env_setsockopt env)) as [enabled probe] eqn:Ec.
  assert (Hprobe : Forall (fun act => forall flags frame, act <> Sendmsg flags frame) probe).
  { unfold check_zerocopy_support in Ec.
    destruct (env_setsockopt env) as [| errno];
      [| destruct (errno =? ENOPROTOOPT)]; injection Ec as <- <-;
      repeat (constructor; [discriminate |]); constructor. }
  assert (Hno : forall l, Forall (fun act => forall flags frame, act <> Sendmsg flags frame) l ->
                          Forall (fun act => forall flags frame, act = Sendmsg flags frame ->
                                    zlen frame = sizeof_size_t + Codec.NUM_FIELDS * (msg_size / Codec.NUM_FIELDS)) l).
  { intros l Hl. eapply Forall_impl; [| exact Hl].
    intros act Hact flags frame ->. exfalso. exact (Hact _ _ eq_refl). }
  destruct (enabled <? 0).
  { intros [= <-]. apply Hno. constructor; [discriminate |].
    apply Forall_app; split; [exact Hprobe |].
    constructor; [discriminate | constructor]. }
  rewrite Hprep. cbn [bind].
  pose proof (send_loop_sends_only enabled (Codec.frame_of msg)
                (zlen (Codec.frame_of msg)) (env_errqueue env) (env_attempts env)
                {| send_count := 0; completion_count := 0;
                   stats := Stats.stats_init (env_stats_start env);
                   polls := 0 |}) as Hsent.
  destruct (send_loop _ _ _ _ _ _) as [st1 sent]. cbn [snd] in Hsent.
  destruct (drain fuel enabled (env_errqueue env) st1) as [[st2 drained] |] eqn:Ed;
    [| discriminate].
  destruct (Stats.stats_print _ _) as [s r]. intros [= <-].
  assert (Hdr : Forall (fun act => forall flags frame, act <> Sendmsg flags frame) drained).
  { unfold drain in Ed. destruct (enabled =? 0).
    - injection Ed as <- <-. constructor.
    - destruct (drain_loop fuel (env_errqueue env) st1) as [[st3 tr] |] eqn:El;
        [| discriminate].
      injection Ed as <- <-.
      destruct (drain_loop_result _ _ _ _ _ El) as (_ & _ & _ & Hq).
      constructor; [discriminate |].
      apply Forall_app; split.
      + eapply Forall_impl; [| exact Hq].
        intros act [-> | [-> | ->]]; discriminate.
      + constructor; [discriminate | constructor]. }
  constructor; [discriminate |].
  apply Forall_app; split; [apply Hno; exact Hprobe |].
  apply Forall_app; split.
  { apply Hno. destruct (enabled =? 0); constructor; (discriminate || constructor). }
  apply Forall_app; split.
  { apply Hno. clear. induction (snd _) as [| e l IH]; cbn [map]; constructor;
      [discriminate | exact IH]. }
  apply Forall_app; split.
  { eapply Forall_impl; [| exact Hsent].
    intros act Hact flags frame ->. destruct Hact as [_ ->]. exact Hlen. }
  apply Forall_app; split; [apply Hno; exact Hdr |].
  apply Hno. repeat (constructor; [discriminate |]). constructor.
Qed.

End ZeroCopyFacts.

Module ReleaseFacts.

Import Codec Release CTypesFacts MemoryFacts CodecFacts.

Lemma granted_app l1 l2 : granted (l1 ++ l2) = (granted l1 + granted l2)%nat.
Proof. unfold granted. rewrite filter_app, length_app. reflexivity. Qed.

Lemma released_app l1 l2 : released (l1 ++ l2) = (released l1 + released l2)%nat.
Proof. unfold released. rewrite filter_app, length_app. reflexivity. Qed.

Lemma refused_app l1 l2 : refused (l1 ++ l2) = (refused l1 + refused l2)%nat.
Proof. unfold refused. rewrite filter_app, length_app. reflexivity. Qed.

Lemma freed_slots_app l1 l2 :
  freed_slots (l1 ++ l2) = freed_slots l1 ++ freed_slots l2.
Proof.
  induction l1 as [| e l1 IH]; [reflexivity |].
  destruct e; cbn [app freed_slots]; rewrite IH; reflexivity.
Qed.

Lemma grants_counts fsz n :
  granted (repeat (Malloc fsz true) n) = n
  /\ released (repeat (Malloc fsz true) n) = 0%nat
  /\ refused (repeat (Malloc fsz true) n) = 0%nat
  /\ freed_slots (repeat (Malloc fsz true) n) = [].
Proof.
  induction n as [| n (H1 & H2 & H3 & H4)]; [repeat split |].
  unfold granted, released, refused in *. cbn. rewrite H1, H2, H3, H4.
  repeat split.
Qed.

Lemma frees_counts slots :
  granted (map Free slots) = 0%nat
  /\ released (map Free slots) = List.length slots
  /\ refused (map Free slots) = 0%nat
  /\ freed_slots (map Free slots) = slots.
Proof.
  induction slots as [| i slots (H1 & H2 & H3 & H4)]; [repeat split |].
  unfold granted, released, refused in *. cbn. rewrite H1, H2, H3, H4.
  repeat split.
Qed.

(** What the loop of [msg_alloc] has done when it ends well. *)
Lemma alloc_fields_some alloc fsz :
  forall idx acc log msg log',
    alloc_fields alloc fsz idx acc log = (Some msg, log') ->
    field_size msg = fsz
    /\ log' = log ++ repeat (Malloc fsz true) (List.length idx)
    /\ exists blocks,
         field msg = acc ++ map Some blocks
         /\ Forall2 (fun i blk =>
                       exists junk,
                         alloc (S i) fsz = Some junk
                         /\ blk = snprintf (fresh_block junk fsz) fsz
                                           (field_pattern i fsz))
                    idx blocks.
Proof.
  induction idx as [| i idx IH]; intros acc log msg log' H; cbn [alloc_fields] in H.
  - injection H as <- <-. cbn. rewrite !app_nil_r.
    split; [reflexivity | split; [reflexivity |]].
    exists []. split; [symmetry; apply app_nil_r | constructor].
  - destruct (alloc (S i) fsz) as [junk |] eqn:Ea; [| discriminate].
    destruct (IH _ _ _ _ H) as (Hsize & Hlog & blocks & Hf & Hall).
    split; [exact Hsize |].
    split.
    + rewrite Hlog. cbn [List.length repeat]. rewrite <- app_assoc. reflexivity.
    + exists (snprintf (fresh_block junk fsz) fsz (field_pattern i fsz) :: blocks).
      split.
      * rewrite Hf, <- app_assoc. reflexivity.
      * constructor; [| exact Hall]. exists junk. split; [exact Ea | reflexivity].
Qed.

(** What it has done when a field is refused. *)
Lemma alloc_fields_none alloc fsz :
  forall n k acc log log',
    alloc_fields alloc fsz (seq k n) acc log = (None, log') ->
    exists i,
      (k <= i < k + n)%nat
      /\ alloc (S i) fsz = None
      /\ log' = log ++ repeat (Malloc fsz true) (i - k)
                    ++ [Malloc fsz false; Stderr "malloc field failed"]
                    ++ map Free (seq 0 i) ++ [FreeMessage].
Proof.
  induction n as [| n IH]; intros k acc log log' H; cbn [seq alloc_fields] in H.
  - discriminate.
  - destruct (alloc (S k) fsz) as [junk |] eqn:Ea.
    + destruct (IH _ _ _ _ H) as (i & Hi & Hnone & Hlog).
      exists i. split; [lia |]. split; [exact Hnone |].
      rewrite Hlog, <- app_assoc.
      replace (i - k)%nat with (S (i - S k)) by lia. reflexivity.
    + injection H as <-. exists k. split; [lia |]. split; [exact Ea |].
      rewrite Nat.sub_diag. reflexivity.
Qed.

Lemma msg_free_counts msg :
  granted (msg_free (Some msg)) = 0%nat
  /\ released (msg_free (Some msg)) = 9%nat
  /\ freed_slots (msg_free (Some msg)) = field_indices.
Proof. repeat split. Qed.

Lemma msg_alloc_tally alloc fsz :
  match msg_alloc alloc fsz with
  | (None, log) =>
      refused log = 1%nat
      /\ granted log = released log
      /\ NoDup (freed_slots log)
  | (Some msg, log) =>
      refused log = 0%nat
      /\ granted log = 9%nat
      /\ released log = 0%nat
      /\ List.length (field msg) = 8%nat
      /\ released (msg_free (Some msg)) = granted log
      /\ NoDup (freed_slots (msg_free (Some msg)))
  end.
Proof.
  unfold msg_alloc.
  destruct (alloc 0%nat sizeof_message_t) as [junk0 |].
  2:{ repeat split. constructor. }
  destruct (alloc_fields alloc fsz field_indices [] [Malloc sizeof_message_t true])
    as [[msg |] log] eqn:E.
  - destruct (alloc_fields_some _ _ _ _ _ _ _ E) as (_ & -> & blocks & Hf & Hall).
    destruct (grants_counts fsz (List.length field_indices)) as (G1 & G2 & G3 & _).
    rewrite refused_app, granted_app, released_app, G1, G2, G3.
    apply Forall2_length in Hall.
    split; [reflexivity | split; [reflexivity | split; [reflexivity |]]].
    split; [rewrite Hf; cbn [app]; rewrite length_map, <- Hall; reflexivity |].
    split; [reflexivity |].
    destruct (msg_free_counts msg) as (_ & _ & ->). apply seq_NoDup.
  - unfold field_indices in E.
    destruct (alloc_fields_none _ _ _ _ _ _ _ E) as (i & Hi & _ & ->).
    destruct (grants_counts fsz (i - 0)) as (G1 & G2 & G3 & G4).
    destruct (frees_counts (seq 0 i)) as (F1 & F2 & F3 & F4).
    rewrite !refused_app, !granted_app, !released_app, !freed_slots_app.
    rewrite G1, G2, G3, G4, F1, F2, F3, F4, length_seq.
    cbn. rewrite app_nil_r.
    split; [lia | split; [lia | apply seq_NoDup]].
Qed.

(** The calls to the allocator that [msg_alloc] makes, in order. *)
Lemma msg_alloc_shape alloc fsz :
  match msg_alloc alloc fsz with
  | (None, log) =>
      log = [Malloc sizeof_message_t false; Stderr "malloc message_t failed"]
      \/ exists i,
           (i < Z.to_nat NUM_FIELDS)%nat
           /\ alloc (S i) fsz = None
           /\ log = Malloc sizeof_message_t true
                      :: repeat (Malloc fsz true) i
                      ++ [Malloc fsz false; Stderr "malloc field failed"]
                      ++ map Free (seq 0 i) ++ [FreeMessage]
  | (Some msg, log) =>
      log = Malloc sizeof_message_t true
              :: repeat (Malloc fsz true) (Z.to_nat NUM_FIELDS)
      /\ Forall (fun p => p <> None) (field msg)
  end.
Proof.
  unfold msg_alloc.
  destruct (alloc 0%nat sizeof_message_t) as [junk0 |]; [| left; reflexivity].
  destruct (alloc_fields alloc fsz field_indices [] [Malloc sizeof_message_t true])
    as [[msg |] log] eqn:E.
  - destruct (alloc_fields_some _ _ _ _ _ _ _ E) as (_ & -> & blocks & Hf & _).
    split; [reflexivity |].
    rewrite Hf. cbn [app]. apply Forall_map, Forall_forall.
    intros blk _. discriminate.
  - unfold field_indices in E.
    destruct (alloc_fields_none _ _ _ _ _ _ _ E) as (i & Hi & Hnone & ->).
    right. exists i. rewrite Nat.sub_0_r.
    split; [lia | split; [exact Hnone | reflexivity]].
Qed.

(** X1 (msg_alloc, msg_free): [msg_alloc] is all or nothing towards the
    allocator, block for block.  When it returns NULL, either the struct
    itself was refused and nothing else was asked for, or the struct and
    the fields 0 to i - 1 were granted, field i was refused, and then
    exactly the fields 0 to i - 1 and the struct were freed, in this
    order: one refusal, every block obtained freed again, each once.
    When it returns a message, the struct and the eight fields were
    granted, nothing was refused or freed, all eight fields are live, and
    [msg_free] frees exactly the fields 0 to 7 and then the struct;
    [msg_free(NULL)] does nothing. *)
Theorem msg_alloc_all_or_nothing alloc fsz :
  msg_free None = []
  /\ match msg_alloc alloc fsz with
     | (None, log) =>
         (log = [Malloc sizeof_message_t false;
                 Stderr "malloc message_t failed"]
          \/ exists i,
               (i < Z.to_nat NUM_FIELDS)%nat
               /\ alloc (S i) fsz = None
               /\ log = Malloc sizeof_message_t true
                          :: repeat (Malloc fsz true) i
                          ++ [Malloc fsz false; Stderr "malloc field failed"]
                          ++ map Free (seq 0 i) ++ [FreeMessage])
         /\ refused log = 1%nat
         /\ granted log = released log
         /\ NoDup (freed_slots log)
         /\ freed_slots log = seq 0 (granted log - 1)
     | (Some msg, log) =>
         log = Malloc sizeof_message_t true
                 :: repeat (Malloc fsz true) (Z.to_nat NUM_FIELDS)
         /\ refused log = 0%nat
         /\ granted log = 9%nat
         /\ released log = 0%nat
         /\ List.length (field msg) = 8%nat
         /\ Forall (fun p => p <> None) (field msg)
         /\ msg_free (Some msg)
            = map Free (seq 0 (Z.to_nat NUM_FIELDS)) ++ [FreeMessage]
         /\ released (msg_free (Some msg)) = granted log
         /\ NoDup (freed_slots (msg_free (Some msg)))
     end.
Proof.
  split; [reflexivity |].
  pose proof (msg_alloc_tally alloc fsz) as Htally.
  pose proof (msg_alloc_shape alloc fsz) as Hshape.
  destruct (msg_alloc alloc fsz) as [[msg |] log].
  - destruct Htally as (T1 & T2 & T3 & T4 & T5 & T6).
    destruct Hshape as (S1 & S2).
    split; [exact S1 |].
    split; [exact T1 |].
    split; [exact T2 |].
    split; [exact T3 |].
    split; [exact T4 |].
    split; [exact S2 |].
    split; [reflexivity |].
    split; [exact T5 | exact T6].
  - destruct Htally as (T1 & T2 & T3).
    split; [exact Hshape |].
    split; [exact T1 |].
    split; [exact T2 |].
    split; [exact T3 |].
    destruct Hshape as [-> | (i & Hi & _ & ->)]; [reflexivity |].
    destruct (grants_counts fsz i) as (G1 & _ & _ & G4).
    destruct (frees_counts (seq 0 i)) as (F1 & _ & _ & F4).
    change (Malloc sizeof_message_t true
              :: repeat (Malloc fsz true) i
              ++ [Malloc fsz false; Stderr "malloc field failed"]
              ++ map Free (seq 0 i) ++ [FreeMessage])
      with ([Malloc sizeof_message_t true]
              ++ repeat (Malloc fsz true) i
              ++ [Malloc fsz false; Stderr "malloc field failed"]
              ++ map Free (seq 0 i) ++ [FreeMessage]).
    rewrite !granted_app, !freed_slots_app, G1, G4, F1, F4.
    cbn. rewrite app_nil_r. f_equal. lia.
Qed.

Lemma skipn_repeat {A} (x : A) k n : skipn k (repeat x n) = repeat x (n - k).
Proof.
  revert k. induction n as [| n IH]; intros [| k]; cbn; try reflexivity.
  apply IH.
Qed.

Lemma Forall2_nth_error {A B} (R : A -> B -> Prop) l1 l2 :
  Forall2 R l1 l2 ->
  forall i a b, nth_error l1 i = Some a -> nth_error l2 i = Some b -> R a b.
Proof.
  induction 1 as [| x y l1 l2 Hxy _ IH]; intros [| i] a b Ha Hb; cbn in Ha, Hb;
    try discriminate.
  - injection Ha as <-. injection Hb as <-. exact Hxy.
  - exact (IH i a b Ha Hb).
Qed.

(** X2 (msg_alloc): what a fresh message holds.  For a positive field
    size every field [i] of the message [msg_alloc] returns is a block of
    exactly [field_size] bytes: the text [Field<i>_Data_<field_size>] cut
    to [field_size - 1] characters, the terminating NUL that [snprintf]
    writes, and behind it the bytes as [malloc] delivered them. *)
Theorem msg_alloc_field_content alloc fsz msg log i :
  0 < fsz ->
  msg_alloc alloc fsz = (Some msg, log) ->
  (i < Z.to_nat NUM_FIELDS)%nat ->
  exists junk,
    alloc (S i) fsz = Some junk
    /\ let text := firstn (Z.to_nat (fsz - 1)) (field_pattern i fsz) in
       nth_error (field msg) i
       = Some (Some (text ++ Byte.x00
                       :: repeat junk (Z.to_nat fsz - S (List.length text)))).
Proof.
  intros Hpos H Hi. unfold msg_alloc in H.
  destruct (alloc 0%nat sizeof_message_t) as [junk0 |]; [| discriminate].
  destruct (alloc_fields_some _ _ _ _ _ _ _ H) as (_ & _ & blocks & Hf & Hall).
  cbn [app] in Hf.
  assert (Hlen : List.length blocks = Z.to_nat NUM_FIELDS).
  { apply Forall2_length in Hall. rewrite <- Hall. apply length_seq. }
  destruct (nth_error blocks i) as [blk |] eqn:Eb.
  2:{ apply nth_error_None in Eb. lia. }
  assert (Hidx : nth_error field_indices i = Some i).
  { unfold field_indices. rewrite nth_error_seq.
    destruct (Nat.ltb_spec i (Z.to_nat NUM_FIELDS)); [reflexivity | lia]. }
  assert (Hrel : exists junk,
             alloc (S i) fsz = Some junk
             /\ blk = snprintf (fresh_block junk fsz) fsz (field_pattern i fsz)).
  { exact (Forall2_nth_error _ _ _ Hall i i blk Hidx Eb). }
  destruct Hrel as (junk & Ha & ->). exists junk. split; [exact Ha |].
  cbn zeta. rewrite Hf, nth_error_map, Eb. cbn [option_map].
  unfold snprintf, fresh_block.
  destruct (fsz =? 0) eqn:E; [apply Z.eqb_eq in E; lia |].
  rewrite skipn_repeat. reflexivity.
Qed.

Lemma msg_alloc_field_content_witness :
  exists msg log,
    msg_alloc Scenarios.dirty 32 = (Some msg, log)
    /\ nth_error (field msg) 3
       = Some (Some (list_byte_of_string "Field3_Data_32"
                       ++ Byte.x00 :: repeat Byte.xaa 17)).
Proof.
  destruct (msg_alloc Scenarios.dirty 32) as [[msg |] log] eqn:E;
    [| vm_compute in E; discriminate].
  exists msg, log. split; [reflexivity |].
  destruct (msg_alloc_field_content Scenarios.dirty 32 msg log 3)
    as (junk & Hjunk & Hfield).
  - lia.
  - exact E.
  - vm_compute. lia.
  - injection Hjunk as <-. exact Hfield.
Defined.

Lemma set_field_nth msg i p j :
  (i < List.length (field msg))%nat ->
  nth_error (field (set_field msg i p)) j
  = if Nat.eqb j i then Some p else nth_error (field msg) j.
Proof.
  intros Hi. cbn [set_field field].
  destruct (Nat.eqb_spec j i) as [-> | Hne].
  - rewrite nth_error_app2 by (rewrite length_firstn; lia).
    rewrite length_firstn, Nat.min_l by lia. rewrite Nat.sub_diag. reflexivity.
  - destruct (Nat.lt_ge_cases j i) as [Hlt | Hge].
    + rewrite nth_error_app1 by (rewrite length_firstn; lia).
      rewrite nth_error_firstn.
      destruct (Nat.ltb_spec j i); [reflexivity | lia].
    + rewrite nth_error_app2 by (rewrite length_firstn; lia).
      rewrite length_firstn, Nat.min_l by lia.
      destruct (j - i)%nat as [| d] eqn:Ed; [lia |].
      cbn [nth_error]. rewrite nth_error_skipn. f_equal. lia.
Qed.

(** Clearing slots one after the other leaves every one of them dead. *)
Lemma clear_slots slots :
  forall msg,
    Forall (fun j => (j < List.length (field msg))%nat) slots ->
    let msg' := fold_left (fun m j => set_field m j None) slots msg in
    List.length (field msg') = List.length (field msg)
    /\ field_size msg' = field_size msg
    /\ forall j, In j slots \/ nth_error (field msg) j = Some None ->
                 nth_error (field msg') j = Some None.
Proof.
  induction slots as [| s slots IH]; intros msg Hall.
  - cbn. repeat split. intros j [[] | H]. exact H.
  - inversion Hall as [| ? ? Hs Hrest]; subst. cbn [fold_left].
    destruct (IH (set_field msg s None)) as (Hlen & Hsize & Hdead).
    { rewrite set_field_length by exact Hs. exact Hrest. }
    rewrite set_field_length in Hlen by exact Hs.
    split; [exact Hlen | split; [exact Hsize |]].
    intros j Hj. apply Hdead.
    rewrite set_field_nth by exact Hs.
    destruct (Nat.eqb_spec j s) as [-> | Hne]; [right; reflexivity |].
    destruct Hj as [[-> | Hin] | Hnone]; [congruence | left; exact Hin | right; exact Hnone].
Qed.

(** The two ways the field loop of [msg_deserialize] ends. *)
Lemma deserialize_fields_cases alloc buffer fsz :
  forall n k msg offset log ret m log',
    (k + n <= List.length (field msg))%nat ->
    deserialize_fields alloc buffer fsz (seq k n) msg offset log
    = Defined (ret, m, log') ->
    field_size m = field_size msg
    /\ ((ret = to_int (total_size fsz)
         /\ log' = log ++ repeat (Malloc fsz true) n)
        \/ (ret = -1
            /\ exists i,
                 (k <= i < k + n)%nat
                 /\ alloc i fsz = None
                 /\ log' = log ++ repeat (Malloc fsz true) (i - k)
                               ++ [Malloc fsz false;
                                   Stderr "malloc field failed in deserialize"]
                               ++ map Free (seq 0 i)
                 /\ forall j, (j <= i)%nat -> nth_error (field m) j = Some None)).
Proof.
  induction n as [| n IH]; intros k msg offset log ret m log' Hslots H;
    cbn [seq deserialize_fields] in H.
  - injection H as <- <- <-. split; [reflexivity |]. left.
    split; [reflexivity |]. cbn. symmetry. apply app_nil_r.
  - destruct (alloc k fsz) as [junk |] eqn:Ea.
    + destruct (mem_read buffer offset fsz) as [data |]; cbn [bind] in H;
        [| discriminate].
      assert (Hslots' : (S k + n
                         <= List.length (field (set_field msg k (Some data))))%nat)
        by (rewrite set_field_length by lia; lia).
      destruct (IH _ _ _ _ _ _ _ Hslots' H) as (Hsize & Hcases).
      split; [exact Hsize |].
      destruct Hcases as [[Hret Hlog] | (Hret & i & Hi & Hnone & Hlog & Hdead)].
      * left. split; [exact Hret |]. rewrite Hlog, <- app_assoc. reflexivity.
      * right. split; [exact Hret |]. exists i.
        split; [lia | split; [exact Hnone | split; [| exact Hdead]]].
        rewrite Hlog, <- app_assoc.
        replace (i - k)%nat with (S (i - S k)) by lia. reflexivity.
    + injection H as <- <- <-.
      destruct (clear_slots (seq 0 k) (set_field msg k None)) as (_ & Hsize & Hdead).
      { apply Forall_forall. intros j Hj. apply in_seq in Hj.
        rewrite set_field_length by lia. lia. }
      split; [exact Hsize |].
      right. split; [reflexivity |]. exists k.
      split; [lia | split; [exact Ea | split]].
      * rewrite Nat.sub_diag. reflexivity.
      * intros j Hj. apply Hdead.
        destruct (Nat.eq_dec j k) as [-> | Hne].
        -- right. rewrite set_field_nth by lia. rewrite Nat.eqb_refl. reflexivity.
        -- left. apply in_seq. lia.
Qed.

(** The frame size that comes back as the [int] result is a multiple of
    8, so it is never the -1 of a failure. *)
Lemma total_size_result_not_minus_one fsz : to_int (total_size fsz) <> -1.
Proof.
  unfold total_size, size_t_wrap, to_int, sizeof_size_t, NUM_FIELDS.
  assert (H1 : (8 * fsz) mod 2 ^ 64 = 8 * (fsz mod 2 ^ 61)).
  { change (2 ^ 64) with (8 * 2 ^ 61). apply Z.mul_mod_distr_l; lia. }
  rewrite H1.
  replace (8 + 8 * (fsz mod 2 ^ 61)) with (8 * (1 + fsz mod 2 ^ 61)) by lia.
  assert (H2 : (8 * (1 + fsz mod 2 ^ 61)) mod 2 ^ 64
               = 8 * ((1 + fsz mod 2 ^ 61) mod 2 ^ 61)).
  { change (2 ^ 64) with (8 * 2 ^ 61). apply Z.mul_mod_distr_l; lia. }
  rewrite H2.
  set (y := (1 + fsz mod 2 ^ 61) mod 2 ^ 61).
  assert (H3 : (8 * y) mod 2 ^ 32 = 8 * (y mod 2 ^ 29)).
  { change (2 ^ 32) with (8 * 2 ^ 29). apply Z.mul_mod_distr_l; lia. }
  rewrite H3.
  destruct (8 * (y mod 2 ^ 29) <? 2 ^ 31); lia.
Qed.

(** X3 (msg_deserialize): the failure paths leave no block behind.  When
    [msg_deserialize] returns -1 into a struct of eight slots, every field
    block it obtained has been freed again, each once.  If no request was
    refused (the buffer was too short) the caller's struct is untouched
    and nothing was requested; if one was, [field_size] already holds the
    declared size, the fields before the refused one were freed in order,
    and neither they nor the refused slot point to live storage. *)
Theorem msg_deserialize_failure_releases alloc out buffer buffer_size m log :
  List.length (field out) = Z.to_nat NUM_FIELDS ->
  msg_deserialize alloc out buffer buffer_size = Defined (-1, m, log) ->
  granted log = released log
  /\ NoDup (freed_slots log)
  /\ (refused log = 0%nat -> m = out /\ granted log = 0%nat)
  /\ (refused log <> 0%nat ->
      field_size m = declared_field_size buffer
      /\ (forall j, (j <= granted log)%nat -> nth_error (field m) j = Some None)
      /\ freed_slots log = seq 0 (granted log)).
Proof.
  intros Hslots H. unfold msg_deserialize in H.
  destruct (buffer_size <? sizeof_size_t).
  { injection H as <- <-.
    split; [reflexivity | split; [constructor | split]].
    - intros _. split; reflexivity.
    - intros Hne. exfalso. apply Hne. reflexivity. }
  unfold mem_read in H.
  destruct ((0 <=? 0) && (0 <=? sizeof_size_t) && (0 + sizeof_size_t <=? zlen buffer));
    cbn [bind] in H; [| discriminate].
  change (Z.to_nat 0) with 0%nat in H. cbn [skipn] in H.
  fold (declared_field_size buffer) in H.
  set (fsz := declared_field_size buffer) in *.
  destruct (buffer_size <? total_size fsz).
  { injection H as <- <-.
    split; [reflexivity | split; [constructor | split]].
    - intros _. split; reflexivity.
    - intros Hne. exfalso. apply Hne. reflexivity. }
  unfold field_indices in H.
  assert (Hslots' : (0 + Z.to_nat NUM_FIELDS
                     <= List.length (field (set_field_size out fsz)))%nat)
    by (cbn [field set_field_size]; lia).
  destruct (deserialize_fields_cases _ _ _ _ _ _ _ _ _ _ _ Hslots' H)
    as (Hsize & [[Hret _] | (_ & i & Hi & Hnone & -> & Hdead)]).
  { exfalso. exact (total_size_result_not_minus_one fsz (eq_sym Hret)). }
  destruct (grants_counts fsz (i - 0)) as (G1 & G2 & G3 & G4).
  destruct (frees_counts (seq 0 i)) as (F1 & F2 & F3 & F4).
  rewrite !refused_app, !granted_app, !released_app, !freed_slots_app.
  rewrite G1, G2, G3, G4, F1, F2, F3, F4, length_seq.
  cbn. rewrite !Nat.sub_0_r, !Nat.add_0_r.
  split; [reflexivity |].
  split; [apply seq_NoDup |].
  split; [intros Hz; lia |].
  intros _. split; [exact Hsize |]. split; [exact Hdead | reflexivity].
Qed.

Lemma msg_deserialize_failure_releases_witness :
  exists m log,
    msg_deserialize Scenarios.third_refused Samples.blank
                    Scenarios.m2_buffer 25
    = Defined (-1, m, log)
    /\ granted log = 2%nat /\ released log = 2%nat
    /\ freed_slots log = [0%nat; 1%nat]
    /\ field_size m = 2.
Proof.
  destruct (msg_deserialize Scenarios.third_refused Samples.blank
                            Scenarios.m2_buffer 25)
    as [[[ret m] log] |] eqn:E; [| vm_compute in E; discriminate].
  assert (Hret : ret = -1) by (vm_compute in E; congruence).
  subst ret. exists m, log. split; [reflexivity |].
  destruct (msg_deserialize_failure_releases Scenarios.third_refused
              Samples.blank Scenarios.m2_buffer 25 m log)
    as (Hbalance & _ & _ & Hrefused).
  - reflexivity.
  - exact E.
  - assert (Hlog : log = [Malloc 2 true; Malloc 2 true; Malloc 2 false;
                          Stderr "malloc field failed in deserialize";
                          Free 0; Free 1])
      by (vm_compute in E; congruence).
    destruct Hrefused as (Hsize & _ & Hslots);
      [rewrite Hlog; vm_compute; discriminate |].
    rewrite <- Hbalance, Hslots, Hsize. rewrite Hlog. repeat split.
Defined.

Lemma blocks_of_length n size bytes : List.length (blocks_of n size bytes) = n.
Proof.
  revert bytes. induction n as [| n IH]; intros bytes; cbn; [reflexivity |].
  rewrite IH. reflexivity.
Qed.

Lemma firstn_plus {A} (a b : nat) :
  forall l : list A, firstn (a + b) l = firstn a l ++ firstn b (skipn a l).
Proof.
  induction a as [| a IH]; intros l; [reflexivity |].
  destruct l as [| x l]; cbn [Nat.add firstn skipn app].
  - rewrite firstn_nil. reflexivity.
  - rewrite IH. reflexivity.
Qed.

Lemma blocks_of_concat n size :
  forall bytes, List.concat (blocks_of n size bytes) = firstn (n * size) bytes.
Proof.
  induction n as [| n IH]; intros bytes; cbn [blocks_of List.concat]; [reflexivity |].
  rewrite IH. cbn [Nat.mul]. symmetry. apply firstn_plus.
Qed.

Lemma blocks_of_sizes n size :
  forall bytes,
    (n * size <= List.length bytes)%nat ->
    Forall (fun blk => List.length blk = size) (blocks_of n size bytes).
Proof.
  induction n as [| n IH]; intros bytes Hlen; cbn [blocks_of]; constructor.
  - rewrite length_firstn. cbn [Nat.mul] in Hlen. lia.
  - apply IH. rewrite length_skipn. cbn [Nat.mul] in Hlen. lia.
Qed.

(** A buffer that holds a whole frame starts with the frame of the
    message it encodes. *)
Lemma message_of_frame buffer :
  let fsz := declared_field_size buffer in
  sizeof_size_t + NUM_FIELDS * fsz <= zlen buffer ->
  sizeof_message_t + NUM_FIELDS * fsz <= SIZE_MAX ->
  well_formed (message_of buffer)
  /\ frame_of (message_of buffer)
     = firstn (Z.to_nat (sizeof_size_t + NUM_FIELDS * fsz)) buffer.
Proof.
  intros fsz Hlen Hfit.
  assert (Hs : sizeof_size_t = 8) by reflexivity.
  assert (Hn : NUM_FIELDS = 8) by reflexivity.
  assert (Hpos : 0 <= fsz).
  { subst fsz. unfold declared_field_size.
    pose proof (le_combine_bound (firstn (Z.to_nat sizeof_size_t) buffer)). lia. }
  assert (Hreal : (8 + 8 * Z.to_nat fsz <= List.length buffer)%nat)
    by (unfold zlen in Hlen; lia).
  split.
  - unfold well_formed, message_of. cbn [field field_size]. fold fsz.
    split; [exact Hpos | split; [exact Hfit |]].
    eexists. split; [reflexivity |].
    split; [apply blocks_of_length |].
    eapply Forall_impl; [| apply blocks_of_sizes].
    + intros blk Hblk. unfold zlen. cbn beta in Hblk. rewrite Hblk. lia.
    + rewrite length_skipn. rewrite Hn, Hs.
      change (Z.to_nat 8) with 8%nat. lia.
  - unfold frame_of, message_of. cbn [field field_size]. fold fsz.
    rewrite map_map, map_id, blocks_of_concat.
    assert (Hprefix : le_split (Z.to_nat sizeof_size_t) fsz
                      = firstn (Z.to_nat sizeof_size_t) buffer).
    { subst fsz. unfold declared_field_size.
      apply split_le_combine'. rewrite length_firstn, Hs.
      change (Z.to_nat 8) with 8%nat. lia. }
    rewrite Hprefix, Hs, Hn. change (Z.to_nat 8) with 8%nat.
    replace (Z.to_nat (8 + 8 * fsz)) with (8 + 8 * Z.to_nat fsz)%nat by lia.
    symmetry. apply firstn_plus.
Qed.

(** X4 (msg_deserialize, msg_serialize): decoding and encoding again
    reproduces the frame.  When a buffer holds the whole frame it declares
    (a frame whose size does not wrap around) and the allocator grants the
    eight fields, [msg_deserialize] returns
    the frame size as [int] and a message whose serialization, into any
    buffer with room for it, is byte for byte the received frame; what
    lies behind the frame in the target buffer stays as it was. *)
Theorem msg_deserialize_then_serialize alloc out buffer buffer_size :
  let fsz := declared_field_size buffer in
  let frame := sizeof_size_t + NUM_FIELDS * fsz in
  frame <= buffer_size <= zlen buffer ->
  sizeof_message_t + NUM_FIELDS * fsz <= SIZE_MAX ->
  List.length (field out) = Z.to_nat NUM_FIELDS ->
  (forall i, (i < Z.to_nat NUM_FIELDS)%nat -> alloc i fsz <> None) ->
  exists msg,
    msg_deserialize alloc out buffer buffer_size
    = Defined (to_int frame, msg,
               repeat (Malloc fsz true) (Z.to_nat NUM_FIELDS))
    /\ field_size msg = fsz
    /\ frame_of msg = firstn (Z.to_nat frame) buffer
    /\ (forall wire capacity,
          frame <= capacity <= zlen wire ->
          msg_serialize msg wire capacity
          = Defined (to_int frame,
                     firstn (Z.to_nat frame) buffer
                       ++ skipn (Z.to_nat frame) wire, [])).
Proof.
  intros fsz frame [Hcap Hreal] Hfit Hslots Halloc.
  destruct (message_of_frame buffer) as (Hwf & Hframe); [fold fsz; lia | exact Hfit |].
  fold fsz in Hframe. fold frame in Hframe.
  exists (message_of buffer).
  assert (Hsize : field_size (message_of buffer) = fsz) by reflexivity.
  split; [| split; [exact Hsize | split; [exact Hframe |]]].
  - rewrite <- (firstn_skipn (Z.to_nat frame) buffer) at 1.
    rewrite <- Hframe.
    pose proof (msg_deserialize_ok alloc (message_of buffer) out
                  (skipn (Z.to_nat frame) buffer) buffer_size Hwf) as Hok.
    rewrite Hsize in Hok. apply Hok; assumption.
  - intros wire capacity [Hc Hw].
    pose proof (msg_serialize_ok (message_of buffer) wire capacity Hwf) as Hok.
    rewrite Hsize, Hframe in Hok. apply Hok; assumption.
Qed.

Lemma msg_deserialize_then_serialize_witness :
  exists msg,
    msg_deserialize Samples.always Samples.blank Scenarios.m2_buffer 25
    = Defined (24, msg, repeat (Malloc 2 true) 8)
    /\ msg_serialize msg (repeat Byte.x00 24) 24
       = Defined (24, firstn 24 Scenarios.m2_buffer, []).
Proof.
  destruct (msg_deserialize_then_serialize Samples.always Samples.blank
              Scenarios.m2_buffer 25)
    as (msg & Hd & _ & _ & Hs).
  - vm_compute. split; discriminate.
  - vm_compute. discriminate.
  - reflexivity.
  - intros i _. discriminate.
  - exists msg. split; [exact Hd |].
    rewrite (Hs (repeat Byte.x00 24) 24); [reflexivity |].
    vm_compute. split; discriminate.
Defined.

End ReleaseFacts.

Module ArgsFacts.

Import Args CTypesFacts.

(** Whatever goes through [to_int] is an [int]. *)
Lemma to_int_is_int z : is_int (to_int z).
Proof.
  unfold is_int, to_int, INT_MIN, INT_MAX.
  pose proof (Z.mod_pos_bound z (2 ^ 32) ltac:(lia)).
  destruct (z mod 2 ^ 32 <? 2 ^ 31) eqn:E;
    [apply Z.ltb_lt in E | apply Z.ltb_ge in E]; lia.
Qed.

Lemma atoi_is_int s v : atoi s = Defined v -> is_int v.
Proof.
  unfold atoi.
  destruct (match skip_spaces s with
            | String c rest =>
                if code c =? 45 then (true, rest)
                else if code c =? 43 then (false, rest)
                else (false, skip_spaces s)
            | EmptyString => (false, skip_spaces s)
            end) as [negative s2].
  set (v' := if negative then - digits s2 0 else digits s2 0).
  destruct ((INT_MIN <=? v') && (v' <=? INT_MAX)) eqn:E; [| discriminate].
  intros [= <-]. apply andb_prop in E. destruct E as [E1 E2].
  apply Z.leb_le in E1, E2. split; assumption.
Qed.

Lemma parse_int_arg_is_int arg prefix d v :
  is_int d -> parse_int_arg arg prefix d = Defined v -> is_int v.
Proof.
  intros Hd. unfold parse_int_arg.
  destruct (starts_with prefix arg); [apply atoi_is_int |].
  intros [= <-]. exact Hd.
Qed.

(** The message sizes that survive the conversion to [int] and back. *)
Lemma int_sized_stable m : int_sized m <-> size_t_wrap (to_int m) = m.
Proof.
  unfold int_sized, size_t_wrap, to_int, INT_MAX, SIZE_MAX. split.
  - intros [H | H].
    + rewrite (Z.mod_small m) by lia.
      destruct (m <? 2 ^ 31) eqn:E; [| apply Z.ltb_ge in E; lia].
      apply Z.mod_small. lia.
    + assert (Hm : m mod 2 ^ 32 = m - 2 ^ 64 + 2 ^ 32).
      { symmetry. apply Z.mod_unique with (q := 2 ^ 32 - 1); lia. }
      rewrite Hm.
      destruct (m - 2 ^ 64 + 2 ^ 32 <? 2 ^ 31) eqn:E; [apply Z.ltb_lt in E; lia |].
      symmetry. apply Z.mod_unique with (q := -1); lia.
  - intros H.
    pose proof (Z.mod_pos_bound m (2 ^ 32) ltac:(lia)) as Hb.
    destruct (m mod 2 ^ 32 <? 2 ^ 31) eqn:E;
      [apply Z.ltb_lt in E | apply Z.ltb_ge in E].
    + rewrite Z.mod_small in H by lia. lia.
    + assert (Hw : (m mod 2 ^ 32 - 2 ^ 32) mod 2 ^ 64
                   = m mod 2 ^ 32 - 2 ^ 32 + 2 ^ 64).
      { symmetry. apply Z.mod_unique with (q := -1); lia. }
      rewrite Hw in H. lia.
Qed.

Lemma int_sized_of_int v : is_int v -> int_sized (size_t_wrap v).
Proof.
  unfold is_int, int_sized, size_t_wrap, INT_MIN, INT_MAX, SIZE_MAX. intros H.
  destruct (Z.neg_nonneg_cases v) as [Hneg | Hpos].
  - right. replace (v mod 2 ^ 64) with (v + 2 ^ 64);
      [lia | apply Z.mod_unique with (q := -1); lia].
  - left. rewrite Z.mod_small; lia.
Qed.

(** *** Prefixes *)

Lemma starts_with_app prefix rest : starts_with prefix (prefix ++ rest) = true.
Proof.
  unfold starts_with. induction prefix as [| c prefix IH]; cbn;
    [destruct rest; reflexivity |].
  destruct (ascii_dec c c); [exact IH | congruence].
Qed.

Lemma advance_app prefix rest :
  advance (String.length prefix) (prefix ++ rest) = rest.
Proof. induction prefix as [| c prefix IH]; cbn; [destruct rest |]; auto. Qed.

(** *** Reading back a printed number *)

Lemma digits_printed_acc d rest :
  ends_number rest = true ->
  forall p,
    digits (DecimalString.NilEmpty.string_of_uint d ++ rest) (Z.pos p)
    = Z.pos (Pos.of_uint_acc d p).
Proof.
  intros Hrest. induction d as [| d IH | d IH | d IH | d IH | d IH | d IH | d IH | d IH | d IH | d IH];
    intros p; cbn [DecimalString.NilEmpty.string_of_uint Pos.of_uint_acc append];
    try (cbn [digits]; change (isdigit _) with true; cbn iota;
         match goal with
         | |- digits _ (10 * Z.pos ?p + ?k) = Z.pos (Pos.of_uint_acc _ ?q) =>
             let k' := eval vm_compute in k in
             change k with k';
             replace (10 * Z.pos p + k') with (Z.pos q) by lia
         end;
         apply IH).
  destruct rest as [| c rest]; [reflexivity |].
  cbn [digits]. cbn [ends_number] in Hrest.
  apply negb_true_iff in Hrest. rewrite Hrest. reflexivity.
Qed.

Lemma digits_printed d rest :
  ends_number rest = true ->
  digits (DecimalString.NilEmpty.string_of_uint d ++ rest) 0
  = Z.of_N (Pos.of_uint d).
Proof.
  intros Hrest. induction d as [| d IH | d IH | d IH | d IH | d IH | d IH | d IH | d IH | d IH | d IH];
    cbn [DecimalString.NilEmpty.string_of_uint Pos.of_uint append];
    try (cbn [digits]; change (isdigit _) with true; cbn iota;
         match goal with
         | |- digits _ ?a = _ =>
             let a' := eval vm_compute in a in
             change a with a'
         end;
         first [exact IH | apply digits_printed_acc; exact Hrest]).
  destruct rest as [| c rest]; [reflexivity |].
  cbn [digits]. cbn [ends_number] in Hrest.
  apply negb_true_iff in Hrest. rewrite Hrest. reflexivity.
Qed.

(** The printed form of a number starts with a digit. *)
Lemma decimal_head n :
  exists c tail,
    Codec.decimal n = String c tail /\ isdigit c = true.
Proof.
  unfold Codec.decimal, DecimalString.NilZero.string_of_uint.
  destruct (N.to_uint (Z.to_N n));
    cbn [DecimalString.NilEmpty.string_of_uint];
    eexists; eexists; (split; [reflexivity | reflexivity]).
Qed.

Lemma digits_decimal n rest :
  0 <= n -> ends_number rest = true ->
  digits (Codec.decimal n ++ rest) 0 = n.
Proof.
  intros Hpos Hrest. unfold Codec.decimal, DecimalString.NilZero.string_of_uint.
  pose proof (DecimalN.Unsigned.of_to (Z.to_N n)) as Hn. unfold N.of_uint in Hn.
  destruct (N.to_uint (Z.to_N n)) eqn:Ed;
    try (rewrite digits_printed by exact Hrest; rewrite Hn; lia).
  cbn in Hn. cbn [append digits]. change (isdigit "0") with true. cbn iota.
  change (10 * 0 + (code "0" - 48)) with 0.
  destruct rest as [| c rest]; [cbn; lia |].
  cbn [digits]. cbn [ends_number] in Hrest.
  apply negb_true_iff in Hrest. rewrite Hrest. lia.
Qed.

Lemma isdigit_not_other c :
  isdigit c = true ->
  isspace c = false /\ (code c =? 45) = false /\ (code c =? 43) = false.
Proof.
  unfold isdigit, isspace. intros H. apply andb_prop in H. destruct H as [H1 H2].
  apply Z.leb_le in H1, H2.
  repeat split.
  - apply orb_false_iff. split; [apply Z.eqb_neq; lia |].
    apply andb_false_iff. right. apply Z.leb_gt. lia.
  - apply Z.eqb_neq; lia.
  - apply Z.eqb_neq; lia.
Qed.

(** [atoi] reads a printed number back, whatever non-digit follows it. *)
Lemma atoi_decimal n rest :
  0 <= n <= INT_MAX -> ends_number rest = true ->
  atoi (Codec.decimal n ++ rest) = Defined n.
Proof.
  intros Hn Hrest. unfold atoi.
  destruct (decimal_head n) as (c & tail & Hd & Hc).
  destruct (isdigit_not_other c Hc) as (Hsp & Hminus & Hplus).
  pose proof (digits_decimal n rest ltac:(lia) Hrest) as Hval.
  revert Hval. rewrite Hd. cbn [append]. intros Hval.
  cbn [skip_spaces]. rewrite Hsp, Hminus, Hplus, Hval.
  replace ((INT_MIN <=? n) && (n <=? INT_MAX)) with true; [reflexivity |].
  symmetry. apply andb_true_iff. unfold INT_MIN.
  split; apply Z.leb_le; lia.
Qed.

Lemma atoi_minus_decimal n rest :
  0 <= n <= - INT_MIN -> ends_number rest = true ->
  atoi ("-" ++ Codec.decimal n ++ rest) = Defined (- n).
Proof.
  intros Hn Hrest. unfold atoi. cbn [append skip_spaces].
  change (isspace "-") with false. cbv beta iota zeta.
  change (code "-" =? 45) with true. cbv beta iota zeta.
  rewrite (digits_decimal n rest ltac:(lia) Hrest).
  replace ((INT_MIN <=? - n) && (- n <=? INT_MAX)) with true; [reflexivity |].
  symmetry. apply andb_true_iff. unfold INT_MIN, INT_MAX in *.
  split; apply Z.leb_le; lia.
Qed.

Lemma atoi_without_number s : without_number s = true -> atoi s = Defined 0.
Proof.
  unfold atoi. destruct s as [| c s]; [reflexivity |].
  cbn [without_number skip_spaces]. intros H.
  apply andb_prop in H. destruct H as [H H4].
  apply andb_prop in H. destruct H as [H H3].
  apply andb_prop in H. destruct H as [H1 H2].
  apply negb_true_iff in H1, H2, H3, H4.
  rewrite H1, H3, H4. cbn [digits]. rewrite H2. reflexivity.
Qed.

Lemma parse_int_arg_decimal prefix default_value n rest :
  0 <= n <= INT_MAX -> ends_number rest = true ->
  parse_int_arg (prefix ++ Codec.decimal n ++ rest) prefix default_value
  = Defined n.
Proof.
  intros Hn Hrest. unfold parse_int_arg.
  rewrite starts_with_app, advance_app. apply atoi_decimal; assumption.
Qed.

Lemma parse_int_arg_minus_decimal prefix default_value n rest :
  0 <= n <= - INT_MIN -> ends_number rest = true ->
  parse_int_arg (prefix ++ "-" ++ Codec.decimal n ++ rest) prefix default_value
  = Defined (- n).
Proof.
  intros Hn Hrest. unfold parse_int_arg.
  rewrite starts_with_app, advance_app. apply atoi_minus_decimal; assumption.
Qed.

(** X5 (parse_int_arg): the values of [parse_int_arg].  An argument the
    prefix does not start gives the default; behind the prefix, a text
    that starts with no number gives 0 (the empty text included), the
    decimal numeral of an [n] up to INT_MAX gives [n] and that of a
    negative number down to INT_MIN gives that number, whatever non-digit
    text follows. *)
Theorem parse_int_arg_values prefix default_value :
  (forall arg,
     starts_with prefix arg = false ->
     parse_int_arg arg prefix default_value = Defined default_value)
  /\ (forall rest,
        without_number rest = true ->
        parse_int_arg (prefix ++ rest) prefix default_value = Defined 0)
  /\ (forall n rest,
        0 <= n <= INT_MAX -> ends_number rest = true ->
        parse_int_arg (prefix ++ Codec.decimal n ++ rest) prefix default_value
        = Defined n)
  /\ (forall n rest,
        0 <= n <= - INT_MIN -> ends_number rest = true ->
        parse_int_arg (prefix ++ "-" ++ Codec.decimal n ++ rest) prefix
                      default_value
        = Defined (- n)).
Proof.
  split; [| split; [| split]].
  - intros arg H. unfold parse_int_arg. rewrite H. reflexivity.
  - intros rest H. unfold parse_int_arg.
    rewrite starts_with_app, advance_app. apply atoi_without_number. exact H.
  - intros n rest Hn Hrest. apply parse_int_arg_decimal; assumption.
  - intros n rest Hn Hrest. apply parse_int_arg_minus_decimal; assumption.
Qed.

(** *** The loops of the [main] functions *)

Lemma parse_int_arg_ignored arg prefix d :
  starts_with prefix arg = false -> parse_int_arg arg prefix d = Defined d.
Proof. intros H. unfold parse_int_arg. rewrite H. reflexivity. Qed.

Lemma server_arg_ignored cfg arg :
  server_option arg = false -> int_sized (msgsize cfg) ->
  server_arg cfg arg = Defined cfg.
Proof.
  unfold server_option. intros H Hm.
  apply orb_false_iff in H. destruct H as [H H3].
  apply orb_false_iff in H. destruct H as [H1 H2].
  unfold server_arg.
  rewrite !parse_int_arg_ignored by assumption. cbn [bind].
  apply int_sized_stable in Hm. rewrite Hm. destruct cfg; reflexivity.
Qed.

Lemma server_arg_ranges cfg arg cfg' :
  server_arg cfg arg = Defined cfg' ->
  int_sized (msgsize cfg')
  /\ (is_int (port cfg) -> is_int (port cfg'))
  /\ (is_int (duration cfg) -> is_int (duration cfg')).
Proof.
  unfold server_arg.
  destruct (parse_int_arg arg "--port=" (port cfg)) as [p |] eqn:Ep;
    cbn [bind]; [| discriminate].
  destruct (parse_int_arg arg "--msgsize=" (to_int (msgsize cfg))) as [m |] eqn:Em;
    cbn [bind]; [| discriminate].
  destruct (parse_int_arg arg "--duration=" (duration cfg)) as [d |] eqn:Ed;
    cbn [bind]; [| discriminate].
  intros [= <-]. cbn [port msgsize duration].
  split; [| split].
  - apply int_sized_of_int.
    exact (parse_int_arg_is_int _ _ _ _ (to_int_is_int _) Em).
  - intros H. exact (parse_int_arg_is_int _ _ _ _ H Ep).
  - intros H. exact (parse_int_arg_is_int _ _ _ _ H Ed).
Qed.

Lemma client_arg_ignored cfg arg :
  client_option arg = false -> int_sized (client_msg_size cfg) ->
  client_arg cfg arg = Defined cfg.
Proof.
  unfold client_option. intros H Hm.
  apply orb_false_iff in H. destruct H as [H H5].
  apply orb_false_iff in H. destruct H as [H H4].
  apply orb_false_iff in H. destruct H as [H H3].
  apply orb_false_iff in H. destruct H as [H1 H2].
  unfold client_arg, parse_string_arg. rewrite H1.
  rewrite !parse_int_arg_ignored by assumption. cbn [bind].
  apply int_sized_stable in Hm. rewrite Hm. destruct cfg; reflexivity.
Qed.

Lemma client_arg_sized cfg arg cfg' :
  client_arg cfg arg = Defined cfg' -> int_sized (client_msg_size cfg').
Proof.
  unfold client_arg.
  destruct (parse_int_arg arg "--port=" (client_port cfg)) as [p |];
    cbn [bind]; [| discriminate].
  destruct (parse_int_arg arg "--msgsize=" (to_int (client_msg_size cfg)))
    as [m |] eqn:Em; cbn [bind]; [| discriminate].
  destruct (parse_int_arg arg "--duration=" (client_duration cfg)) as [d |];
    cbn [bind]; [| discriminate].
  destruct (parse_int_arg arg "--threads=" (num_threads cfg)) as [t |];
    cbn [bind]; [| discriminate].
  intros [= <-]. cbn [client_msg_size].
  apply int_sized_of_int.
  exact (parse_int_arg_is_int _ _ _ _ (to_int_is_int _) Em).
Qed.

Lemma default_msgsize_sized : int_sized DEFAULT_MSGSIZE.
Proof. left. unfold DEFAULT_MSGSIZE, INT_MAX. lia. Qed.

Lemma server_args_filter argv :
  forall cfg,
    int_sized (msgsize cfg) ->
    server_args cfg (filter server_option argv) = server_args cfg argv.
Proof.
  induction argv as [| arg argv IH]; intros cfg Hm; [reflexivity |].
  cbn [filter server_args].
  destruct (server_option arg) eqn:Eo.
  - cbn [server_args].
    destruct (server_arg cfg arg) as [cfg' |] eqn:Ea; cbn [bind]; [| reflexivity].
    apply IH. exact (proj1 (server_arg_ranges _ _ _ Ea)).
  - rewrite server_arg_ignored by assumption. cbn [bind]. apply IH. exact Hm.
Qed.

Lemma client_args_filter argv :
  forall cfg,
    int_sized (client_msg_size cfg) ->
    client_args cfg (filter client_option argv) = client_args cfg argv.
Proof.
  induction argv as [| arg argv IH]; intros cfg Hm; [reflexivity |].
  cbn [filter client_args].
  destruct (client_option arg) eqn:Eo.
  - cbn [client_args].
    destruct (client_arg cfg arg) as [cfg' |] eqn:Ea; cbn [bind]; [| reflexivity].
    apply IH. exact (client_arg_sized _ _ _ Ea).
  - rewrite client_arg_ignored by assumption. cbn [bind]. apply IH. exact Hm.
Qed.

(** X6 (main of the servers and of the clients, parse_int_arg,
    parse_string_arg): arguments that start with none of the known
    prefixes change nothing.  The argument loop yields the same settings
    with them as without them, and the defaults when there is no other
    argument; this holds for the three options of a server and for the
    five of a client. *)
Theorem unknown_arguments_are_ignored default_port argv :
  server_args (server_defaults default_port) (filter server_option argv)
  = server_args (server_defaults default_port) argv
  /\ client_args (client_defaults default_port) (filter client_option argv)
     = client_args (client_defaults default_port) argv
  /\ (Forall (fun arg => server_option arg = false) argv ->
      server_args (server_defaults default_port) argv
      = Defined (server_defaults default_port))
  /\ (Forall (fun arg => client_option arg = false) argv ->
      client_args (client_defaults default_port) argv
      = Defined (client_defaults default_port)).
Proof.
  split; [| split; [| split]].
  - apply server_args_filter. exact default_msgsize_sized.
  - apply client_args_filter. exact default_msgsize_sized.
  - intros Hall. rewrite <- server_args_filter by exact default_msgsize_sized.
    replace (filter server_option argv) with (@nil string); [reflexivity |].
    induction Hall as [| arg argv Ha _ IH]; [reflexivity |].
    cbn [filter]. rewrite Ha. exact IH.
  - intros Hall. rewrite <- client_args_filter by exact default_msgsize_sized.
    replace (filter client_option argv) with (@nil string); [reflexivity |].
    induction Hall as [| arg argv Ha _ IH]; [reflexivity |].
    cbn [filter]. rewrite Ha. exact IH.
Qed.

Lemma server_args_ranges_from argv :
  forall cfg cfg',
    int_sized (msgsize cfg) ->
    server_args cfg argv = Defined cfg' ->
    int_sized (msgsize cfg')
    /\ (is_int (port cfg) -> is_int (port cfg'))
    /\ (is_int (duration cfg) -> is_int (duration cfg')).
Proof.
  induction argv as [| arg argv IH]; intros cfg cfg' Hm H; cbn [server_args] in H.
  - injection H as <-. auto.
  - destruct (server_arg cfg arg) as [cfg1 |] eqn:Ea; cbn [bind] in H;
      [| discriminate].
    destruct (server_arg_ranges _ _ _ Ea) as (H1 & H2 & H3).
    destruct (IH _ _ H1 H) as (H4 & H5 & H6). auto.
Qed.

(** X7 (main of the servers): the ranges of the settings.  The port and
    the duration the argument loop ends with are [int]s; the message size
    is at most INT_MAX or, when a negative number was given, within 2^31
    of the top of [size_t]; the casts [(int)msg_size] and back to
    [size_t] that every turn of the loop applies leave it unchanged. *)
Theorem server_args_ranges default_port argv cfg :
  is_int default_port ->
  server_args (server_defaults default_port) argv = Defined cfg ->
  is_int (port cfg)
  /\ is_int (duration cfg)
  /\ (0 <= msgsize cfg <= INT_MAX
      \/ 2 ^ 64 - 2 ^ 31 <= msgsize cfg <= SIZE_MAX)
  /\ size_t_wrap (to_int (msgsize cfg)) = msgsize cfg.
Proof.
  intros Hp H.
  destruct (server_args_ranges_from argv (server_defaults default_port) cfg
              default_msgsize_sized H) as (H1 & H2 & H3).
  split; [exact (H2 Hp) |].
  split.
  { apply H3. unfold is_int, INT_MIN, INT_MAX.
    cbn [duration server_defaults]. unfold DEFAULT_DURATION. lia. }
  split; [exact H1 | apply int_sized_stable; exact H1].
Qed.

Lemma server_args_ranges_witness :
  exists cfg,
    server_args (server_defaults 9000)
                ["--port=8080"%string; "--msgsize=-9"%string; "-v"%string]
    = Defined cfg
    /\ port cfg = 8080 /\ msgsize cfg = 2 ^ 64 - 9
    /\ 2 ^ 64 - 2 ^ 31 <= msgsize cfg <= SIZE_MAX.
Proof.
  destruct (server_args (server_defaults 9000)
              ["--port=8080"%string; "--msgsize=-9"%string; "-v"%string])
    as [cfg |] eqn:E; [| vm_compute in E; discriminate].
  exists cfg. split; [reflexivity |].
  destruct (server_args_ranges 9000
              ["--port=8080"%string; "--msgsize=-9"%string; "-v"%string] cfg)
    as (_ & _ & Hrange & _).
  - vm_compute. split; discriminate.
  - exact E.
  - assert (Hcfg : cfg = {| port := 8080; msgsize := 2 ^ 64 - 9; duration := 10 |})
      by (vm_compute in E; injection E as E; rewrite <- E; reflexivity).
    split; [rewrite Hcfg; reflexivity |].
    split; [rewrite Hcfg; reflexivity |].
    destruct Hrange as [Hsmall | Hbig]; [| exact Hbig].
    rewrite Hcfg in Hsmall. vm_compute in Hsmall.
    destruct Hsmall as [_ Hle]. exfalso. apply Hle. reflexivity.
Defined.

Lemma server_args_app argv1 argv2 :
  forall cfg,
    server_args cfg (argv1 ++ argv2)
    = (cfg' <- server_args cfg argv1 ;; server_args cfg' argv2).
Proof.
  induction argv1 as [| arg argv1 IH]; intros cfg; [reflexivity |].
  cbn [app server_args].
  destruct (server_arg cfg arg) as [cfg1 |]; cbn [bind]; [apply IH | reflexivity].
Qed.

Lemma append_empty_r s : (s ++ EmptyString)%string = s.
Proof. induction s as [| c s IH]; cbn; [| rewrite IH]; reflexivity. Qed.

(** X8 (main of the servers, parse_int_arg): the last [--msgsize=] wins.
    Behind any arguments, [--msgsize=N] with a decimal [N] up to INT_MAX
    sets the message size to [N] and leaves the port and the duration as
    they were; [--msgsize=-N] is accepted as well and sets the message
    size to 2^64 - N. *)
Theorem last_msgsize_wins default_port argv cfg n :
  is_int default_port ->
  server_args (server_defaults default_port) argv = Defined cfg ->
  (0 <= n <= INT_MAX ->
   server_args (server_defaults default_port)
               (argv ++ [("--msgsize=" ++ Codec.decimal n)%string])
   = Defined {| port := port cfg; msgsize := n; duration := duration cfg |})
  /\ (1 <= n <= 2 ^ 31 ->
      server_args (server_defaults default_port)
                  (argv ++ [("--msgsize=-" ++ Codec.decimal n)%string])
      = Defined {| port := port cfg; msgsize := 2 ^ 64 - n;
                   duration := duration cfg |}).
Proof.
  intros Hp H.
  split; intros Hn; rewrite server_args_app, H; cbn [bind server_args];
    unfold server_arg.
  - rewrite (parse_int_arg_ignored _ "--port=") by reflexivity.
    rewrite (parse_int_arg_ignored _ "--duration=") by reflexivity.
    pose proof (parse_int_arg_decimal "--msgsize=" (to_int (msgsize cfg))
                  n EmptyString Hn eq_refl) as Hv.
    rewrite append_empty_r in Hv.
    rewrite Hv. cbn [bind].
    rewrite size_t_wrap_small by (unfold INT_MAX, SIZE_MAX in *; lia).
    reflexivity.
  - rewrite (parse_int_arg_ignored _ "--port=") by reflexivity.
    rewrite (parse_int_arg_ignored _ "--duration=") by reflexivity.
    pose proof (parse_int_arg_minus_decimal "--msgsize="
                  (to_int (msgsize cfg)) n EmptyString
                  ltac:(unfold INT_MIN; lia) eq_refl) as Hv.
    rewrite append_empty_r in Hv.
    change ("--msgsize=-" ++ Codec.decimal n)%string
      with ("--msgsize=" ++ "-" ++ Codec.decimal n)%string.
    rewrite Hv. cbn [bind].
    replace (size_t_wrap (- n)) with (2 ^ 64 - n); [reflexivity |].
    unfold size_t_wrap. apply Z.mod_unique with (q := -1); lia.
Qed.

Lemma last_msgsize_wins_witness :
  server_args (server_defaults 9002)
              ["--duration=5"%string; "--msgsize=64"%string;
               ("--msgsize=" ++ Codec.decimal 4096)%string]
  = Defined {| port := 9002; msgsize := 4096; duration := 5 |}.
Proof.
  refine (proj1 (last_msgsize_wins 9002
                   ["--duration=5"%string; "--msgsize=64"%string]
                   {| port := 9002; msgsize := 64; duration := 5 |} 4096 _ _) _).
  - vm_compute. split; discriminate.
  - vm_compute. reflexivity.
  - vm_compute. split; discriminate.
Defined.

End ArgsFacts.

Module TallyFacts.

Import ZeroCopy Tally CTypesFacts ZeroCopyFacts.













End TallyFacts.

Module LoopFacts.

Import ZeroCopy Tally CTypesFacts ZeroCopyFacts.

(** *** The statistics of the send loop *)

Lemma stats_update_counts s c size latency :
  Stats.total_messages s = size_t_wrap c ->
  Stats.total_bytes s = size_t_wrap (c * size) ->
  Stats.total_messages (Stats.stats_update s size latency) = size_t_wrap (c + 1)
  /\ Stats.total_bytes (Stats.stats_update s size latency)
     = size_t_wrap ((c + 1) * size)
  /\ Stats.start_time_sec (Stats.stats_update s size latency)
     = Stats.start_time_sec s.
Proof.
  intros Hm Hb. cbn [Stats.stats_update Stats.total_messages Stats.total_bytes
                       Stats.start_time_sec].
  rewrite Hm, Hb. unfold size_t_wrap.
  rewrite !Zplus_mod_idemp_l.
  split; [reflexivity | split; [f_equal; lia | reflexivity]].
Qed.

Lemma send_loop_statistics_from zerocopy_enabled frame size errqueue attempts :
  forall st,
    Stats.total_messages (stats st) = size_t_wrap (send_count st) ->
    Stats.total_bytes (stats st) = size_t_wrap (send_count st * size) ->
    let st' := fst (send_loop zerocopy_enabled frame size errqueue attempts st) in
    send_count st <= send_count st'
                  <= send_count st + Z.of_nat (List.length attempts)
    /\ Stats.total_messages (stats st') = size_t_wrap (send_count st')
    /\ Stats.total_bytes (stats st') = size_t_wrap (send_count st' * size)
    /\ Stats.start_time_sec (stats st') = Stats.start_time_sec (stats st).
Proof.
  induction attempts as [| a rest IH]; intros st Hm Hb; cbn [send_loop].
  - cbn [fst List.length]. repeat split; try assumption; lia.
  - destruct (answer a) as [errno | sent].
    + destruct (retryable errno).
      * pose proof (poll_send_count errqueue st) as Hs.
        pose proof (poll_stats errqueue st) as Ht.
        destruct (poll errqueue st) as [[ret st1] acts]. cbn [fst snd] in Hs, Ht.
        specialize (IH st1). rewrite Hs, Ht in IH. specialize (IH Hm Hb).
        destruct (send_loop _ _ _ _ rest st1) as [st2 trace].
        cbn [fst List.length] in *. rewrite Nat2Z.inj_succ.
        destruct IH as (H1 & H2 & H3 & H4). repeat split; try assumption; lia.
      * cbn [fst List.length]. repeat split; try assumption; lia.
    + destruct (sent =? size).
      * destruct (stats_update_counts (stats st) (send_count st) size
                    (send_end a - send_start a)%float Hm Hb) as (Um & Ub & Us).
        match goal with
        | |- context [if ?c then _ else _] => destruct c
        end.
        -- match goal with
           | |- context [poll errqueue ?s] =>
               pose proof (poll_send_count errqueue s) as Hs;
               pose proof (poll_stats errqueue s) as Ht;
               destruct (poll errqueue s) as [[ret st2] acts]
           end.
           cbn [fst snd send_count stats] in Hs, Ht.
           specialize (IH st2). rewrite Hs, Ht in IH. specialize (IH Um Ub).
           destruct (send_loop _ _ _ _ rest st2) as [st3 trace].
           cbn [fst List.length] in *. rewrite Nat2Z.inj_succ.
           destruct IH as (H1 & H2 & H3 & H4).
           repeat split; first [assumption | lia | congruence].
        -- match goal with
           | |- context [send_loop _ _ _ _ rest ?s] =>
               specialize (IH s); cbn [send_count stats] in IH;
               specialize (IH Um Ub);
               destruct (send_loop zerocopy_enabled frame size errqueue rest s)
                 as [st3 trace]
           end.
           cbn [fst List.length] in *. rewrite Nat2Z.inj_succ.
           destruct IH as (H1 & H2 & H3 & H4).
           repeat split; first [assumption | lia | congruence].
      * cbn [fst List.length]. repeat split; try assumption; lia.
Qed.

(** X11 (the send loop, stats_update, stats_print): the send loop keeps
    the statistics in step with the send count.  If the statistics hold as
    many messages as the send count says and that many times the frame
    size as bytes (in [size_t] arithmetic), they still do after any turns
    of the loop that keep the send count within [int]; the send count
    grows by at most one per turn, [stats_print] reports these numbers,
    and the start time is not touched. *)
Theorem send_loop_statistics
    zerocopy_enabled frame size errqueue attempts st now :
  0 <= send_count st ->
  send_count st + Z.of_nat (List.length attempts) <= INT_MAX ->
  Stats.total_messages (stats st) = send_count st ->
  Stats.total_bytes (stats st) = size_t_wrap (send_count st * size) ->
  let st' := fst (send_loop zerocopy_enabled frame size errqueue attempts st) in
  let r := snd (Stats.stats_print (stats st') now) in
  send_count st <= send_count st'
                <= send_count st + Z.of_nat (List.length attempts)
  /\ Stats.total_messages (stats st') = send_count st'
  /\ Stats.total_bytes (stats st') = size_t_wrap (send_count st' * size)
  /\ Stats.printed_messages r = send_count st'
  /\ Stats.printed_bytes r = size_t_wrap (Stats.printed_messages r * size)
  /\ Stats.start_time_sec (stats st') = Stats.start_time_sec (stats st).
Proof.
  intros Hpos Hmax Hm Hb st' r.
  destruct (send_loop_statistics_from zerocopy_enabled frame size errqueue
              attempts st) as (H1 & H2 & H3 & H4).
  { rewrite Hm. symmetry. apply size_t_wrap_small.
    unfold INT_MAX, SIZE_MAX in *. lia. }
  { exact Hb. }
  fold st' in H1, H2, H3, H4.
  assert (Hsmall : size_t_wrap (send_count st') = send_count st').
  { apply size_t_wrap_small. unfold INT_MAX, SIZE_MAX in *. lia. }
  rewrite Hsmall in H2.
  subst r. cbn [Stats.stats_print snd Stats.printed_messages Stats.printed_bytes
                  Stats.total_messages Stats.total_bytes].
  rewrite H2.
  repeat split; try assumption; lia.
Qed.

Lemma send_loop_statistics_witness :
  let st' := fst (send_loop 1 [Byte.x01] 24 Samples.silent
                            Scenarios.three_turns Scenarios.fresh) in
  send_count st' = 2
  /\ Stats.total_messages (stats st') = 2
  /\ Stats.total_bytes (stats st') = 48.
Proof.
  destruct (send_loop_statistics 1 [Byte.x01] 24 Samples.silent
              Scenarios.three_turns Scenarios.fresh 3%float)
    as (_ & Hm & Hb & _).
  - cbn. lia.
  - vm_compute. discriminate.
  - reflexivity.
  - reflexivity.
  - cbn zeta. rewrite Hm, Hb. repeat split.
Defined.

(** *** How often the send loop reads the error queue *)

Lemma hundredth c :
  0 <= c ->
  (if Z.rem (c + 1) 100 =? 0 then 1 else 0) = (c + 1) / 100 - c / 100.
Proof.
  intros Hc. rewrite Z.rem_mod_nonneg by lia.
  destruct ((c + 1) mod 100 =? 0) eqn:E;
    [apply Z.eqb_eq in E | apply Z.eqb_neq in E];
    Z.to_euclidean_division_equations; lia.
Qed.

Lemma poll_counts errqueue st :
  List.length (filter is_recvmsg (snd (poll errqueue st))) = 1%nat
  /\ List.length (filter is_sendmsg (snd (poll errqueue st))) = 0%nat
  /\ polls (snd (fst (poll errqueue st))) = S (polls st).
Proof.
  unfold poll, handle_zerocopy_completions.
  destruct (errqueue (polls st)) as [errno | control].
  - destruct ((errno =? EAGAIN) || (errno =? EWOULDBLOCK)); repeat split.
  - repeat split.
Qed.

Lemma send_loop_reads_from zerocopy_enabled frame size errqueue attempts :
  forall st,
    0 <= send_count st ->
    Forall (fun a => succeeded size a = true \/ held_back a = true) attempts ->
    let st' := fst (send_loop zerocopy_enabled frame size errqueue attempts st) in
    let trace := snd (send_loop zerocopy_enabled frame size errqueue attempts st) in
    send_count st'
    = send_count st + Z.of_nat (List.length (filter (succeeded size) attempts))
    /\ Z.of_nat (List.length (filter is_recvmsg trace))
       = Z.of_nat (List.length (filter held_back attempts))
         + (send_count st' / 100 - send_count st / 100)
    /\ polls st' = (polls st + List.length (filter is_recvmsg trace))%nat
    /\ List.length (filter is_sendmsg trace) = List.length attempts.
Proof.
  induction attempts as [| a rest IH]; intros st Hpos Hall; cbn [send_loop].
  - cbn [fst snd filter List.length]. repeat split; lia.
  - inversion Hall as [| ? ? Ha Hrest]; subst.
    unfold succeeded, held_back in Ha.
    cbn [filter]. unfold succeeded at 1, held_back at 1.
    destruct (answer a) as [errno | sent].
    + destruct Ha as [Ha | Ha]; [discriminate |]. rewrite Ha.
      destruct (poll_counts errqueue st) as (P1 & P2 & P3).
      pose proof (poll_send_count errqueue st) as Hs.
      destruct (poll errqueue st) as [[ret st1] acts]. cbn [fst snd] in *.
      specialize (IH st1). rewrite Hs in IH. specialize (IH Hpos Hrest).
      destruct (send_loop _ _ _ _ rest st1) as [st2 trace].
      cbn [fst snd filter is_sendmsg is_recvmsg List.length] in *.
      rewrite !filter_app, !length_app, P1, P2.
      destruct IH as (H1 & H2 & H3 & H4).
      repeat split; try lia.
    + destruct Ha as [Ha | Ha]; [| discriminate]. rewrite Ha.
      pose proof (hundredth (send_count st) Hpos) as Hh.
      cbn [send_count].
      destruct (Z.rem (send_count st + 1) 100 =? 0).
      * match goal with
        | |- context [poll errqueue ?s] =>
            destruct (poll_counts errqueue s) as (P1 & P2 & P3);
            pose proof (poll_send_count errqueue s) as Hs;
            destruct (poll errqueue s) as [[ret st2] acts]
        end.
        cbn [fst snd send_count polls] in *.
        specialize (IH st2). rewrite Hs in IH.
        specialize (IH ltac:(lia) Hrest).
        destruct (send_loop _ _ _ _ rest st2) as [st3 trace].
        cbn [fst snd filter is_sendmsg is_recvmsg List.length] in *.
        rewrite !filter_app, !length_app, P1, P2.
        destruct IH as (H1 & H2 & H3 & H4).
        repeat split; try lia.
      * match goal with
        | |- context [send_loop _ _ _ _ rest ?s] =>
            specialize (IH s); cbn [send_count polls] in IH;
            specialize (IH ltac:(lia) Hrest);
            destruct (send_loop zerocopy_enabled frame size errqueue rest s)
              as [st3 trace]
        end.
        cbn [fst snd app filter is_sendmsg is_recvmsg List.length] in *.
        destruct IH as (H1 & H2 & H3 & H4).
        repeat split; try lia.
Qed.

(** X12 (the send loop, handle_zerocopy_completions): when the send loop
    reads the error queue.  In a run that keeps the send count within
    [int] and whose turns either send the whole frame or fail with EINTR,
    EAGAIN or ENOBUFS, the send count grows by the number of full sends
    and stays an [int], the error queue is read once for every failed
    turn and once for every hundredth send, and [sendmsg] is called once
    per turn. *)
Theorem send_loop_reads_error_queue
    zerocopy_enabled frame size errqueue attempts st :
  0 <= send_count st ->
  send_count st + Z.of_nat (List.length attempts) <= INT_MAX ->
  Forall (fun a => succeeded size a = true \/ held_back a = true) attempts ->
  let st' := fst (send_loop zerocopy_enabled frame size errqueue attempts st) in
  let trace := snd (send_loop zerocopy_enabled frame size errqueue attempts st) in
  send_count st'
  = send_count st + Z.of_nat (List.length (filter (succeeded size) attempts))
  /\ 0 <= send_count st' <= INT_MAX
  /\ Z.of_nat (List.length (filter is_recvmsg trace))
     = Z.of_nat (List.length (filter held_back attempts))
       + (send_count st' / 100 - send_count st / 100)
  /\ polls st' = (polls st + List.length (filter is_recvmsg trace))%nat
  /\ List.length (filter is_sendmsg trace) = List.length attempts.
Proof.
  intros Hpos Hmax Hall st' trace.
  destruct (send_loop_reads_from zerocopy_enabled frame size errqueue attempts
              st Hpos Hall) as (H1 & H2 & H3 & H4).
  fold st' in H1, H2, H3. fold trace in H2, H3, H4.
  split; [exact H1 |].
  split.
  { rewrite H1.
    pose proof (filter_length_le (succeeded size) attempts) as Hle. lia. }
  split; [exact H2 | split; [exact H3 | exact H4]].
Qed.

Lemma send_loop_reads_error_queue_witness :
  let run := send_loop 1 [Byte.x01] 24 Samples.silent
                       Scenarios.three_turns (Samples.progress 99 0) in
  send_count (fst run) = 101
  /\ List.length (filter is_recvmsg (snd run)) = 2%nat
  /\ List.length (filter is_sendmsg (snd run)) = 3%nat.
Proof.
  destruct (send_loop_reads_error_queue 1 [Byte.x01] 24 Samples.silent
              Scenarios.three_turns (Samples.progress 99 0))
    as (Hs & _ & Hr & _ & Hc).
  - cbn. lia.
  - vm_compute. discriminate.
  - unfold Scenarios.three_turns. cbn [map].
    repeat (constructor;
            [first [left; reflexivity | right; reflexivity] |]).
    constructor.
  - cbn zeta. rewrite Hs, Hc. split; [reflexivity |].
    split; [| reflexivity].
    apply Nat2Z.inj. rewrite Hr, Hs. reflexivity.
Defined.

End LoopFacts.

Module WorkerFacts.

Import ZeroCopy Tally CTypesFacts ZeroCopyFacts.

(** Members of an explicit list that are no part of the epilogue. *)
Ltac no_epilogue := repeat (constructor; [reflexivity |]); constructor.

Lemma poll_no_epilogue errqueue st :
  Forall (fun a => is_epilogue a = false) (snd (poll errqueue st)).
Proof.
  unfold poll, handle_zerocopy_completions.
  destruct (errqueue (polls st)) as [errno | control].
  - destruct ((errno =? EAGAIN) || (errno =? EWOULDBLOCK)); cbn [snd];
      no_epilogue.
  - cbn [snd]. no_epilogue.
Qed.

Lemma send_loop_no_epilogue zerocopy_enabled frame size errqueue attempts :
  forall st,
    Forall (fun a => is_epilogue a = false)
           (snd (send_loop zerocopy_enabled frame size errqueue attempts st)).
Proof.
  induction attempts as [| a rest IH]; intros st; cbn [send_loop];
    [constructor |].
  destruct (answer a) as [errno | sent].
  - destruct (retryable errno).
    + pose proof (poll_no_epilogue errqueue st) as Hp.
      destruct (poll errqueue st) as [[ret st1] acts].
      specialize (IH st1).
      destruct (send_loop _ _ _ _ rest st1) as [st2 trace].
      cbn [snd] in *. constructor; [reflexivity |].
      apply Forall_app; split; assumption.
    + cbn [snd]. no_epilogue.
  - destruct (sent =? size).
    + match goal with
      | |- context [if ?c then _ else _] => destruct c
      end.
      * match goal with
        | |- context [poll errqueue ?s] =>
            pose proof (poll_no_epilogue errqueue s) as Hp;
            destruct (poll errqueue s) as [[ret st2] acts]
        end.
        specialize (IH st2).
        destruct (send_loop _ _ _ _ rest st2) as [st3 trace].
        cbn [snd] in *. constructor; [reflexivity |].
        apply Forall_app; split; assumption.
      * match goal with
        | |- context [send_loop _ _ _ _ rest ?s] => specialize (IH s);
            destruct (send_loop zerocopy_enabled frame size errqueue rest s)
              as [st3 trace]
        end.
        cbn [snd app] in *. constructor; [reflexivity | exact IH].
    + cbn [snd]. no_epilogue.
Qed.

Lemma drain_no_epilogue fuel zerocopy_enabled errqueue st st' trace :
  drain fuel zerocopy_enabled errqueue st = Some (st', trace) ->
  Forall (fun a => is_epilogue a = false) trace /\ stats st' = stats st.
Proof.
  unfold drain. destruct (zerocopy_enabled =? 0).
  - intros [= <- <-]. split; [constructor | reflexivity].
  - destruct (drain_loop fuel errqueue st) as [[st2 tr] |] eqn:E; [| discriminate].
    intros [= <- <-].
    destruct (drain_loop_result _ _ _ _ _ E) as (_ & _ & Hstats & Hq).
    split; [| exact Hstats].
    constructor; [reflexivity |].
    apply Forall_app; split.
    + eapply Forall_impl; [| exact Hq].
      intros a [-> | [-> | ->]]; reflexivity.
    + no_epilogue.
Qed.

Lemma library_no_epilogue log :
  Forall (fun a => is_epilogue a = false) (map Library log).
Proof. induction log; cbn [map]; constructor; [reflexivity | assumption]. Qed.

Lemma probe_no_epilogue r :
  Forall (fun a => is_epilogue a = false) (snd (check_zerocopy_support r)).
Proof.
  destruct r as [| errno]; cbn [check_zerocopy_support];
    [| destruct (errno =? ENOPROTOOPT)]; cbn [snd]; no_epilogue.
Qed.

(** The prologue either hands over a frame, having done nothing of the
    epilogue, or gives up and closes the socket as its last step. *)
Lemma prepare_frame_shape env msg_size r acts :
  prepare_frame env msg_size = Defined (r, acts) ->
  match r with
  | Some _ => Forall (fun a => is_epilogue a = false) acts
  | None => exists before,
              acts = before ++ [Close]
              /\ Forall (fun a => is_epilogue a = false) before
  end.
Proof.
  unfold prepare_frame.
  destruct (AlignedBuffer.allocate _ _) as [region |].
  2:{ intros [= <- <-]. exists [Print Perror_posix_memalign].
      split; [reflexivity | no_epilogue]. }
  destruct (Codec.msg_alloc _ _) as [[msg |] log].
  2:{ intros [= <- <-]. exists (map Library log).
      split; [reflexivity | apply library_no_epilogue]. }
  destruct (Codec.msg_serialize _ _ _) as [[[sz buf] log'] |]; cbn [bind];
    [| discriminate].
  destruct (sz <? 0); intros [= <- <-].
  - exists (map Library (log ++ log')).
    split; [reflexivity | apply library_no_epilogue].
  - apply library_no_epilogue.
Qed.

Lemma no_epilogue_no_close l :
  Forall (fun a => is_epilogue a = false) l ->
  Forall (fun a => is_close a = false) l.
Proof.
  apply Forall_impl. intros a H. destruct a; try reflexivity; discriminate.
Qed.

Lemma no_epilogue_no_statistics l :
  Forall (fun a => is_epilogue a = false) l ->
  Forall (fun a => is_statistics a = false) l.
Proof.
  apply Forall_impl. intros a H.
  destruct a as [| | | | | | | l0 | |]; try reflexivity.
  destruct l0; try reflexivity; discriminate.
Qed.

(** X13 (client_handler, sender_thread): a worker closes its socket
    exactly once, at its end.  Every trace of a returning worker is
    [before ++ Close :: after] with no [close] in [before] and nothing
    behind it but the goodbye line; the one exception is the client
    thread whose [socket] call failed, which has no descriptor and closes
    nothing. *)
Theorem workers_close_once fuel env msg_size global :
  (forall trace,
     client_handler fuel env msg_size = Defined (Some trace) ->
     exists before after,
       trace = before ++ Close :: after
       /\ Forall (fun a => is_close a = false) before
       /\ (after = [] \/ after = [Print Disconnected]))
  /\ (forall trace g,
        sender_thread fuel env msg_size global = Defined (Some (trace, g)) ->
        (env_socket env = false
         /\ trace = [Print Connecting; Socket; Print Perror_socket])
        \/ (env_socket env = true
            /\ exists before after,
                 trace = before ++ Close :: after
                 /\ Forall (fun a => is_close a = false) before
                 /\ (after = [] \/ after = [Print Disconnected]))).
Proof.
  split.
  - intros trace. unfold client_handler.
    pose proof (probe_no_epilogue (env_setsockopt env)) as Hprobe.
    destruct (check_zerocopy_support (env_setsockopt env)) as [enabled probe].
    cbn [snd] in Hprobe. apply no_epilogue_no_close in Hprobe.
    destruct (enabled <? 0).
    { intros [= <-]. exists (Print Client_connected :: probe), [].
      split; [reflexivity | split; [| left; reflexivity]].
      constructor; [reflexivity | exact Hprobe]. }
    assert (Hbanner : Forall (fun a => is_close a = false)
                             (if enabled =? 0 then [Print Warning_regular_sendmsg]
                              else [Print Zerocopy_enabled]))
      by (destruct (enabled =? 0); repeat constructor).
    destruct (prepare_frame env msg_size) as [[[[frame size] |] acts] |] eqn:Ep;
      cbn [bind]; [| | discriminate].
    + pose proof (prepare_frame_shape _ _ _ _ Ep) as Hacts. cbn beta iota in Hacts.
      pose proof (send_loop_no_epilogue enabled frame size (env_errqueue env)
                    (env_attempts env)
                    {| send_count := 0; completion_count := 0;
                       stats := Stats.stats_init (env_stats_start env);
                       polls := 0 |}) as Hsent.
      destruct (send_loop _ _ _ _ _ _) as [st1 sent]. cbn [snd] in Hsent.
      destruct (drain fuel enabled (env_errqueue env) st1) as [[st2 drained] |] eqn:Ed;
        [| discriminate].
      destruct (drain_no_epilogue _ _ _ _ _ _ Ed) as [Hdr _].
      destruct (Stats.stats_print _ _) as [s r]. intros [= <-].
      exists ((Print Client_connected :: probe)
                ++ (if enabled =? 0 then [Print Warning_regular_sendmsg]
                    else [Print Zerocopy_enabled])
                ++ acts ++ sent ++ drained ++ [Print (Statistics r)]),
        [Print Disconnected].
      split; [rewrite <- !app_assoc; reflexivity |].
      split; [| right; reflexivity].
      apply Forall_app; split; [constructor; [reflexivity | exact Hprobe] |].
      apply Forall_app; split; [exact Hbanner |].
      apply Forall_app; split; [apply no_epilogue_no_close; exact Hacts |].
      apply Forall_app; split; [apply no_epilogue_no_close; exact Hsent |].
      apply Forall_app; split; [apply no_epilogue_no_close; exact Hdr |].
      repeat constructor.
    + destruct (prepare_frame_shape _ _ _ _ Ep) as (before & -> & Hbefore).
      intros [= <-].
      exists ((Print Client_connected :: probe)
                ++ (if enabled =? 0 then [Print Warning_regular_sendmsg]
                    else [Print Zerocopy_enabled])
                ++ before), [].
      split; [rewrite <- !app_assoc; reflexivity |].
      split; [| left; reflexivity].
      apply Forall_app; split; [constructor; [reflexivity | exact Hprobe] |].
      apply Forall_app; split; [exact Hbanner |].
      apply no_epilogue_no_close; exact Hbefore.
  - intros trace g. unfold sender_thread.
    destruct (env_socket env); cbn [negb].
    2:{ intros [= <- <-]. left. split; reflexivity. }
    intros H. right. split; [reflexivity |]. revert H.
    pose proof (probe_no_epilogue (env_setsockopt env)) as Hprobe.
    destruct (check_zerocopy_support (env_setsockopt env)) as [enabled probe].
    cbn [snd] in Hprobe. apply no_epilogue_no_close in Hprobe.
    assert (Hstart : Forall (fun a => is_close a = false)
                            (Print Connecting :: Socket :: probe))
      by (repeat (constructor; [reflexivity |]); exact Hprobe).
    destruct (enabled <? 0).
    { intros [= <- <-]. exists (Print Connecting :: Socket :: probe), [].
      split; [reflexivity | split; [exact Hstart | left; reflexivity]]. }
    assert (Hbanner : Forall (fun a => is_close a = false)
                             (if enabled =? 0 then [Print Warning_regular_sendmsg]
                              else [Print Zerocopy_enabled]))
      by (destruct (enabled =? 0); repeat constructor).
    destruct (env_inet_pton env); cbn [negb].
    2:{ intros [= <- <-].
        exists ((Print Connecting :: Socket :: probe)
                  ++ (if enabled =? 0 then [Print Warning_regular_sendmsg]
                      else [Print Zerocopy_enabled])
                  ++ [Print Invalid_host_address]), [].
        split; [rewrite <- !app_assoc; reflexivity |].
        split; [| left; reflexivity].
        apply Forall_app; split; [exact Hstart |].
        apply Forall_app; split; [exact Hbanner | repeat constructor]. }
    destruct (env_connect env); cbn [negb].
    2:{ intros [= <- <-].
        exists ((Print Connecting :: Socket :: probe)
                  ++ (if enabled =? 0 then [Print Warning_regular_sendmsg]
                      else [Print Zerocopy_enabled])
                  ++ [Connect; Print Perror_connect]), [].
        split; [rewrite <- !app_assoc; reflexivity |].
        split; [| left; reflexivity].
        apply Forall_app; split; [exact Hstart |].
        apply Forall_app; split; [exact Hbanner | repeat constructor]. }
    destruct (prepare_frame env msg_size) as [[[[frame size] |] acts] |] eqn:Ep;
      cbn [bind]; [| | discriminate].
    + pose proof (prepare_frame_shape _ _ _ _ Ep) as Hacts. cbn beta iota in Hacts.
      pose proof (send_loop_no_epilogue enabled frame size (env_errqueue env)
                    (env_attempts env)
                    {| send_count := 0; completion_count := 0;
                       stats := Stats.stats_init (env_stats_start env);
                       polls := 0 |}) as Hsent.
      destruct (send_loop _ _ _ _ _ _) as [st1 sent]. cbn [snd] in Hsent.
      destruct (drain fuel enabled (env_errqueue env) st1) as [[st2 drained] |] eqn:Ed;
        [| discriminate].
      destruct (drain_no_epilogue _ _ _ _ _ _ Ed) as [Hdr _].
      destruct (Stats.stats_print _ _) as [s r]. intros [= <- <-].
      exists ((Print Connecting :: Socket :: probe)
                ++ (if enabled =? 0 then [Print Warning_regular_sendmsg]
                    else [Print Zerocopy_enabled])
                ++ [Connect; Setsockopt_nodelay; Print Connected_to_server]
                ++ acts ++ sent ++ drained ++ [Print (Statistics r)]),
        [Print Disconnected].
      split; [rewrite <- !app_assoc; reflexivity |].
      split; [| right; reflexivity].
      apply Forall_app; split; [exact Hstart |].
      apply Forall_app; split; [exact Hbanner |].
      apply Forall_app; split; [repeat constructor |].
      apply Forall_app; split; [apply no_epilogue_no_close; exact Hacts |].
      apply Forall_app; split; [apply no_epilogue_no_close; exact Hsent |].
      apply Forall_app; split; [apply no_epilogue_no_close; exact Hdr |].
      repeat constructor.
    + destruct (prepare_frame_shape _ _ _ _ Ep) as (before & -> & Hbefore).
      intros [= <- <-].
      exists ((Print Connecting :: Socket :: probe)
                ++ (if enabled =? 0 then [Print Warning_regular_sendmsg]
                    else [Print Zerocopy_enabled])
                ++ [Connect; Setsockopt_nodelay; Print Connected_to_server]
                ++ before), [].
      split; [rewrite <- !app_assoc; reflexivity |].
      split; [| left; reflexivity].
      apply Forall_app; split; [exact Hstart |].
      apply Forall_app; split; [exact Hbanner |].
      apply Forall_app; split; [repeat constructor |].
      apply no_epilogue_no_close; exact Hbefore.
Qed.

(** X14 (sender_thread): what a client thread adds to the global
    statistics.  A returning thread either leaves the global statistics
    as they were and prints no statistics, or prints its statistics
    exactly once and has added the bytes
    and messages of that report to the global totals, in [size_t]
    arithmetic; the global start and end times are never written. *)
Theorem sender_thread_adds_its_totals fuel env msg_size global trace g :
  sender_thread fuel env msg_size global = Defined (Some (trace, g)) ->
  Stats.start_time_sec g = Stats.start_time_sec global
  /\ Stats.end_time_sec g = Stats.end_time_sec global
  /\ ((g = global /\ Forall (fun a => is_statistics a = false) trace)
      \/ exists before r after,
           trace = before ++ Print (Statistics r) :: after
           /\ Forall (fun a => is_statistics a = false) before
           /\ Forall (fun a => is_statistics a = false) after
           /\ Stats.total_bytes g
              = size_t_wrap (Stats.total_bytes global + Stats.printed_bytes r)
           /\ Stats.total_messages g
              = size_t_wrap (Stats.total_messages global
                             + Stats.printed_messages r)).
Proof.
  unfold sender_thread.
  destruct (env_socket env); cbn [negb].
  2:{ intros [= <- <-]. split; [reflexivity | split; [reflexivity |]].
      left. split; [reflexivity | repeat constructor]. }
  pose proof (probe_no_epilogue (env_setsockopt env)) as Hprobe.
  destruct (check_zerocopy_support (env_setsockopt env)) as [enabled probe].
  cbn [snd] in Hprobe. apply no_epilogue_no_statistics in Hprobe.
  assert (Hstart : Forall (fun a => is_statistics a = false)
                          (Print Connecting :: Socket :: probe))
    by (repeat (constructor; [reflexivity |]); exact Hprobe).
  destruct (enabled <? 0).
  { intros [= <- <-]. split; [reflexivity | split; [reflexivity |]].
    left. split; [reflexivity |].
    do 2 (constructor; [reflexivity |]).
    apply Forall_app; split; [exact Hprobe | repeat constructor]. }
  assert (Hbanner : Forall (fun a => is_statistics a = false)
                           (if enabled =? 0 then [Print Warning_regular_sendmsg]
                            else [Print Zerocopy_enabled]))
    by (destruct (enabled =? 0); repeat constructor).
  destruct (env_inet_pton env); cbn [negb].
  2:{ intros [= <- <-]. split; [reflexivity | split; [reflexivity |]].
      left. split; [reflexivity |].
      do 2 (constructor; [reflexivity |]).
      apply Forall_app; split; [exact Hprobe |].
      apply Forall_app; split; [exact Hbanner | repeat constructor]. }
  destruct (env_connect env); cbn [negb].
  2:{ intros [= <- <-]. split; [reflexivity | split; [reflexivity |]].
      left. split; [reflexivity |].
      do 2 (constructor; [reflexivity |]).
      apply Forall_app; split; [exact Hprobe |].
      apply Forall_app; split; [exact Hbanner | repeat constructor]. }
  destruct (prepare_frame env msg_size) as [[[[frame size] |] acts] |] eqn:Ep;
    cbn [bind]; [| | discriminate].
  - pose proof (prepare_frame_shape _ _ _ _ Ep) as Hacts. cbn beta iota in Hacts.
    pose proof (send_loop_no_epilogue enabled frame size (env_errqueue env)
                  (env_attempts env)
                  {| send_count := 0; completion_count := 0;
                     stats := Stats.stats_init (env_stats_start env);
                     polls := 0 |}) as Hsent.
    destruct (send_loop _ _ _ _ _ _) as [st1 sent]. cbn [snd] in Hsent.
    destruct (drain fuel enabled (env_errqueue env) st1) as [[st2 drained] |] eqn:Ed;
      [| discriminate].
    destruct (drain_no_epilogue _ _ _ _ _ _ Ed) as [Hdr _].
    intros [= <- <-].
    split; [reflexivity | split; [reflexivity |]].
    right.
    exists ((Print Connecting :: Socket :: probe)
              ++ (if enabled =? 0 then [Print Warning_regular_sendmsg]
                  else [Print Zerocopy_enabled])
              ++ [Connect; Setsockopt_nodelay; Print Connected_to_server]
              ++ acts ++ sent ++ drained),
      (snd (Stats.stats_print (stats st2) (env_stats_end env))),
      [Close; Print Disconnected].
    split; [rewrite <- !app_assoc; reflexivity |].
    split.
    { apply Forall_app; split; [exact Hstart |].
      apply Forall_app; split; [exact Hbanner |].
      apply Forall_app; split; [repeat constructor |].
      apply Forall_app; split; [apply no_epilogue_no_statistics; exact Hacts |].
      apply Forall_app; split; [apply no_epilogue_no_statistics; exact Hsent |].
      apply no_epilogue_no_statistics; exact Hdr. }
    split; [repeat constructor |].
    split; reflexivity.
  - destruct (prepare_frame_shape _ _ _ _ Ep) as (before & -> & Hbefore).
    intros [= <- <-]. split; [reflexivity | split; [reflexivity |]].
    left. split; [reflexivity |].
    do 2 (constructor; [reflexivity |]).
    apply Forall_app; split; [exact Hprobe |].
    apply Forall_app; split; [exact Hbanner |].
    do 3 (constructor; [reflexivity |]).
    apply Forall_app; split;
      [apply no_epilogue_no_statistics; exact Hbefore | repeat constructor].
Qed.

Lemma sender_thread_adds_its_totals_witness :
  exists trace g,
    sender_thread 0
      (Samples.world (SetsockoptError ENOPROTOOPT) [SendmsgOk 24; SendmsgOk 24]
                     Samples.silent) 16 (Scenarios.totals 1000 10)
    = Defined (Some (trace, g))
    /\ Stats.start_time_sec g = 0%float
    /\ Stats.end_time_sec g = 0%float
    /\ ((g = Scenarios.totals 1000 10
         /\ Forall (fun a => is_statistics a = false) trace)
        \/ exists before r after,
             trace = before ++ Print (Statistics r) :: after
             /\ Forall (fun a => is_statistics a = false) before
             /\ Forall (fun a => is_statistics a = false) after
             /\ Stats.total_bytes g
                = size_t_wrap (1000 + Stats.printed_bytes r)
             /\ Stats.total_messages g
                = size_t_wrap (10 + Stats.printed_messages r)).
Proof.
  destruct (sender_thread 0
              (Samples.world (SetsockoptError ENOPROTOOPT)
                             [SendmsgOk 24; SendmsgOk 24] Samples.silent)
              16 (Scenarios.totals 1000 10))
    as [[[trace g] |] |] eqn:E; [| vm_compute in E; discriminate ..].
  exists trace, g. split; [reflexivity |].
  exact (sender_thread_adds_its_totals _ _ _ _ _ _ E).
Defined.

End WorkerFacts.

Module MergeFacts.

Import Stats CTypesFacts.

Lemma merged_totals locals :
  forall global,
    size_t_wrap (total_bytes (fold_left stats_merge locals global))
    = size_t_wrap (total_bytes global
                   + fold_right Z.add 0 (map total_bytes locals))
    /\ size_t_wrap (total_messages (fold_left stats_merge locals global))
       = size_t_wrap (total_messages global
                      + fold_right Z.add 0 (map total_messages locals))
    /\ (locals <> [] ->
        is_size_t (total_bytes (fold_left stats_merge locals global))
        /\ is_size_t (total_messages (fold_left stats_merge locals global)))
    /\ start_time_sec (fold_left stats_merge locals global)
       = start_time_sec global
    /\ end_time_sec (fold_left stats_merge locals global) = end_time_sec global.
Proof.
  induction locals as [| s locals IH]; intros global; cbn [fold_left map fold_right].
  - rewrite !Z.add_0_r. repeat split; congruence.
  - destruct (IH (stats_merge global s)) as (Hb & Hm & Hr & Hs & He).
    cbn [stats_merge total_bytes total_messages start_time_sec end_time_sec]
      in Hb, Hm, Hs, He.
    split; [| split; [| split; [| split]]].
    + rewrite Hb. unfold size_t_wrap. rewrite Zplus_mod_idemp_l. f_equal. lia.
    + rewrite Hm. unfold size_t_wrap. rewrite Zplus_mod_idemp_l. f_equal. lia.
    + intros _. destruct locals as [| s' locals].
      * cbn [fold_left stats_merge total_bytes total_messages].
        unfold is_size_t, size_t_wrap, SIZE_MAX.
        pose proof (Z.mod_pos_bound (total_bytes global + total_bytes s) (2 ^ 64)
                      ltac:(lia)).
        pose proof (Z.mod_pos_bound (total_messages global + total_messages s)
                      (2 ^ 64) ltac:(lia)).
        lia.
      * apply Hr. discriminate.
    + exact Hs.
    + exact He.
Qed.

Lemma sum_permutation (l1 l2 : list Z) :
  Permutation l1 l2 -> fold_right Z.add 0 l1 = fold_right Z.add 0 l2.
Proof.
  induction 1 as [| x l1 l2 _ IH | x y l | l1 l2 l3 _ IH1 _ IH2];
    cbn [fold_right]; lia.
Qed.

(** X15 (the merge into the global statistics in sender_thread): the
    totals do not depend on the order in which the threads take the lock.
    Merging the same local statistics in any two orders gives the same
    bytes and messages, namely the global totals plus the sums of the
    locals, in [size_t] arithmetic, and leaves the start time alone. *)
Theorem stats_merge_order_independent global locals1 locals2 :
  Permutation locals1 locals2 ->
  is_size_t (total_bytes global) ->
  is_size_t (total_messages global) ->
  let g1 := fold_left stats_merge locals1 global in
  let g2 := fold_left stats_merge locals2 global in
  total_bytes g1 = total_bytes g2
  /\ total_messages g1 = total_messages g2
  /\ total_bytes g1
     = size_t_wrap (total_bytes global
                    + fold_right Z.add 0 (map total_bytes locals1))
  /\ total_messages g1
     = size_t_wrap (total_messages global
                    + fold_right Z.add 0 (map total_messages locals1))
  /\ start_time_sec g1 = start_time_sec global
  /\ start_time_sec g2 = start_time_sec global.
Proof.
  intros Hperm Hb Hm g1 g2.
  assert (Hclosed : forall locals,
             total_bytes (fold_left stats_merge locals global)
             = size_t_wrap (total_bytes global
                            + fold_right Z.add 0 (map total_bytes locals))
             /\ total_messages (fold_left stats_merge locals global)
                = size_t_wrap (total_messages global
                               + fold_right Z.add 0 (map total_messages locals))).
  { intros locals.
    destruct (merged_totals locals global) as (H1 & H2 & H3 & _).
    destruct locals as [| s locals].
    - cbn [fold_left map fold_right]. rewrite !Z.add_0_r.
      split; symmetry; apply size_t_wrap_small; assumption.
    - destruct (H3 ltac:(discriminate)) as [R1 R2].
      rewrite <- H1, <- H2.
      split; symmetry; apply size_t_wrap_small; assumption. }
  destruct (Hclosed locals1) as [B1 M1]. destruct (Hclosed locals2) as [B2 M2].
  destruct (merged_totals locals1 global) as (_ & _ & _ & S1 & _).
  destruct (merged_totals locals2 global) as (_ & _ & _ & S2 & _).
  subst g1 g2.
  rewrite B1, B2, M1, M2.
  rewrite (sum_permutation _ _ (Permutation_map total_bytes Hperm)).
  rewrite (sum_permutation _ _ (Permutation_map total_messages Hperm)).
  repeat split; assumption.
Qed.

Lemma stats_merge_order_independent_witness :
  let a := Scenarios.totals 100 1 in
  let b := Scenarios.totals (2 ^ 64 - 50) 7 in
  let g := Scenarios.totals 10 0 in
  total_bytes (fold_left stats_merge [a; b] g)
  = total_bytes (fold_left stats_merge [b; a] g)
  /\ total_bytes (fold_left stats_merge [a; b] g) = 60.
Proof.
  intros a b g.
  destruct (stats_merge_order_independent g [a; b] [b; a])
    as (Hsame & _ & Hsum & _).
  - apply perm_swap.
  - vm_compute. split; discriminate.
  - vm_compute. split; discriminate.
  - split; [exact Hsame |]. rewrite Hsum. reflexivity.
Defined.

End MergeFacts.

Module SafetyFacts.

Import Codec Release ZeroCopy CTypesFacts CodecFacts ReleaseFacts.

(** What [msg_alloc] hands out is a message of eight live fields of
    [field_size] bytes. *)
Lemma msg_alloc_well_formed alloc fsz msg log :
  0 <= fsz ->
  sizeof_message_t + NUM_FIELDS * fsz <= SIZE_MAX ->
  msg_alloc alloc fsz = (Some msg, log) ->
  field_size msg = fsz /\ well_formed msg.
Proof.
  intros Hpos Hfit H. unfold msg_alloc in H.
  destruct (alloc 0%nat sizeof_message_t) as [junk0 |]; [| discriminate].
  destruct (alloc_fields_some _ _ _ _ _ _ _ H) as (Hsize & _ & blocks & Hf & Hall).
  split; [exact Hsize |].
  unfold well_formed. rewrite Hsize.
  split; [exact Hpos | split; [exact Hfit |]].
  exists blocks. split; [exact Hf |].
  split.
  - apply Forall2_length in Hall. rewrite <- Hall. apply length_seq.
  - clear - Hall Hpos. induction Hall as [| i blk idx blocks (junk & _ & ->) _ IH];
      constructor; [apply snprintf_length; exact Hpos | exact IH].
Qed.

Lemma msg_alloc_refuses_huge alloc fsz bound :
  (forall k n, bound <= n -> alloc k n = None) ->
  bound <= fsz ->
  fst (msg_alloc alloc fsz) = None.
Proof.
  intros Halloc Hbig. unfold msg_alloc.
  destruct (alloc 0%nat sizeof_message_t); [| reflexivity].
  unfold field_indices. change (Z.to_nat NUM_FIELDS) with 8%nat.
  cbn [seq alloc_fields]. rewrite (Halloc 1%nat fsz Hbig). reflexivity.
Qed.

(** Serializing the message of a worker into a fresh buffer with room
    for the prefix and [msg_size] bytes stays within the buffer and the
    fields. *)
Lemma serialize_defined alloc msg_size msg log junk capacity :
  Args.int_sized msg_size ->
  (forall k n, 2 ^ 47 <= n -> alloc k n = None) ->
  msg_alloc alloc (msg_size / NUM_FIELDS) = (Some msg, log) ->
  (0 <= msg_size <= INT_MAX -> sizeof_size_t + msg_size <= capacity) ->
  0 <= msg_size <= INT_MAX
  /\ msg_serialize msg (fresh_block junk capacity) capacity <> Undefined.
Proof.
  intros Hsized Halloc Ea Hroom.
  assert (Hn : NUM_FIELDS = 8) by reflexivity.
  assert (Hs : sizeof_size_t = 8) by reflexivity.
  assert (Hm : sizeof_message_t = 72) by reflexivity.
  assert (Hi : INT_MAX = 2 ^ 31 - 1) by reflexivity.
  assert (Hx : SIZE_MAX = 2 ^ 64 - 1) by reflexivity.
  destruct Hsized as [Hsmall | Hbig].
  - split; [exact Hsmall |].
    specialize (Hroom Hsmall).
    set (fsz := msg_size / NUM_FIELDS) in *.
    assert (Hdiv : msg_size = NUM_FIELDS * fsz + msg_size mod NUM_FIELDS)
      by (apply Z.div_mod; lia).
    assert (Hrem : 0 <= msg_size mod NUM_FIELDS < NUM_FIELDS)
      by (apply Z.mod_pos_bound; lia).
    assert (Hfsz : 0 <= fsz) by (apply Z.div_pos; lia).
    destruct (msg_alloc_well_formed _ _ _ _ Hfsz ltac:(lia) Ea) as [Hsize Hwf].
    rewrite msg_serialize_ok;
      [discriminate | exact Hwf | rewrite Hsize; lia
       | rewrite ZeroCopyFacts.fresh_block_length; lia].
  - exfalso.
    assert (Hhuge : 2 ^ 47 <= msg_size / NUM_FIELDS).
    { apply Z.div_le_lower_bound; lia. }
    pose proof (msg_alloc_refuses_huge alloc _ _ Halloc Hhuge) as Hnone.
    rewrite Ea in Hnone. discriminate.
Qed.

(** The page-aligned buffer of a worker has room for the prefix and
    [msg_size] bytes. *)
Lemma aligned_extent_covers msg_size :
  0 <= msg_size <= INT_MAX ->
  sizeof_size_t + msg_size
  <= AlignedBuffer.aligned_size (AlignedBuffer.buffer_size msg_size).
Proof.
  intros Hsize.
  assert (Hs : sizeof_size_t = 8) by reflexivity.
  assert (Hp : AlignedBuffer.PAGE_SIZE = 4096) by reflexivity.
  assert (Hi : INT_MAX = 2 ^ 31 - 1) by reflexivity.
  assert (Hx : SIZE_MAX = 2 ^ 64 - 1) by reflexivity.
  assert (Hb : AlignedBuffer.buffer_size msg_size = sizeof_size_t + msg_size).
  { unfold AlignedBuffer.buffer_size. apply size_t_wrap_small. lia. }
  rewrite Hb, AlignedBufferFacts.aligned_size_exact by lia.
  apply AlignedBufferFacts.round_up_covers. lia.
Qed.

(** X16 (the set-up of the sending workers): building the frame stays
    within defined behaviour for every message size the argument loop can
    produce, provided [malloc] refuses what a 47-bit address space cannot
    hold.  Obtaining the buffer (page-aligned in the zero-copy and
    one-copy workers, [malloc]ed in the two-copy client), [msg_alloc] with
    its [snprintf] into every field and [msg_serialize] into the buffer
    access no byte outside the blocks they were given; this set-up is the
    only part of a worker that writes to memory, so the one-copy and the
    two-copy worker as a whole stay defined. *)
Theorem worker_setup_stays_defined env msg_size global :
  Args.int_sized msg_size ->
  (forall k n, 2 ^ 47 <= n -> env_alloc env k n = None) ->
  prepare_frame env msg_size <> Undefined
  /\ OneCopy.one_copy_sender env msg_size <> Undefined
  /\ TwoCopy.two_copy_sender env msg_size global <> Undefined.
Proof.
  intros Hsized Halloc.
  split; [| split].
  - unfold prepare_frame, AlignedBuffer.allocate.
    destruct (env_memalign env _ _) as [p |]; [| discriminate].
    cbn [AlignedBuffer.extent].
    destruct (msg_alloc (env_alloc env) (msg_size / NUM_FIELDS))
      as [[msg |] log] eqn:Ea; [| discriminate].
    destruct (serialize_defined _ _ _ _ (env_junk env)
                (AlignedBuffer.aligned_size (AlignedBuffer.buffer_size msg_size))
                Hsized Halloc Ea (aligned_extent_covers msg_size))
      as (_ & Hser).
    destruct (msg_serialize msg _ _) as [[[sz buf] log'] |];
      [| congruence].
    cbn [bind]. destruct (sz <? 0); discriminate.
  - unfold OneCopy.one_copy_sender, AlignedBuffer.allocate.
    destruct (env_memalign env _ _) as [p |]; [| discriminate].
    cbn [AlignedBuffer.extent AlignedBuffer.base].
    destruct (msg_alloc (env_alloc env) (msg_size / NUM_FIELDS))
      as [[msg |] log] eqn:Ea; [| discriminate].
    destruct (serialize_defined _ _ _ _ (env_junk env)
                (AlignedBuffer.aligned_size (AlignedBuffer.buffer_size msg_size))
                Hsized Halloc Ea (aligned_extent_covers msg_size))
      as (_ & Hser).
    destruct (msg_serialize msg _ _) as [[[sz buf] log'] |];
      [| congruence].
    cbn [bind]. destruct (sz <? 0); [discriminate |].
    destruct (OneCopy.sendmsg_loop _ _ _ _) as [stats sent].
    destruct (Stats.stats_print _ _) as [s r]. discriminate.
  - unfold TwoCopy.two_copy_sender.
    destruct (env_socket env); cbn [negb]; [| discriminate].
    destruct (env_inet_pton env); cbn [negb]; [| discriminate].
    destruct (env_connect env); cbn [negb]; [| discriminate].
    destruct (msg_alloc (env_alloc env) (msg_size / NUM_FIELDS))
      as [[msg |] log] eqn:Ea; [| discriminate].
    destruct (env_alloc env 9%nat (AlignedBuffer.buffer_size msg_size))
      as [junk |]; [| discriminate].
    destruct (serialize_defined _ _ _ _ junk
                (AlignedBuffer.buffer_size msg_size) Hsized Halloc Ea)
      as (_ & Hser).
    { intros Hsmall. unfold AlignedBuffer.buffer_size.
      rewrite size_t_wrap_small; [lia |].
      unfold INT_MAX, SIZE_MAX, sizeof_size_t in *. lia. }
    destruct (msg_serialize msg _ _) as [[[sz buf] log'] |];
      [| congruence].
    cbn [bind]. destruct (sz <? 0); [discriminate |].
    destruct (TwoCopy.send_loop _ _ _ _) as [stats sent].
    destruct (Stats.stats_print _ _) as [s r]. discriminate.
Qed.

Lemma worker_setup_stays_defined_witness :
  prepare_frame Scenarios.bounded_world (2 ^ 64 - 9) <> Undefined
  /\ OneCopy.one_copy_sender Scenarios.bounded_world (2 ^ 64 - 9) <> Undefined
  /\ TwoCopy.two_copy_sender Scenarios.bounded_world (2 ^ 64 - 9)
                             (Scenarios.totals 0 0) <> Undefined.
Proof.
  apply worker_setup_stays_defined.
  - right. vm_compute. split; discriminate.
  - intros k n Hn. cbn [env_alloc Scenarios.bounded_world].
    unfold Samples.refuses_huge.
    destruct (n <? 2 ^ 47) eqn:E; [apply Z.ltb_lt in E; lia | reflexivity].
Defined.

End SafetyFacts.

Module OneCopyFacts.

Import Codec Release OneCopy CTypesFacts ReleaseFacts.

Lemma zero_copy_calls_app l1 l2 :
  zero_copy_sendmsg_calls (l1 ++ l2)
  = zero_copy_sendmsg_calls l1 ++ zero_copy_sendmsg_calls l2.
Proof.
  induction l1 as [| a l1 IH]; [reflexivity |].
  destruct a; cbn [app zero_copy_sendmsg_calls]; rewrite IH; reflexivity.
Qed.

Lemma poll_makes_no_call errqueue st :
  zero_copy_sendmsg_calls (snd (ZeroCopy.poll errqueue st)) = [].
Proof.
  unfold ZeroCopy.poll, ZeroCopy.handle_zerocopy_completions.
  destruct (errqueue (ZeroCopy.polls st)) as [errno | control].
  - destruct ((errno =? ZeroCopy.EAGAIN) || (errno =? ZeroCopy.EWOULDBLOCK));
      reflexivity.
  - reflexivity.
Qed.

Lemma retryable_without_enobufs errno :
  errno <> ZeroCopy.ENOBUFS ->
  ZeroCopy.retryable errno
  = (errno =? ZeroCopy.EINTR) || (errno =? ZeroCopy.EAGAIN).
Proof.
  intros H. unfold ZeroCopy.retryable.
  apply Z.eqb_neq in H. rewrite H. apply orb_false_r.
Qed.

(** X17 (the send loops of the zero-copy and of the one-copy workers):
    without zero-copy support the zero-copy send loop sends like the
    one-copy one.  On the same turns, none of which fails with ENOBUFS,
    both loops keep the same statistics and make the same [sendmsg] calls,
    every one with flags 0 and the one frame (the zero-copy loop reads
    its error queue in between). *)
Theorem fallback_sends_like_one_copy frame size errqueue attempts :
  Forall (fun a => ZeroCopy.answer a
                   <> ZeroCopy.SendmsgError ZeroCopy.ENOBUFS) attempts ->
  forall st,
    let zero := ZeroCopy.send_loop 0 frame size errqueue attempts st in
    let one := sendmsg_loop frame size attempts (ZeroCopy.stats st) in
    ZeroCopy.stats (fst zero) = fst one
    /\ zero_copy_sendmsg_calls (snd zero) = sendmsg_calls (snd one)
    /\ Forall (fun call => call = (0, frame)) (sendmsg_calls (snd one)).
Proof.
  induction 1 as [| a rest Ha _ IH]; intros st; cbn [ZeroCopy.send_loop sendmsg_loop].
  - cbn. repeat split. constructor.
  - change (ZeroCopy.send_flags 0) with 0.
    destruct (ZeroCopy.answer a) as [errno | sent].
    + rewrite retryable_without_enobufs by congruence.
      destruct ((errno =? ZeroCopy.EINTR) || (errno =? ZeroCopy.EAGAIN)).
      * pose proof (ZeroCopyFacts.poll_stats errqueue st) as Ht.
        pose proof (poll_makes_no_call errqueue st) as Hc.
        destruct (ZeroCopy.poll errqueue st) as [[ret st1] acts].
        cbn [fst snd] in Ht, Hc.
        specialize (IH st1). rewrite Ht in IH. cbn zeta in IH.
        destruct (ZeroCopy.send_loop 0 frame size errqueue rest st1) as [st2 trace].
        destruct (sendmsg_loop frame size rest (ZeroCopy.stats st)) as [stats' trace'].
        cbn [fst snd] in *. destruct IH as (H1 & H2 & H3).
        cbn [zero_copy_sendmsg_calls sendmsg_calls].
        rewrite zero_copy_calls_app, Hc. cbn [app].
        split; [exact H1 | split; [f_equal; exact H2 |]].
        constructor; [reflexivity | exact H3].
      * cbn. repeat split. repeat constructor.
    + destruct (sent =? size).
      * cbn [ZeroCopy.send_count].
        destruct (Z.rem (ZeroCopy.send_count st + 1) 100 =? 0).
        -- match goal with
           | |- context [ZeroCopy.poll errqueue ?s] =>
               pose proof (ZeroCopyFacts.poll_stats errqueue s) as Ht;
               pose proof (poll_makes_no_call errqueue s) as Hc;
               destruct (ZeroCopy.poll errqueue s) as [[ret st2] acts]
           end.
           cbn [fst snd ZeroCopy.stats] in Ht, Hc.
           specialize (IH st2). rewrite Ht in IH. cbn zeta in IH.
           destruct (ZeroCopy.send_loop 0 frame size errqueue rest st2) as [st3 trace].
           destruct (sendmsg_loop frame size rest _) as [stats' trace'].
           cbn [fst snd] in *. destruct IH as (H1 & H2 & H3).
           cbn [zero_copy_sendmsg_calls sendmsg_calls].
           rewrite zero_copy_calls_app, Hc. cbn [app].
           split; [exact H1 | split; [f_equal; exact H2 |]].
           constructor; [reflexivity | exact H3].
        -- match goal with
           | |- context [ZeroCopy.send_loop _ _ _ _ rest ?s] =>
               specialize (IH s); cbn [ZeroCopy.stats] in IH; cbn zeta in IH;
               destruct (ZeroCopy.send_loop 0 frame size errqueue rest s)
                 as [st3 trace]
           end.
           destruct (sendmsg_loop frame size rest _) as [stats' trace'].
           cbn [fst snd app] in *. destruct IH as (H1 & H2 & H3).
           cbn [zero_copy_sendmsg_calls sendmsg_calls].
           split; [exact H1 | split; [f_equal; exact H2 |]].
           constructor; [reflexivity | exact H3].
      * cbn. repeat split. repeat constructor.
Qed.

Lemma fallback_sends_like_one_copy_witness :
  let zero := ZeroCopy.send_loop 0 [Byte.x01] 24 Samples.silent
                                 Scenarios.three_turns Scenarios.fresh in
  let one := sendmsg_loop [Byte.x01] 24 Scenarios.three_turns
                          (Stats.stats_init 0%float) in
  ZeroCopy.stats (fst zero) = fst one
  /\ zero_copy_sendmsg_calls (snd zero) = sendmsg_calls (snd one)
  /\ Forall (fun call => call = (0, [Byte.x01])) (sendmsg_calls (snd one)).
Proof.
  refine (fallback_sends_like_one_copy [Byte.x01] 24 Samples.silent
            Scenarios.three_turns _ Scenarios.fresh).
  unfold Scenarios.three_turns. cbn [map].
  repeat (constructor; [vm_compute; discriminate |]). constructor.
Defined.

(** *** What the worker obtains and gives back *)

Lemma library_acquires log :
  List.length (filter acquires (map Library log)) = granted log
  /\ List.length (filter gives_back (map Library log)) = released log
  /\ filter closes_socket (map Library log) = []
  /\ filter frees_args (map Library log) = [].
Proof.
  unfold granted, released.
  induction log as [| e log (H1 & H2 & H3 & H4)]; [repeat split |].
  cbn [map filter acquires gives_back closes_socket frees_args].
  rewrite H3, H4.
  destruct (is_grant e), (is_release e); cbn [List.length];
    rewrite ?H1, ?H2; repeat split.
Qed.

Lemma send_loop_quiet frame size attempts :
  forall stats,
    let trace := snd (sendmsg_loop frame size attempts stats) in
    filter acquires trace = [] /\ filter gives_back trace = []
    /\ filter closes_socket trace = [] /\ filter frees_args trace = [].
Proof.
  induction attempts as [| a rest IH]; intros stats; cbn [sendmsg_loop].
  - repeat split.
  - destruct (ZeroCopy.answer a) as [errno | sent].
    + destruct ((errno =? ZeroCopy.EINTR) || (errno =? ZeroCopy.EAGAIN)).
      * specialize (IH stats). cbn zeta in IH.
        destruct (sendmsg_loop frame size rest stats) as [stats' trace].
        cbn [snd filter acquires gives_back closes_socket frees_args] in *.
        exact IH.
      * repeat split.
    + destruct (sent =? size).
      * match goal with
        | |- context [sendmsg_loop frame size rest ?s] =>
            specialize (IH s); cbn zeta in IH;
            destruct (sendmsg_loop frame size rest s) as [stats' trace]
        end.
        cbn [snd filter acquires gives_back closes_socket frees_args] in *.
        exact IH.
      * repeat split.
Qed.

Lemma msg_alloc_accounts alloc fsz :
  match msg_alloc alloc fsz with
  | (None, log) => granted log = released log
  | (Some msg, log) => granted log = 9%nat /\ released log = 0%nat
  end.
Proof.
  pose proof (msg_alloc_tally alloc fsz) as H.
  destruct (msg_alloc alloc fsz) as [[msg |] log].
  - destruct H as (_ & H1 & H2 & _). split; assumption.
  - destruct H as (_ & H & _). exact H.
Qed.

Lemma msg_serialize_log msg buffer size ret buffer' log :
  msg_serialize msg buffer size = Defined (ret, buffer', log) ->
  granted log = 0%nat /\ released log = 0%nat.
Proof.
  unfold msg_serialize. destruct (size <? total_size (field_size msg)).
  - intros [= <- <- <-]. split; reflexivity.
  - destruct (mem_write _ _ _) as [b1 |]; cbn [bind]; [| discriminate].
    destruct (serialize_fields _ _ _ _) as [b2 |]; cbn [bind]; [| discriminate].
    intros [= <- <- <-]. split; reflexivity.
Qed.

(** Counting over a trace that is given piece by piece. *)
Ltac count_trace :=
  repeat first
    [ progress cbn [app filter acquires gives_back closes_socket frees_args
                      List.length]
    | rewrite filter_app
    | rewrite length_app ].

(** X18 (client_handler of the one-copy server, msg_alloc, msg_free):
    the one-copy worker gives back what it took.  On every path it frees
    as many blocks as it obtained, closes the client socket exactly once
    and frees its thread arguments exactly once, in this order and at the
    very end, followed at most by the goodbye line. *)
Theorem one_copy_worker_releases env msg_size trace :
  one_copy_sender env msg_size = Defined trace ->
  List.length (filter acquires trace) = List.length (filter gives_back trace)
  /\ List.length (filter closes_socket trace) = 1%nat
  /\ List.length (filter frees_args trace) = 1%nat
  /\ exists before after,
       trace = before ++ Close :: Free_args :: after
       /\ (after = [] \/ after = [Print Client_disconnected]).
Proof.
  unfold one_copy_sender.
  destruct (AlignedBuffer.allocate _ _) as [r |].
  2:{ intros [= <-]. repeat split.
      exists [Print Client_connected;
              Posix_memalign (AlignedBuffer.aligned_size
                                (AlignedBuffer.buffer_size msg_size)) false;
              Print Perror_posix_memalign], [].
      split; [reflexivity | left; reflexivity]. }
  pose proof (msg_alloc_accounts (ZeroCopy.env_alloc env) (msg_size / NUM_FIELDS))
    as Halloc.
  destruct (msg_alloc _ _) as [[msg |] log].
  2:{ intros [= <-].
      destruct (library_acquires log) as (L1 & L2 & L3 & L4).
      count_trace. rewrite L1, L2, L3, L4.
      cbn [List.length]. rewrite Halloc.
      split; [lia | split; [reflexivity | split; [reflexivity |]]].
      exists ([Print Client_connected;
                Posix_memalign (AlignedBuffer.aligned_size
                                  (AlignedBuffer.buffer_size msg_size)) true;
                Print (Allocated_aligned_buffer (AlignedBuffer.extent r)
                                                (AlignedBuffer.base r))]
                 ++ map Library log
                 ++ [Print Failed_to_allocate_message; Free_aligned_buffer]), [].
      split; [| left; reflexivity].
      rewrite <- !app_assoc. reflexivity. }
  destruct Halloc as [Hg Hr].
  destruct (msg_serialize _ _ _) as [[[sz buf] log'] |] eqn:Es; cbn [bind];
    [| discriminate].
  destruct (msg_serialize_log _ _ _ _ _ _ Es) as [Sg Sr].
  destruct (library_acquires (log ++ log')) as (L1 & L2 & L3 & L4).
  rewrite granted_app, Hg, Sg in L1. rewrite released_app, Hr, Sr in L2.
  destruct (library_acquires (msg_free (Some msg))) as (F1 & F2 & F3 & F4).
  destruct (msg_free_counts msg) as (Fg & Fr & _). rewrite Fg in F1. rewrite Fr in F2.
  set (freed := map Library (msg_free (Some msg))) in *. clearbody freed.
  destruct (sz <? 0).
  - intros [= <-].
    count_trace. rewrite L1, L2, L3, L4, F1, F2, F3, F4.
    cbn [List.length].
    split; [lia | split; [reflexivity | split; [reflexivity |]]].
    exists ([Print Client_connected;
                Posix_memalign (AlignedBuffer.aligned_size
                                  (AlignedBuffer.buffer_size msg_size)) true;
                Print (Allocated_aligned_buffer (AlignedBuffer.extent r)
                                                (AlignedBuffer.base r))]
                 ++ map Library (log ++ log')
                 ++ [Print Serialization_failed]
                 ++ freed ++ [Free_aligned_buffer]), [].
    split; [| left; reflexivity].
    rewrite <- !app_assoc. reflexivity.
  - pose proof (send_loop_quiet (firstn (Z.to_nat sz) buf) sz
                  (ZeroCopy.env_attempts env)
                  (Stats.stats_init (ZeroCopy.env_stats_start env))) as Hq.
    cbn zeta in Hq.
    destruct (sendmsg_loop _ _ _ _) as [stats sent]. cbn [snd] in Hq.
    destruct Hq as (Q1 & Q2 & Q3 & Q4).
    destruct (Stats.stats_print _ _) as [s rep]. intros [= <-].
    count_trace. rewrite L1, L2, L3, L4, Q1, Q2, Q3, Q4, F1, F2, F3, F4.
    cbn [List.length].
    split; [lia | split; [reflexivity | split; [reflexivity |]]].
    exists ([Print Client_connected;
                Posix_memalign (AlignedBuffer.aligned_size
                                  (AlignedBuffer.buffer_size msg_size)) true;
                Print (Allocated_aligned_buffer (AlignedBuffer.extent r)
                                                (AlignedBuffer.base r))]
                 ++ map Library (log ++ log') ++ sent
                 ++ [Print (Statistics rep)]
                 ++ freed ++ [Free_aligned_buffer]),
      [Print Client_disconnected].
    split; [| right; reflexivity].
    rewrite <- !app_assoc. reflexivity.
Qed.

Lemma one_copy_worker_releases_witness :
  exists trace,
    one_copy_sender
      (Samples.world ZeroCopy.SetsockoptOk [ZeroCopy.SendmsgOk 24; ZeroCopy.SendmsgOk 24] Samples.silent)
      16
    = Defined trace
    /\ List.length (filter acquires trace) = 10%nat
    /\ List.length (filter gives_back trace) = 10%nat
    /\ List.length (filter closes_socket trace) = 1%nat.
Proof.
  destruct (one_copy_sender
              (Samples.world ZeroCopy.SetsockoptOk [ZeroCopy.SendmsgOk 24; ZeroCopy.SendmsgOk 24]
                             Samples.silent) 16)
    as [trace |] eqn:E; [| vm_compute in E; discriminate].
  exists trace. split; [reflexivity |].
  destruct (one_copy_worker_releases _ _ _ E) as (Hbalance & Hclose & _).
  rewrite <- Hbalance.
  assert (Hacquired : List.length (filter acquires trace) = 10%nat)
    by (vm_compute in E; injection E as <-; reflexivity).
  split; [exact Hacquired | split; [exact Hacquired | exact Hclose]].
Defined.

End OneCopyFacts.

Module ReceiverFacts.

Import Receiver CTypesFacts.

Lemma ends_false t : ends t = false -> delivers t = true \/ interrupted t = true.
Proof.
  unfold ends. intros H. apply andb_false_iff in H.
  destruct H as [H | H]; apply negb_false_iff in H; auto.
Qed.

Lemma recv_loop_counts_from capacity pre :
  forall stats,
    Forall (fun t => ends t = false) pre ->
    let stats' := fst (recv_loop capacity pre stats) in
    snd (recv_loop capacity pre stats) = repeat (Recv capacity) (List.length pre)
    /\ size_t_wrap (Stats.total_bytes stats')
       = size_t_wrap (Stats.total_bytes stats
                      + fold_right Z.add 0 (delivered pre))
    /\ size_t_wrap (Stats.total_messages stats')
       = size_t_wrap (Stats.total_messages stats
                      + Z.of_nat (List.length (delivered pre)))
    /\ (delivered pre <> [] ->
        is_size_t (Stats.total_bytes stats')
        /\ is_size_t (Stats.total_messages stats'))
    /\ (delivered pre = [] -> stats' = stats)
    /\ Stats.start_time_sec stats' = Stats.start_time_sec stats
    /\ forall stop post,
         ends stop = true ->
         recv_loop capacity (pre ++ stop :: post) stats
         = (stats',
            repeat (Recv capacity) (List.length pre)
              ++ [Recv capacity;
                  Print (match recv_answer stop with
                         | RecvOk _ => Client_closed_connection
                         | RecvError _ => Perror_recv
                         end)]).
Proof.
  induction pre as [| t pre IH]; intros stats Hall.
  - cbn [recv_loop fst snd List.length repeat delivered flat_map fold_right app].
    rewrite !Z.add_0_r.
    repeat split; try reflexivity; try congruence.
    intros stop post Hstop. cbn [recv_loop].
    unfold ends, delivers, interrupted in Hstop.
    destruct (recv_answer stop) as [errno | received].
    + cbn [negb andb] in Hstop. apply negb_true_iff in Hstop. rewrite Hstop.
      reflexivity.
    + rewrite andb_true_r in Hstop. apply negb_true_iff, negb_false_iff in Hstop.
      rewrite Hstop. reflexivity.
  - inversion Hall as [| ? ? Ht Hrest]; subst.
    apply ends_false in Ht. unfold delivers, interrupted in Ht.
    cbn [recv_loop app delivered flat_map List.length repeat].
    fold (delivered pre).
    destruct (recv_answer t) as [errno | received].
    + destruct Ht as [Ht | Ht]; [discriminate |]. rewrite Ht.
      specialize (IH stats Hrest). cbn zeta in IH.
      destruct IH as (H1 & H2 & H3 & H4 & H5 & H6 & H7).
      destruct (recv_loop capacity pre stats) as [stats' trace] eqn:Er.
      cbn [fst snd app] in *.
      split; [f_equal; exact H1 |].
      split; [exact H2 | split; [exact H3 | split; [exact H4 |]]].
      split; [exact H5 | split; [exact H6 |]].
      intros stop post Hstop. rewrite (H7 stop post Hstop). reflexivity.
    + destruct Ht as [Ht | Ht]; [| discriminate].
      apply negb_true_iff in Ht. rewrite Ht.
      specialize (IH (Stats.stats_update stats received
                        (recv_end t - recv_start t)%float) Hrest).
      cbn zeta in IH.
      destruct IH as (H1 & H2 & H3 & H4 & H5 & H6 & H7).
      destruct (recv_loop capacity pre _) as [stats' trace] eqn:Er.
      cbn [fst snd app fold_right List.length] in *.
      cbn [Stats.stats_update Stats.total_bytes Stats.total_messages
             Stats.start_time_sec] in H2, H3, H6.
      split; [f_equal; exact H1 |].
      split.
      { rewrite H2. unfold size_t_wrap. rewrite Zplus_mod_idemp_l. f_equal. lia. }
      split.
      { rewrite H3. unfold size_t_wrap. rewrite Zplus_mod_idemp_l. f_equal. lia. }
      split.
      { intros _. destruct (delivered pre) as [| d ds] eqn:Ed.
        - rewrite (H5 eq_refl).
          cbn [Stats.stats_update Stats.total_bytes Stats.total_messages].
          unfold is_size_t, size_t_wrap, SIZE_MAX.
          pose proof (Z.mod_pos_bound (Stats.total_bytes stats + received)
                        (2 ^ 64) ltac:(lia)).
          pose proof (Z.mod_pos_bound (Stats.total_messages stats + 1)
                        (2 ^ 64) ltac:(lia)).
          lia.
        - apply H4. discriminate. }
      split; [discriminate |].
      split; [exact H6 |].
      intros stop post Hstop. rewrite (H7 stop post Hstop). reflexivity.
Qed.

(** X19 (the receive loop of the receiving servers, stats_update): the
    receive loop counts what arrives.  Through turns that bring data or
    are interrupted by EINTR or EAGAIN it calls [recv] once per turn with
    the full capacity of the buffer, adds the received bytes and one
    message per delivery to the statistics, and ignores the interrupted
    turns; the first turn that reports a closed connection or another
    error ends the loop with one more [recv] and one line, the statistics
    unchanged by it. *)
Theorem recv_loop_counts capacity pre stats :
  Forall (fun t => ends t = false) pre ->
  is_size_t (Stats.total_bytes stats) ->
  is_size_t (Stats.total_messages stats) ->
  let stats' := fst (recv_loop capacity pre stats) in
  snd (recv_loop capacity pre stats) = repeat (Recv capacity) (List.length pre)
  /\ Stats.total_bytes stats'
     = size_t_wrap (Stats.total_bytes stats + fold_right Z.add 0 (delivered pre))
  /\ Stats.total_messages stats'
     = size_t_wrap (Stats.total_messages stats
                    + Z.of_nat (List.length (delivered pre)))
  /\ forall stop post,
       ends stop = true ->
       recv_loop capacity (pre ++ stop :: post) stats
       = (stats',
          repeat (Recv capacity) (List.length pre)
            ++ [Recv capacity;
                Print (match recv_answer stop with
                       | RecvOk _ => Client_closed_connection
                       | RecvError _ => Perror_recv
                       end)]).
Proof.
  intros Hall Hb Hm stats'.
  destruct (recv_loop_counts_from capacity pre stats Hall)
    as (H1 & H2 & H3 & H4 & H5 & _ & H7).
  fold stats' in H2, H3, H4, H5, H7.
  split; [exact H1 |].
  assert (Hrange : is_size_t (Stats.total_bytes stats')
                   /\ is_size_t (Stats.total_messages stats')).
  { destruct (delivered pre) as [| d ds] eqn:Ed.
    - rewrite (H5 eq_refl). split; assumption.
    - apply H4. discriminate. }
  destruct Hrange as [Rb Rm].
  rewrite (size_t_wrap_small _ Rb) in H2. rewrite (size_t_wrap_small _ Rm) in H3.
  split; [exact H2 | split; [exact H3 | exact H7]].
Qed.

Lemma recv_loop_counts_witness :
  let run := recv_loop 1024 Scenarios.receptions (Stats.stats_init 0%float) in
  snd run = repeat (Recv 1024) 3
  /\ Stats.total_bytes (fst run) = 124
  /\ Stats.total_messages (fst run) = 2.
Proof.
  destruct (recv_loop_counts 1024 Scenarios.receptions
                             (Stats.stats_init 0%float))
    as (Htrace & Hbytes & Hmessages & _).
  - unfold Scenarios.receptions. cbn [map].
    repeat (constructor; [reflexivity |]). constructor.
  - vm_compute. split; discriminate.
  - vm_compute. split; discriminate.
  - cbn zeta. rewrite Htrace, Hbytes, Hmessages. repeat split.
Defined.

Lemma recv_loop_quiet capacity turns :
  forall stats,
    let trace := snd (recv_loop capacity turns stats) in
    filter obtains_buffer trace = [] /\ filter frees_buffer trace = []
    /\ filter closes_connection trace = [] /\ filter releases_args trace = []
    /\ Forall (fun a => forall c, a = Recv c -> c = capacity) trace.
Proof.
  induction turns as [| t rest IH]; intros stats; cbn [recv_loop].
  - repeat split. constructor.
  - destruct (recv_answer t) as [errno | received].
    + destruct ((errno =? ZeroCopy.EINTR) || (errno =? ZeroCopy.EAGAIN)).
      * specialize (IH stats). cbn zeta in IH.
        destruct (recv_loop capacity rest stats) as [stats' trace].
        cbn [snd filter obtains_buffer frees_buffer closes_connection releases_args] in *.
        destruct IH as (H1 & H2 & H3 & H4 & H5).
        repeat split; try assumption.
        constructor; [intros c [= <-]; reflexivity | exact H5].
      * repeat split.
        constructor; [intros c [= <-]; reflexivity |].
        constructor; [discriminate | constructor].
    + destruct (received =? 0).
      * repeat split.
        constructor; [intros c [= <-]; reflexivity |].
        constructor; [discriminate | constructor].
      * match goal with
        | |- context [recv_loop capacity rest ?s] =>
            specialize (IH s); cbn zeta in IH;
            destruct (recv_loop capacity rest s) as [stats' trace]
        end.
        cbn [snd filter obtains_buffer frees_buffer closes_connection releases_args] in *.
        destruct IH as (H1 & H2 & H3 & H4 & H5).
        repeat split; try assumption.
        constructor; [intros c [= <-]; reflexivity | exact H5].
Qed.

Ltac count_receiver_trace :=
  repeat first
    [ progress cbn [app filter obtains_buffer frees_buffer closes_connection releases_args
                      List.length]
    | rewrite filter_app
    | rewrite length_app ].

(** X20 (client_handler of the two-copy and of the zero-copy receiving
    server): the receivers give back what they took.  Each frees its
    buffer exactly when it obtained one, calls [recv] only with a buffer it
    obtained and with that buffer's whole size ([sizeof(size_t) + msg_size]
    and its round-up to pages, respectively), closes the connection once
    and frees its arguments once, at its end. *)
Theorem receivers_release env msg_size :
  let buffer_size := AlignedBuffer.buffer_size msg_size in
  let aligned_size := AlignedBuffer.aligned_size buffer_size in
  let disciplined capacity trace :=
    List.length (filter obtains_buffer trace) = List.length (filter frees_buffer trace)
    /\ List.length (filter closes_connection trace) = 1%nat
    /\ List.length (filter releases_args trace) = 1%nat
    /\ Forall (fun a => forall c,
                 a = Recv c ->
                 c = capacity /\ List.length (filter obtains_buffer trace) = 1%nat)
              trace
    /\ exists before after,
         trace = before ++ Close :: Free_args :: after
         /\ (after = [] \/ after = [Print Client_disconnected]) in
  disciplined buffer_size (two_copy_receiver env msg_size)
  /\ disciplined aligned_size (zero_copy_receiver env msg_size).
Proof.
  intros buffer_size aligned_size disciplined. subst disciplined. cbn beta.
  split.
  - unfold two_copy_receiver. fold buffer_size.
    destruct (rx_malloc env buffer_size).
    + pose proof (recv_loop_quiet buffer_size (rx_turns env)
                    (Stats.stats_init (rx_stats_start env))) as Hq.
      cbn zeta in Hq.
      destruct (recv_loop _ _ _) as [stats received]. cbn [snd] in Hq.
      destruct Hq as (Q1 & Q2 & Q3 & Q4 & Q5).
      destruct (Stats.stats_print _ _) as [s rep].
      count_receiver_trace. rewrite Q1, Q2, Q3, Q4. cbn [List.length].
      split; [reflexivity | split; [reflexivity | split; [reflexivity | split]]].
      * constructor; [discriminate |]. constructor; [discriminate |].
        apply Forall_app; split.
        -- eapply Forall_impl; [| exact Q5].
           intros a Ha c Hc. split; [exact (Ha c Hc) | reflexivity].
        -- repeat (constructor; [discriminate |]). constructor.
      * exists ([Print Client_connected; Malloc_buffer buffer_size true]
                  ++ received ++ [Print (Statistics rep); Free_buffer]),
          [Print Client_disconnected].
        split; [rewrite <- !app_assoc; reflexivity | right; reflexivity].
    + cbn.
      split; [reflexivity | split; [reflexivity | split; [reflexivity | split]]].
      * repeat (constructor; [discriminate |]). constructor.
      * exists [Print Client_connected; Malloc_buffer buffer_size false;
                Print Perror_malloc_recv_buffer], [].
        split; [reflexivity | left; reflexivity].
  - unfold zero_copy_receiver. fold buffer_size. fold aligned_size.
    unfold AlignedBuffer.allocate. fold buffer_size. fold aligned_size.
    destruct (rx_memalign env AlignedBuffer.PAGE_SIZE aligned_size) as [p |].
    + cbn [AlignedBuffer.extent].
      pose proof (recv_loop_quiet aligned_size (rx_turns env)
                    (Stats.stats_init (rx_stats_start env))) as Hq.
      cbn zeta in Hq.
      destruct (recv_loop _ _ _) as [stats received]. cbn [snd] in Hq.
      destruct Hq as (Q1 & Q2 & Q3 & Q4 & Q5).
      destruct (Stats.stats_print _ _) as [s rep].
      count_receiver_trace. rewrite Q1, Q2, Q3, Q4. cbn [List.length].
      split; [reflexivity | split; [reflexivity | split; [reflexivity | split]]].
      * constructor; [discriminate |]. constructor; [discriminate |].
        apply Forall_app; split.
        -- eapply Forall_impl; [| exact Q5].
           intros a Ha c Hc. split; [exact (Ha c Hc) | reflexivity].
        -- repeat (constructor; [discriminate |]). constructor.
      * exists ([Print Client_connected; Posix_memalign aligned_size true]
                  ++ received ++ [Print (Statistics rep); Free_buffer]),
          [Print Client_disconnected].
        split; [rewrite <- !app_assoc; reflexivity | right; reflexivity].
    + cbn.
      split; [reflexivity | split; [reflexivity | split; [reflexivity | split]]].
      * repeat (constructor; [discriminate |]). constructor.
      * exists [Print Client_connected; Posix_memalign aligned_size false;
                Print Perror_posix_memalign], [].
        split; [reflexivity | left; reflexivity].
Qed.

End ReceiverFacts.

Module ListenerFacts.

Import Listener.

Lemma started_app l1 l2 : started (l1 ++ l2) = started l1 ++ started l2.
Proof.
  induction l1 as [| a l1 IH]; [reflexivity |].
  destruct a as [| | | | | | | | | | | args [|] | | | |];
    cbn [app started]; rewrite IH; reflexivity.
Qed.

Lemma closed_app l1 l2 : closed (l1 ++ l2) = closed l1 ++ closed l2.
Proof.
  induction l1 as [| a l1 IH]; [reflexivity |].
  destruct a; cbn [app closed]; rewrite IH; reflexivity.
Qed.

Lemma accept_loop_accounts cfg accepts :
  forall counter,
    let trace := accept_loop cfg accepts counter in
    Permutation (map client_fd (started trace) ++ closed trace)
                (accepted accepts)
    /\ List.length (filter is_accept trace) = List.length accepts
    /\ Forall (fun args =>
                 msg_size args = Args.msgsize cfg
                 /\ duration_sec args = Args.duration cfg
                 /\ counter <= thread_id args
                    < counter + Z.of_nat (List.length accepts))
              (started trace)
    /\ StronglySorted Z.lt (map thread_id (started trace))
    /\ filter is_close_server trace = []
    /\ filter is_socket trace = [].
Proof.
  induction accepts as [| [errno | fd args_ok thread_ok] rest IH];
    intros counter; cbn [accept_loop].
  - cbn. repeat split; constructor.
  - specialize (IH counter). cbn zeta in IH.
    destruct IH as (H1 & H2 & H3 & H4 & H5 & H6).
    assert (H3' : Forall (fun args =>
                            msg_size args = Args.msgsize cfg
                            /\ duration_sec args = Args.duration cfg
                            /\ counter <= thread_id args
                               < counter
                                 + Z.of_nat (List.length (AcceptError errno :: rest)))
                         (started (accept_loop cfg rest counter))).
    { eapply Forall_impl; [| exact H3].
      intros args (Ha & Hb & Hc). cbn [List.length].
      split; [exact Ha | split; [exact Hb | lia]]. }
    destruct (errno =? ZeroCopy.EINTR);
      cbn [started closed accepted filter is_accept is_close_server is_socket];
      (split; [exact H1 |]);
      (split; [cbn [List.length]; rewrite H2; reflexivity |]);
      (split; [exact H3' |]);
      (split; [exact H4 | split; assumption]).
  - destruct args_ok; [destruct thread_ok |].
    + specialize (IH (counter + 1)). cbn zeta in IH.
      destruct IH as (H1 & H2 & H3 & H4 & H5 & H6).
      cbn [app started closed accepted filter is_accept is_close_server
             is_socket map client_fd msg_size duration_sec thread_id].
      split; [apply perm_skip; exact H1 |].
      split; [cbn [List.length]; rewrite H2; reflexivity |].
      split.
      { constructor.
        - cbn [msg_size duration_sec thread_id List.length].
          split; [reflexivity | split; [reflexivity | lia]].
        - eapply Forall_impl; [| exact H3].
          intros args (Ha & Hb & Hc). cbn [List.length].
          split; [exact Ha | split; [exact Hb | lia]]. }
      split.
      { constructor; [exact H4 |].
        apply Forall_map. eapply Forall_impl; [| exact H3].
        intros args (_ & _ & Hc). cbn. lia. }
      split; assumption.
    + specialize (IH (counter + 1)). cbn zeta in IH.
      destruct IH as (H1 & H2 & H3 & H4 & H5 & H6).
      cbn [app started closed accepted filter is_accept is_close_server
             is_socket map].
      split; [apply Permutation_sym, Permutation_cons_app, Permutation_sym;
              exact H1 |].
      split; [cbn [List.length]; rewrite H2; reflexivity |].
      split.
      { eapply Forall_impl; [| exact H3].
        intros args (Ha & Hb & Hc). cbn [List.length].
        split; [exact Ha | split; [exact Hb | lia]]. }
      split; [exact H4 | split; assumption].
    + specialize (IH counter). cbn zeta in IH.
      destruct IH as (H1 & H2 & H3 & H4 & H5 & H6).
      cbn [app started closed accepted filter is_accept is_close_server
             is_socket map].
      split; [apply Permutation_sym, Permutation_cons_app, Permutation_sym;
              exact H1 |].
      split; [cbn [List.length]; rewrite H2; reflexivity |].
      split.
      { eapply Forall_impl; [| exact H3].
        intros args (Ha & Hb & Hc). cbn [List.length].
        split; [exact Ha | split; [exact Hb | lia]]. }
      split; [exact H4 | split; assumption].
Qed.

(** X21 (the accept loop of main): every accepted connection is handed
    to a worker or closed.  While the thread counter stays within [int],
    the descriptors of the started workers together with those [main]
    closes itself are exactly the descriptors [accept] returned, each
    once; [accept] is called once per turn; every started worker gets the
    configured message size and duration and a thread id that is an [int]
    no smaller than the counter, and the ids grow strictly. *)
Theorem accept_loop_hands_over_or_closes cfg accepts counter :
  0 <= counter ->
  counter + Z.of_nat (List.length accepts) <= INT_MAX ->
  let trace := accept_loop cfg accepts counter in
  Permutation (map client_fd (started trace) ++ closed trace)
              (accepted accepts)
  /\ List.length (filter is_accept trace) = List.length accepts
  /\ Forall (fun args =>
               msg_size args = Args.msgsize cfg
               /\ duration_sec args = Args.duration cfg
               /\ counter <= thread_id args <= INT_MAX)
            (started trace)
  /\ StronglySorted Z.lt (map thread_id (started trace)).
Proof.
  intros Hcounter Hmax.
  destruct (accept_loop_accounts cfg accepts counter) as (H1 & H2 & H3 & H4 & _).
  split; [exact H1 | split; [exact H2 | split; [| exact H4]]].
  eapply Forall_impl; [| exact H3].
  intros args (Ha & Hb & Hc).
  split; [exact Ha | split; [exact Hb | lia]].
Qed.

Lemma accept_loop_hands_over_or_closes_witness :
  let trace := accept_loop (Args.server_defaults 9000) Scenarios.five_turns 0 in
  Permutation (map client_fd (started trace) ++ closed trace) [5; 6; 7; 8]
  /\ List.length (filter is_accept trace) = 5%nat
  /\ Forall (fun args =>
               msg_size args = 1024
               /\ duration_sec args = 10
               /\ 0 <= thread_id args <= INT_MAX)
            (started trace)
  /\ StronglySorted Z.lt (map thread_id (started trace)).
Proof.
  refine (accept_loop_hands_over_or_closes (Args.server_defaults 9000)
            Scenarios.five_turns 0 _ _).
  - lia.
  - vm_compute. discriminate.
Defined.

(** X22 (main of the two-copy server): the exit status.  [main] returns 0
    or 1; it returns 0 exactly when [socket], [bind] and [listen] all
    succeeded.  When it returns 1 it has accepted nobody and started no
    worker.  It creates one socket and closes it once unless [socket]
    itself failed; when it returns 0 it has called [accept] once per turn
    of its loop and started every worker with the settings of the
    command line. *)
Theorem main_exit_status argv env status trace :
  main argv env = Defined (status, trace) ->
  exists cfg,
    Args.server_args (Args.server_defaults DEFAULT_PORT) argv = Defined cfg
    /\ (status = 0 \/ status = 1)
    /\ (status = 0 <->
        srv_socket env = true /\ srv_bind env = true /\ srv_listen env = true)
    /\ (status = 1 -> filter is_accept trace = [] /\ started trace = [])
    /\ List.length (filter is_socket trace) = 1%nat
    /\ List.length (filter is_close_server trace)
       = (if srv_socket env then 1%nat else 0%nat)
    /\ (status = 0 ->
        List.length (filter is_accept trace) = List.length (srv_accepts env)
        /\ Forall (fun args =>
                     msg_size args = Args.msgsize cfg
                     /\ duration_sec args = Args.duration cfg)
                  (started trace)).
Proof.
  unfold main.
  destruct (Args.server_args _ argv) as [cfg |]; cbn [bind]; [| discriminate].
  intros H. exists cfg. split; [reflexivity |].
  unfold serve in H.
  destruct (srv_socket env); cbn [negb] in H.
  2:{ injection H as <- <-. cbn.
      repeat split; try (intros; discriminate); auto.
      intros (Hs & _). discriminate. }
  destruct (srv_bind env); cbn [negb] in H.
  2:{ injection H as <- <-. cbn.
      repeat split; try (intros; discriminate); auto.
      intros (_ & Hb & _). discriminate. }
  destruct (srv_listen env); cbn [negb] in H.
  2:{ injection H as <- <-. cbn.
      repeat split; try (intros; discriminate); auto.
      intros (_ & _ & Hl). discriminate. }
  injection H as <- <-.
  destruct (accept_loop_accounts cfg (srv_accepts env) 0)
    as (_ & H2 & H3 & _ & H5 & H6).
  cbn zeta in H2, H3, H5, H6.
  split; [left; reflexivity |].
  split; [split; [intros _; repeat split | reflexivity] |].
  split; [intros; discriminate |].
  cbn [app filter is_socket is_close_server is_accept List.length].
  rewrite !filter_app, !length_app, H5, H6.
  cbn [app filter is_socket is_close_server is_accept List.length].
  split; [reflexivity | split; [reflexivity |]].
  intros _. rewrite H2. split; [lia |].
  cbn [started]. rewrite started_app. cbn [started]. rewrite app_nil_r.
  eapply Forall_impl; [| exact H3].
  intros args (Ha & Hb & _). split; assumption.
Qed.

Lemma main_exit_status_witness :
  exists trace cfg,
    Listener.main ["--msgsize=64"%string] Scenarios.one_client
    = Defined (0, trace)
    /\ Args.server_args (Args.server_defaults DEFAULT_PORT)
                        ["--msgsize=64"%string]
       = Defined cfg
    /\ List.length (filter is_accept trace) = 1%nat
    /\ Forall (fun args =>
                 msg_size args = Args.msgsize cfg
                 /\ duration_sec args = Args.duration cfg)
              (started trace).
Proof.
  destruct (Listener.main ["--msgsize=64"%string] Scenarios.one_client)
    as [[status trace] |] eqn:E; [| vm_compute in E; discriminate].
  assert (Hstatus : status = 0) by (vm_compute in E; congruence).
  subst status.
  destruct (main_exit_status _ _ _ _ E)
    as (cfg & Hcfg & _ & _ & _ & _ & _ & Hserved).
  exists trace, cfg. split; [reflexivity |]. split; [exact Hcfg |].
  exact (Hserved eq_refl).
Defined.

End ListenerFacts.

Module SpawnerFacts.

Import Spawner.

Lemma created_app l1 l2 :
  created_threads (l1 ++ l2) = created_threads l1 ++ created_threads l2.
Proof.
  induction l1 as [| a l1 IH]; [reflexivity |].
  destruct a as [| | | | | i [|] | | | | | |];
    cbn [app created_threads]; rewrite IH; reflexivity.
Qed.

Lemma joined_app l1 l2 :
  joined_threads (l1 ++ l2) = joined_threads l1 ++ joined_threads l2.
Proof.
  induction l1 as [| a l1 IH]; [reflexivity |].
  destruct a; cbn [app joined_threads]; rewrite IH; reflexivity.
Qed.

Lemma joins_joined l :
  joined_threads (map (fun i => Pthread_join (Z.of_nat i)) l) = map Z.of_nat l
  /\ created_threads (map (fun i => Pthread_join (Z.of_nat i)) l) = [].
Proof.
  induction l as [| i l [IH1 IH2]]; [split; reflexivity |].
  cbn [map joined_threads created_threads]. rewrite IH1, IH2. split; reflexivity.
Qed.

Lemma spawn_loop_creates create todo :
  forall i,
    let '(n, trace) := spawn_loop create todo i in
    (i <= n <= i + todo)%nat
    /\ created_threads trace = map Z.of_nat (seq i (n - i))
    /\ joined_threads trace = []
    /\ (n < i + todo -> create n = false)%nat
    /\ Forall (fun k => create k = true) (seq i (n - i)).
Proof.
  induction todo as [| todo IH]; intros i; cbn [spawn_loop].
  - rewrite Nat.sub_diag. cbn. repeat split; try lia. constructor.
  - destruct (create i) eqn:Ec.
    + specialize (IH (S i)).
      destruct (spawn_loop create todo (S i)) as [n trace].
      destruct IH as (H1 & H2 & H3 & H4 & H5).
      replace (n - i)%nat with (S (n - S i)) by lia.
      cbn [created_threads joined_threads seq map].
      rewrite H2, H3.
      split; [lia | split; [reflexivity | split; [reflexivity | split]]].
      * intros Hlt. apply H4. lia.
      * constructor; [exact Ec | exact H5].
    + rewrite Nat.sub_diag. cbn.
      repeat split; try lia; [intros _; exact Ec | constructor].
Qed.

(** X23 (main of the zero-copy client): the threads that are created are
    the threads that are joined.  [main] joins exactly the threads whose
    [pthread_create] succeeded, in the order of their creation; their ids
    are 0, 1, ... and there are at most [num_threads] of them.  It returns
    1 exactly when one of its two [malloc]s failed, and has then created
    no thread; with a [malloc] that refuses what a 47-bit address space
    cannot hold, that is the outcome of every negative [--threads=]. *)
Theorem client_main_joins_what_it_created cfg env status trace :
  run cfg env = (status, trace) ->
  joined_threads trace = created_threads trace
  /\ created_threads trace
     = map Z.of_nat (seq 0 (List.length (created_threads trace)))
  /\ Z.of_nat (List.length (created_threads trace))
     <= Z.max 0 (Args.num_threads cfg)
  /\ (status = 0 \/ status = 1)
  /\ (status = 1 <->
      cli_malloc env 0%nat (array_size (Args.num_threads cfg) sizeof_pthread_t)
      = false
      \/ cli_malloc env 1%nat
           (array_size (Args.num_threads cfg) sizeof_client_thread_args_t)
         = false)
  /\ (status = 1 -> created_threads trace = [])
  /\ ((forall k size, 2 ^ 47 <= size -> cli_malloc env k size = false) ->
      INT_MIN <= Args.num_threads cfg < 0 ->
      status = 1).
Proof.
  unfold run.
  set (n := Args.num_threads cfg).
  destruct (cli_malloc env 0%nat (array_size n sizeof_pthread_t)) eqn:E0;
    cbn [negb orb].
  2:{ intros [= <- <-]. cbn. repeat split; auto; try lia. }
  destruct (cli_malloc env 1%nat (array_size n sizeof_client_thread_args_t)) eqn:E1;
    cbn [negb].
  2:{ intros [= <- <-]. cbn. repeat split; auto; try lia. }
  pose proof (spawn_loop_creates (cli_create env) (Z.to_nat n) 0) as Hs.
  destruct (spawn_loop (cli_create env) (Z.to_nat n) 0) as [created spawned].
  destruct Hs as (H1 & H2 & H3 & _ & _). rewrite Nat.sub_0_r in H2.
  destruct (Stats.stats_print _ _) as [s r]. intros [= <- <-].
  destruct (joins_joined (seq 0 created)) as [J1 J2].
  cbn [app created_threads joined_threads].
  rewrite !created_app, !joined_app, H2, H3, J1, J2.
  cbn [app created_threads joined_threads]. rewrite !app_nil_r.
  rewrite length_map, length_seq.
  split; [reflexivity | split; [reflexivity | split; [lia |]]].
  split; [left; reflexivity |].
  split; [split; [discriminate | intros [H | H]; discriminate] |].
  split; [discriminate |].
  intros Hrefuse Hneg. exfalso.
  assert (Hbig : 2 ^ 47 <= array_size n sizeof_pthread_t).
  { unfold array_size, size_t_wrap, sizeof_pthread_t, INT_MIN in *.
    replace (n mod 2 ^ 64) with (n + 2 ^ 64)
      by (apply Z.mod_unique with (q := -1); lia).
    replace (((n + 2 ^ 64) * 8) mod 2 ^ 64) with (8 * n + 2 ^ 64)
      by (apply Z.mod_unique with (q := 7); lia).
    lia. }
  rewrite (Hrefuse 0%nat _ Hbig) in E0. discriminate.
Qed.

Lemma client_main_joins_what_it_created_witness :
  exists trace,
    Spawner.run
      {| Args.host := "127.0.0.1"%string; Args.client_port := 9002;
         Args.client_msg_size := 64; Args.client_duration := 1;
         Args.num_threads := 3 |}
      Scenarios.willing
    = (0, trace)
    /\ joined_threads trace = [0; 1; 2]
    /\ created_threads trace = [0; 1; 2].
Proof.
  destruct (Spawner.run
              {| Args.host := "127.0.0.1"%string; Args.client_port := 9002;
                 Args.client_msg_size := 64; Args.client_duration := 1;
                 Args.num_threads := 3 |}
              Scenarios.willing) as [status trace] eqn:E.
  assert (Hstatus : status = 0) by (vm_compute in E; congruence).
  subst status. exists trace. split; [reflexivity |].
  destruct (client_main_joins_what_it_created _ _ _ _ E) as (Hjoin & _).
  rewrite Hjoin.
  assert (Hcreated : created_threads trace = [0; 1; 2])
    by (vm_compute in E; injection E as <-; reflexivity).
  split; exact Hcreated.
Defined.

End SpawnerFacts.

Module ShutdownFacts.

Import ZeroCopy Tally CTypesFacts ZeroCopyFacts WorkerFacts.

(** One read of the error queue in the drain loop, with the sleep that
    follows it when it found nothing. *)
Lemma poll_drain_turn errqueue st :
  let '(ret, _, acts) := poll errqueue st in
  acts ++ (if ret =? 0 then [Usleep 1000] else [])
  = drain_turn (errqueue (polls st)).
Proof.
  unfold poll, handle_zerocopy_completions, drain_turn.
  destruct (errqueue (polls st)) as [errno | control]; [| reflexivity].
  destruct ((errno =? EAGAIN) || (errno =? EWOULDBLOCK)); reflexivity.
Qed.

Lemma poll_polls errqueue st :
  polls (snd (fst (poll errqueue st))) = S (polls st).
Proof.
  unfold poll. destruct (handle_zerocopy_completions _ _) as [[ret c] acts].
  reflexivity.
Qed.

Lemma after_polls_send_count errqueue k :
  forall st, send_count (after_polls errqueue k st) = send_count st.
Proof.
  induction k as [| k IH]; intros st; cbn [after_polls]; [reflexivity |].
  rewrite IH. apply poll_send_count.
Qed.

Lemma flat_map_shifted {A B C} (g : A -> B) (f : B -> list C) l :
  flat_map f (map g l) = flat_map (fun x => f (g x)) l.
Proof.
  induction l as [| x l IH]; cbn [map flat_map]; [| rewrite IH]; reflexivity.
Qed.

(** The drain loop, turn by turn. *)
Lemma drain_loop_turns errqueue fuel :
  forall st st' trace,
    drain_loop fuel errqueue st = Some (st', trace) ->
    exists k,
      (k <= fuel)%nat
      /\ st' = after_polls errqueue k st
      /\ send_count st <= completion_count st'
      /\ (forall j, (j < k)%nat ->
                    completion_count (after_polls errqueue j st) < send_count st)
      /\ trace = flat_map (fun j => drain_turn (errqueue (polls st + j)%nat))
                          (seq 0 k).
Proof.
  induction fuel as [| fuel IH]; intros st st' trace H;
    destruct (completion_count st <? send_count st) eqn:E.
  - cbn [drain_loop] in H. rewrite E in H. discriminate.
  - rewrite drain_loop_done in H by exact E. injection H as <- <-.
    apply Z.ltb_ge in E. exists 0%nat.
    split; [lia | split; [reflexivity | split; [exact E | split]]].
    + intros j Hj. lia.
    + reflexivity.
  - cbn [drain_loop] in H. rewrite E in H.
    pose proof (poll_drain_turn errqueue st) as Hturn.
    pose proof (poll_polls errqueue st) as Hpolls.
    pose proof (poll_send_count errqueue st) as Hsend.
    destruct (poll errqueue st) as [[ret st1] acts] eqn:Ep.
    cbn [fst snd] in Hpolls, Hsend.
    destruct (drain_loop fuel errqueue st1) as [[st2 tr] |] eqn:Ed;
      [| discriminate].
    injection H as <- <-.
    destruct (IH _ _ _ Ed) as (k & Hk & Hst & Hreached & Hbefore & Htrace).
    exists (S k). cbn [after_polls]. rewrite Ep. cbn [fst snd].
    split; [lia |].
    split; [exact Hst |].
    split; [lia |].
    split.
    + intros [| j] Hj; cbn [after_polls].
      * apply Z.ltb_lt in E. exact E.
      * rewrite Ep. cbn [fst snd]. rewrite <- Hsend. apply Hbefore. lia.
    + cbn [seq flat_map]. rewrite Nat.add_0_r, <- Hturn, <- app_assoc.
      f_equal. f_equal. rewrite Htrace, <- seq_shift, flat_map_shifted.
      apply flat_map_ext. intros j. rewrite Hpolls.
      replace (S (polls st) + j)%nat with (polls st + S j)%nat by lia.
      reflexivity.
  - rewrite drain_loop_done in H by exact E. injection H as <- <-.
    apply Z.ltb_ge in E. exists 0%nat.
    split; [lia | split; [reflexivity | split; [exact E | split]]].
    + intros j Hj. lia.
    + reflexivity.
Qed.

(** C2, amended: the shutdown drain has no bound.  The loop ends exactly
    when, after some number of reads of the error queue, the resolved
    count has reached the number of sends; it ends at the first such
    read, and until then every turn is a read of the queue followed by a
    sleep of one millisecond when the read found nothing (by the report
    of the error when the read failed otherwise): no counter, no deadline
    and no leak warning.  Only behind the loop does a worker with
    zero-copy enabled print its statistics and close its socket; while
    the loop is turning the worker has not returned. *)
Theorem shutdown_waits_for_the_drain fuel env msg_size global :
  (forall st,
     (exists turns, drain_loop turns (env_errqueue env) st <> None)
     <-> (exists k, send_count st
                    <= completion_count (after_polls (env_errqueue env) k st)))
  /\ (forall st st' trace,
        drain_loop fuel (env_errqueue env) st = Some (st', trace) ->
        exists k,
          (k <= fuel)%nat
          /\ st' = after_polls (env_errqueue env) k st
          /\ send_count st <= completion_count st'
          /\ (forall j, (j < k)%nat ->
                completion_count (after_polls (env_errqueue env) j st)
                < send_count st)
          /\ trace
             = flat_map (fun j => drain_turn (env_errqueue env (polls st + j)%nat))
                        (seq 0 k))
  /\ (forall frame size acts,
        env_setsockopt env = SetsockoptOk ->
        Z.of_nat (List.length (env_attempts env)) <= INT_MAX ->
        prepare_frame env msg_size = Defined (Some (frame, size), acts) ->
        let st1 :=
          fst (send_loop 1 frame size (env_errqueue env) (env_attempts env)
                         {| send_count := 0; completion_count := 0;
                            stats := Stats.stats_init (env_stats_start env);
                            polls := 0%nat |}) in
        0 <= send_count st1 <= INT_MAX
        /\ match drain_loop fuel (env_errqueue env) st1 with
           | None =>
               client_handler fuel env msg_size = Defined None
               /\ (env_socket env = true -> env_inet_pton env = true ->
                   env_connect env = true ->
                   sender_thread fuel env msg_size global = Defined None)
           | Some (st2, drained) =>
               let epilogue r :=
                 Print (Draining (send_count st1)) :: drained
                   ++ [Print (All_completions_received (completion_count st2));
                       Print (Statistics r); Close; Print Disconnected] in
               (exists before r,
                  client_handler fuel env msg_size
                  = Defined (Some (before ++ epilogue r))
                  /\ Forall (fun a => is_epilogue a = false) before)
               /\ (env_socket env = true -> env_inet_pton env = true ->
                   env_connect env = true ->
                   exists before r g,
                     sender_thread fuel env msg_size global
                     = Defined (Some (before ++ epilogue r, g))
                     /\ Forall (fun a => is_epilogue a = false) before)
           end).
Proof.
  split; [| split].
  - intros st. split.
    + intros [turns H].
      exact (drain_loop_ends_then_reached turns (env_errqueue env) st H).
    + intros [k H]. exists k.
      exact (drain_loop_reached_then_ends (env_errqueue env) k st H).
  - intros st st' trace H.
    exact (drain_loop_turns (env_errqueue env) fuel st st' trace H).
  - intros frame size acts Hprobe Hturns Hprep st1.
    set (st0 := {| send_count := 0; completion_count := 0;
                   stats := Stats.stats_init (env_stats_start env);
                   polls := 0%nat |}) in *.
    pose proof (LoopFacts.send_loop_statistics_from 1 frame size (env_errqueue env)
                  (env_attempts env) st0 eq_refl eq_refl) as Hcount.
    cbv zeta in Hcount. fold st1 in Hcount.
    destruct Hcount as (Hrange & _).
    cbn [send_count st0] in Hrange.
    split; [lia |].
    pose proof (send_loop_no_epilogue 1 frame size (env_errqueue env)
                  (env_attempts env) st0) as Hsent.
    pose proof (prepare_frame_shape env msg_size _ _ Hprep) as Hacts.
    cbn iota in Hacts.
    unfold client_handler, sender_thread.
    rewrite Hprobe, Hprep. cbn [check_zerocopy_support bind].
    change (1 <? 0) with false. change (1 =? 0) with false. cbn iota.
    fold st0. subst st1.
    destruct (send_loop 1 frame size (env_errqueue env) (env_attempts env) st0)
      as [st1 sent]. cbn [fst snd] in *.
    unfold drain. change (1 =? 0) with false. cbn iota.
    destruct (drain_loop fuel (env_errqueue env) st1) as [[st2 drained] |].
    + destruct (Stats.stats_print (stats st2) (env_stats_end env)) as [s r].
      split.
      * exists ([Print Client_connected; Setsockopt_zerocopy;
                 Print Zerocopy_enabled] ++ acts ++ sent), r.
        split.
        { cbn [app]. rewrite <- !app_assoc. reflexivity. }
        repeat (constructor; [reflexivity |]).
        apply Forall_app; split; assumption.
      * intros -> -> ->. cbn [negb].
        exists ([Print Connecting; Socket; Setsockopt_zerocopy;
                 Print Zerocopy_enabled; Connect; Setsockopt_nodelay;
                 Print Connected_to_server] ++ acts ++ sent), r,
               (Stats.stats_merge global (stats st2)).
        split.
        { cbn [app]. rewrite <- !app_assoc. reflexivity. }
        repeat (constructor; [reflexivity |]).
        apply Forall_app; split; assumption.
    + split; [reflexivity |].
      intros -> -> ->. reflexivity.
Qed.

Lemma shutdown_waits_for_the_drain_witness :
  exists before r,
    client_handler 2
      (Samples.world SetsockoptOk [SendmsgOk 24] Scenarios.late_confirmation) 16
    = Defined (Some (before
                       ++ Print (Draining 1)
                       :: [Recvmsg_errqueue; Usleep 1000; Recvmsg_errqueue]
                       ++ [Print (All_completions_received 1);
                           Print (Statistics r); Close; Print Disconnected]))
    /\ Forall (fun a => is_epilogue a = false) before.
Proof.
  pose proof (proj2 (proj2 (shutdown_waits_for_the_drain 2
                (Samples.world SetsockoptOk [SendmsgOk 24]
                               Scenarios.late_confirmation)
                16 (Stats.stats_init 0%float)))
                (Codec.frame_of Samples.m2) 24
                (map Library (Malloc 72 true :: repeat (Malloc 2 true) 8))
                eq_refl) as H.
  destruct H as [_ H].
  - vm_compute. discriminate.
  - vm_compute. reflexivity.
  - vm_compute in H. destruct H as [(before & r & Heq & Hall) _].
    exists before, r. split; [vm_compute; exact Heq | exact Hall].
Defined.

End ShutdownFacts.

Module FallbackFacts.

Import OneCopy.
Import ZeroCopy Tally CTypesFacts ZeroCopyFacts LoopFacts OneCopyFacts.







End FallbackFacts.

Module WireFacts.

Import OneCopy.
Import ZeroCopy Tally CTypesFacts CodecFacts ZeroCopyFacts OneCopyFacts.







(** *** The frame of a message of [msg_size / 8]-byte fields *)













End WireFacts.
